(** * TruthLens claim-triage pipeline: a shallow embedding of [app.py]

    The development follows the source file top to bottom:
    [clean_text], [process_language], [preprocessing_and_translation],
    [MisinformationDetector.score], [detect_sensationalism],
    [generate_preliminary_prediction], [analyze_text],
    [query_google_fact_check], [calculate_confidence_score],
    [summarize_verified_facts], [generate_multilingual_explanation]
    and the page [truthlens_app] that chains them.

    Data model.
    - A Python [str] is a list of Unicode code points ([N]).
    - A Python [int] is a [Z].
    - A Python [float] is an IEEE-754 binary64 number, taken from the
      standard library's [SpecFloat] with [prec = 53] and [emax = 1024].
    - The Unicode character database that CPython consults for
      [str.lower], [str.isspace], the [re] classes [\w], [\s], [\d] and
      [re.IGNORECASE] is not part of the repository; it is the parameter
      [Unicode] below.  The facts about it that a proof relies on are
      collected in [UnicodeLaws]; [ascii_unicode] is the instance that is
      exact on ASCII text and is used to run the code on concrete input.
    - The language detector and the translator are external collaborators
      that may raise; they are parameters returning [res]. *)

From Stdlib Require Import List NArith ZArith Bool Lia String Ascii.
From Stdlib Require Import DecimalString Permutation.
From Stdlib Require Import Floats.SpecFloat.
Import ListNotations.

Set Implicit Arguments.

(** ** Python strings *)

Definition char := N.
Definition str := list char.

(** An ASCII literal of the source, as a list of code points. *)
Definition lit (s : string) : str :=
  List.map N_of_ascii (list_ascii_of_string s).

Definition char_eqb (a b : char) : bool := N.eqb a b.

Fixpoint str_eqb (a b : str) : bool :=
  match a, b with
  | [], [] => true
  | x :: a', y :: b' => char_eqb x y && str_eqb a' b'
  | _, _ => false
  end.

(** [not s] for a string: the empty string is the only falsy one. *)
Definition falsy (s : str) : bool :=
  match s with [] => true | _ :: _ => false end.

(** [s.startswith(p)] *)
Fixpoint starts_with (p s : str) : bool :=
  match p, s with
  | [], _ => true
  | _ :: _, [] => false
  | x :: p', y :: s' => char_eqb x y && starts_with p' s'
  end.

(** [p in s] *)
Fixpoint contains (p s : str) : bool :=
  starts_with p s ||
  match s with
  | [] => false
  | _ :: s' => contains p s'
  end.

(** [s.replace(old, new)] and [s.replace(old, new, count)] for a non-empty
    [old]: occurrences are replaced from the left and do not overlap.
    [skip] counts the characters of the occurrence just replaced that are
    still to be passed over; [count = None] means no limit. *)
Fixpoint replace_go (old new : str) (skip : nat) (count : option nat)
         (s : str) : str :=
  match s with
  | [] => []
  | c :: r =>
      match skip with
      | S k => replace_go old new k count r
      | O =>
          let allowed := match count with Some O => false | _ => true end in
          if allowed && starts_with old s
          then new ++ replace_go old new (Nat.pred (List.length old))
                                 (option_map Nat.pred count) r
          else c :: replace_go old new O count r
      end
  end.

Definition str_replace (old new s : str) : str :=
  replace_go old new O None s.

Definition str_replace_n (old new : str) (count : nat) (s : str) : str :=
  replace_go old new O (Some count) s.

(** [s.count(p)] for a non-empty [p]: non-overlapping occurrences. *)
Fixpoint count_go (p : str) (skip : nat) (s : str) : Z :=
  match s with
  | [] => 0%Z
  | _ :: r =>
      match skip with
      | S k => count_go p k r
      | O => if starts_with p s
             then (1 + count_go p (Nat.pred (List.length p)) r)%Z
             else count_go p O r
      end
  end.

Definition str_count (p s : str) : Z := count_go p O s.

(** Slices [s[a:b]], [s[:a]] and [s[b:]] for in-range indices
    (Python clips out-of-range ones, and so do [firstn] and [skipn]). *)
Definition slice (s : str) (a b : nat) : str := firstn (b - a) (skipn a s).

Fixpoint drop_while (f : char -> bool) (s : str) : str :=
  match s with
  | [] => []
  | c :: r => if f c then drop_while f r else s
  end.

(** ** Regular expressions

    A pattern of the source is represented by its matcher at a position:
    [m s = Some n] when the pattern matches a prefix of [s], [n] being the
    length of the match the backtracking engine selects; [None] when it
    does not match at the head of [s].  No pattern of the source matches
    the empty string. *)
Definition matcher := str -> option nat.

(** [re.sub(pattern, repl, s)] for a constant replacement. *)
Fixpoint sub_go (m : matcher) (repl : str) (skip : nat) (s : str) : str :=
  match s with
  | [] => []
  | c :: r =>
      match skip with
      | S k => sub_go m repl k r
      | O =>
          match m s with
          | Some (S k) => repl ++ sub_go m repl k r
          | _ => c :: sub_go m repl O r
          end
      end
  end.

Definition re_sub (m : matcher) (repl s : str) : str := sub_go m repl O s.

(** [pattern.finditer(s)]: the spans [(start, end)] of the matches, left to
    right; [pos] is the index of the head of [s] in the subject. *)
Fixpoint spans_go (m : matcher) (skip pos : nat) (s : str)
  : list (nat * nat) :=
  match s with
  | [] => []
  | _ :: r =>
      match skip with
      | S k => spans_go m k (S pos) r
      | O =>
          match m s with
          | Some (S k) => (pos, pos + S k) :: spans_go m k (S pos) r
          | _ => spans_go m O (S pos) r
          end
      end
  end.

Definition re_finditer (m : matcher) (s : str) : list (nat * nat) :=
  spans_go m O O s.

(** [pattern.findall(s)] for a pattern without groups. *)
Definition re_findall (m : matcher) (s : str) : list str :=
  List.map (fun se => slice s (fst se) (snd se)) (re_finditer m s).

(** [re.search(pattern, s)] as a truth value. *)
Fixpoint re_search (m : matcher) (s : str) : bool :=
  match m s with
  | Some _ => true
  | None => match s with [] => false | _ :: r => re_search m r end
  end.

(** Length of the longest prefix of [s] whose characters satisfy [f]. *)
Fixpoint run_length (f : char -> bool) (s : str) : nat :=
  match s with
  | [] => O
  | c :: r => if f c then S (run_length f r) else O
  end.

(** ** The Unicode character database *)

Class Unicode := {
  (** full lowercase mapping of one code point (one to three code points) *)
  to_lower_full : char -> list char;
  (** [str.isalnum]; the class [\w] of [re] is [isalnum] or underscore *)
  is_alnum : char -> bool;
  (** [str.isspace], which is also the class [\s] of [re] *)
  is_space : char -> bool;
  (** [str.isdecimal], which is the class [\d] of [re] *)
  is_decimal : char -> bool;
  (** the properties Cased and Case_Ignorable, used by [str.lower] for
      the capital sigma *)
  is_cased : char -> bool;
  is_case_ignorable : char -> bool;
  (** [ignorecase_eq p c]: under [re.IGNORECASE], the pattern character [p]
      matches the subject character [c] *)
  ignorecase_eq : char -> char -> bool
}.

Section PyStr.
Context {U : Unicode}.

Definition is_word (c : char) : bool := is_alnum c || char_eqb c 95%N.

Fixpoint skip_ignorable (s : str) : option char :=
  match s with
  | [] => None
  | c :: r => if is_case_ignorable c then skip_ignorable r else Some c
  end.

(** CPython's [handle_capital_sigma]: U+03A3 is lowered to the final
    sigma U+03C2 when it follows a cased letter and is not followed by
    one (case-ignorable characters skipped), to U+03C3 otherwise. *)
Definition final_sigma (before_rev after : str) : bool :=
  match skip_ignorable before_rev with
  | Some c =>
      is_cased c &&
      match skip_ignorable after with
      | None => true
      | Some d => negb (is_cased d)
      end
  | None => false
  end.

Fixpoint lower_go (before_rev s : str) : str :=
  match s with
  | [] => []
  | c :: r =>
      (if char_eqb c 931%N
       then [if final_sigma before_rev r then 962%N else 963%N]
       else to_lower_full c)
      ++ lower_go (c :: before_rev) r
  end.

(** [s.lower()] *)
Definition str_lower (s : str) : str := lower_go [] s.

(** [s.strip()] *)
Definition str_strip (s : str) : str :=
  rev (drop_while is_space (rev (drop_while is_space s))).

(** [len(s.split())]: the number of maximal runs of non-whitespace. *)
Fixpoint count_tokens (in_token : bool) (s : str) : Z :=
  match s with
  | [] => 0%Z
  | c :: r =>
      if is_space c then count_tokens false r
      else if in_token then count_tokens true r
      else (1 + count_tokens true r)%Z
  end.

Definition split_len (s : str) : Z := count_tokens false s.

(** *** The patterns of the source *)

(** [\S+] at the head of [s]: the longest non-empty run of non-whitespace *)
Definition non_space_run (s : str) : option nat :=
  match run_length (fun c => negb (is_space c)) s with
  | O => None
  | n => Some n
  end.

(** [https?://\S+|www\.\S+] *)
Definition url_pattern : matcher := fun s =>
  let after (prefix : str) : option nat :=
    if starts_with prefix s
    then option_map (fun n => (List.length prefix + n)%nat)
                    (non_space_run (skipn (List.length prefix) s))
    else None in
  match after (lit "https://") with
  | Some n => Some n
  | None =>
      match after (lit "http://") with
      | Some n => Some n
      | None => after (lit "www.")
      end
  end.

(** [[^\w\s]] *)
Definition not_word_or_space : matcher := fun s =>
  match s with
  | c :: _ => if is_word c || is_space c then None else Some 1%nat
  | [] => None
  end.

(** [\s+] *)
Definition space_run : matcher := fun s =>
  match run_length is_space s with
  | O => None
  | n => Some n
  end.

(** [\d{3,}] *)
Definition num_pattern : matcher := fun s =>
  let n := run_length is_decimal s in
  if (3 <=? n)%nat then Some n else None.

(** [[\u0900-\u097F]]: one character of the Devanagari block *)
Definition devanagari : matcher := fun s =>
  match s with
  | c :: _ => if (2304 <=? c)%N && (c <=? 2431)%N then Some 1%nat else None
  | [] => None
  end.

(** [re.compile(re.escape(tok), flags=re.IGNORECASE)] for a literal [tok] *)
Fixpoint ci_prefix (tok s : str) : bool :=
  match tok, s with
  | [], _ => true
  | _ :: _, [] => false
  | p :: tok', c :: s' => ignorecase_eq p c && ci_prefix tok' s'
  end.

Definition literal_ignorecase (tok : str) : matcher := fun s =>
  if ci_prefix tok s then Some (List.length tok) else None.

(** ** [clean_text]

    The argument is [None] for Python's [None] and [Some s] for a string
    (the function tests [not input_text], which holds for both [None] and
    the empty string). *)
Definition clean_text (input_text : option str) : str :=
  match input_text with
  | None => []
  | Some input =>
      if falsy input then []
      else
        let text := str_lower input in
        let text := re_sub url_pattern [] text in
        let text := re_sub not_word_or_space [] text in
        let text := str_replace (lit "_") (lit " ") text in
        let text := str_strip (re_sub space_run (lit " ") text) in
        text
  end.

End PyStr.

(** ** The ASCII fragment of the character database

    Exact for code points below 128; other code points are left alone
    (no case, no class).  It is used to run the code on ASCII input. *)

Definition ascii_upper (c : char) : bool := (65 <=? c)%N && (c <=? 90)%N.
Definition ascii_lower_letter (c : char) : bool :=
  (97 <=? c)%N && (c <=? 122)%N.
Definition ascii_digit (c : char) : bool := (48 <=? c)%N && (c <=? 57)%N.
Definition ascii_to_lower (c : char) : char :=
  if ascii_upper c then (c + 32)%N else c.
Definition ascii_alnum (c : char) : bool :=
  ascii_digit c || ascii_upper c || ascii_lower_letter c.
Definition ascii_space (c : char) : bool :=
  ((9 <=? c)%N && (c <=? 13)%N) || ((28 <=? c)%N && (c <=? 32)%N).
Definition ascii_case_ignorable (c : char) : bool :=
  existsb (N.eqb c) [39; 46; 58; 94; 96]%N.

#[export] Instance ascii_unicode : Unicode := {
  to_lower_full := fun c => [ascii_to_lower c];
  is_alnum := ascii_alnum;
  is_space := ascii_space;
  is_decimal := ascii_digit;
  is_cased := fun c => ascii_upper c || ascii_lower_letter c;
  is_case_ignorable := ascii_case_ignorable;
  ignorecase_eq := fun p c => N.eqb (ascii_to_lower p) (ascii_to_lower c)
}.

(** What the proofs below use of the character database.  Each field is a
    fact of the Unicode tables CPython ships. *)
Class UnicodeLaws (U : Unicode) : Prop := {
  (** on ASCII the tables are the familiar ones *)
  lower_ascii : forall c, (c < 128)%N -> to_lower_full c = [ascii_to_lower c];
  alnum_ascii : forall c, (c < 128)%N -> is_alnum c = ascii_alnum c;
  space_ascii : forall c, (c < 128)%N -> is_space c = ascii_space c;
  (** lowercase mappings are stable: a code point produced by lowering is
      itself unchanged by lowering, and is never the capital sigma (which
      [str.lower] handles apart, so its table entry is not constrained) *)
  lower_stable : forall c d, c <> 931%N -> In d (to_lower_full c) ->
                             to_lower_full d = [d] /\ d <> 931%N;
  sigma_stable : to_lower_full 962%N = [962%N] /\
                 to_lower_full 963%N = [963%N]
}.

(** ** Exceptions

    A computation either returns a value or raises.  The only operations
    of the model that can raise are the external collaborators and
    [round] on a float that is not finite. *)
Inductive res (A : Type) : Type :=
| Ok (a : A)
| Raise.
Arguments Raise {A}.

Definition bind {A B} (x : res A) (f : A -> res B) : res B :=
  match x with
  | Ok a => f a
  | Raise => Raise
  end.

Notation "x <- e ;; k" := (bind e (fun x => k))
  (at level 61, e at next level, right associativity).

(** [try: body / except Exception: handler] *)
Definition try_except {A} (body handler : res A) : res A :=
  match body with
  | Ok a => Ok a
  | Raise => handler
  end.

(** ** [process_language] *)

Section Language.
Context {U : Unicode}.

(** [langdetect.detect] *)
Variable detect : str -> res str.
(** The module-level [translator]: [None] when googletrans is missing or
    its constructor failed; otherwise [translate text src] stands for
    [translator.translate(text, src=src, dest='en').text]. *)
Variable translator : option (str -> str -> res str).

(** the Marathi clue words of the source, as code points *)
Definition marathi_clues : list str :=
  [ [2310; 2361; 2375];
    [2344; 2366; 2361; 2368];
    [2354; 2379; 2325; 2344; 2366];
    [2350; 2381; 2361; 2339; 2332; 2375];
    [2350; 2354; 2366];
    [2340; 2369; 2350; 2381; 2361; 2366; 2354; 2366] ]%N.

(** The detection step: the value of [detected_lang] when the source
    reaches the comment "Only translate if ...". *)
Definition detect_language (text : str) : res str :=
  if negb (falsy text) && re_search devanagari text
  then
    let lower := str_lower text in
    if existsb (fun clue => contains clue lower) marathi_clues
    then Ok (lit "mr")
    else Ok (lit "hi")
  else try_except (detect text) (Ok (lit "unknown")).

(** The translation step for a given [detected_lang]. *)
Definition translate_step (text detected_lang : str) : res str :=
  if negb (falsy detected_lang)
     && negb (str_eqb (str_lower detected_lang) (lit "en"))
     && negb (str_eqb detected_lang (lit "unknown"))
  then
    try_except
      (match translator with
       | Some translate => translate text detected_lang
       | None => Ok text
       end)
      (Ok text)
  else Ok text.

(** The outer [try] of the source guards both steps; its handler keeps
    the value [detected_lang] had when the exception was raised, which is
    the initial "unknown" if the detection step raised and the detected
    code if the translation step did. *)
Definition process_language (text : str) : res (str * str) :=
  let unknown := lit "unknown" in
  match detect_language text with
  | Raise =>
      Ok (text, if falsy unknown then lit "unknown" else unknown)
  | Ok detected_lang =>
      match translate_step text detected_lang with
      | Raise =>
          Ok (text,
              if falsy detected_lang then lit "unknown" else detected_lang)
      | Ok analysis_text => Ok (analysis_text, detected_lang)
      end
  end.

(** ** [preprocessing_and_translation] *)

Definition critical_tokens : list str :=
  List.map lit
    [ "indefinitely"; "closed"; "government"; "lockdown"; "schools";
      "withdraw"; "withdraw money"; "urgent"; "urgently"; "emergency" ]%string.

(** [sorted(l, key=len, reverse=True)]: a stable sort, so that tokens of
    equal length keep their order in [l]. *)
Fixpoint insert_by_len (x : str) (l : list str) : list str :=
  match l with
  | [] => [x]
  | y :: l' =>
      if (List.length y <? List.length x)%nat
      then x :: l
      else y :: insert_by_len x l'
  end.

Definition sorted_by_len_desc (l : list str) : list str :=
  fold_left (fun acc x => insert_by_len x acc) l [].

(** decimal rendering of an index in an f-string *)
Definition str_of_nat (n : nat) : str :=
  lit (NilEmpty.string_of_uint (Nat.to_uint n)).

Definition num_key (i : nat) : str :=
  lit "__NUM" ++ str_of_nat i ++ lit "__".

Definition tok_key (i j : nat) : str :=
  lit "__TK" ++ str_of_nat i ++ lit "_" ++ str_of_nat j ++ lit "__".

(** A [dict] keeps its keys in insertion order; assigning to a key already
    present updates the value in place. *)
Definition dict := list (str * str).

Fixpoint dict_set (d : dict) (k v : str) : dict :=
  match d with
  | [] => [(k, v)]
  | (k', v') :: d' =>
      if str_eqb k' k then (k', v) :: d' else (k', v') :: dict_set d' k v
  end.

(** [for i, n in enumerate(nums)], from index [i] on *)
Fixpoint guard_nums (i : nat) (nums : list str) (st : dict * str)
  : dict * str :=
  match nums with
  | [] => st
  | n :: rest =>
      let '(placeholder_map, tmp) := st in
      let key := num_key i in
      guard_nums (S i) rest
                 (dict_set placeholder_map key n, str_replace_n n key 1 tmp)
  end.

(** [for j, m in enumerate(matches)], from index [j] on.  The spans were
    computed on [tmp] before the loop and are used as they are on the
    [tmp] each iteration rewrites. *)
Fixpoint guard_matches (i j : nat) (matches : list (nat * nat))
         (st : dict * str) : dict * str :=
  match matches with
  | [] => st
  | (m_start, m_end) :: rest =>
      let '(placeholder_map, tmp) := st in
      let key := tok_key i j in
      guard_matches i (S j) rest
        (dict_set placeholder_map key (slice tmp m_start m_end),
         firstn m_start tmp ++ key ++ skipn m_end tmp)
  end.

(** [for i, tok in enumerate(sorted(...))], from index [i] on *)
Fixpoint guard_tokens (i : nat) (toks : list str) (st : dict * str)
  : dict * str :=
  match toks with
  | [] => st
  | tok :: rest =>
      let matches := re_finditer (literal_ignorecase tok) (snd st) in
      guard_tokens (S i) rest (guard_matches i 0 matches st)
  end.

(** The guarding phase: the placeholder map and the guarded text. *)
Definition guard (raw_input : str) : dict * str :=
  let nums := re_findall num_pattern raw_input in
  let st := guard_nums 0 nums ([], raw_input) in
  guard_tokens 0 (sorted_by_len_desc critical_tokens) st.

(** The restoration phase: [for key, val in placeholder_map.items()]. *)
Definition restore (placeholder_map : dict) (translated_text : str) : str :=
  fold_left (fun text kv => str_replace (fst kv) (snd kv) text)
            placeholder_map translated_text.

Definition preprocessing_and_translation (raw_input : str) : str * str :=
  if falsy raw_input then ([], lit "unknown")
  else
    let '(placeholder_map, tmp) := guard raw_input in
    let '(translated_text, detected_lang) :=
      match process_language tmp with
      | Ok r => r
      | Raise => (tmp, lit "unknown")
      end in
    let translated_text := restore placeholder_map translated_text in
    (clean_text (Some translated_text), detected_lang).

End Language.

(** ** Python floats and integers *)

Definition float := spec_float.
Definition prec : Z := 53.
Definition emax : Z := 1024.

Definition fadd : float -> float -> float := SFadd prec emax.
Definition fsub : float -> float -> float := SFsub prec emax.
Definition fmul : float -> float -> float := SFmul prec emax.
Definition fdiv : float -> float -> float := SFdiv prec emax.
(** [x < y] and [x <= y]; both are false when an operand is a NaN *)
Definition flt (x y : float) : bool := SFltb x y.
Definition fle (x y : float) : bool := SFleb x y.

(** [float(z)], and the conversion of an [int] operand in mixed
    arithmetic: the nearest binary64 number, ties to even. *)
Definition float_of_int (z : Z) : float := binary_normalize prec emax z 0 false.

(** The decimal literal [n/d] of the source text, for [n] and [d] below
    [2^53]: the binary64 number nearest to the quotient, which is what the
    correctly rounded division of the two exact operands returns. *)
Definition dec (n d : Z) : float := fdiv (float_of_int n) (float_of_int d).

(** [a / b] on two [int]s (true division), for operands below [2^53]. *)
Definition int_truediv (a b : Z) : float :=
  fdiv (float_of_int a) (float_of_int b).

Definition f0_0 : float := S754_zero false.
Definition f1_0 : float := Eval vm_compute in float_of_int 1.
Definition f0_0001 : float := Eval vm_compute in dec 1 10000.
Definition f0_2 : float := Eval vm_compute in dec 2 10.
Definition f0_3 : float := Eval vm_compute in dec 3 10.
Definition f0_35 : float := Eval vm_compute in dec 35 100.
Definition f0_45 : float := Eval vm_compute in dec 45 100.
Definition f0_5 : float := Eval vm_compute in dec 5 10.
Definition f0_6 : float := Eval vm_compute in dec 6 10.
Definition f0_7 : float := Eval vm_compute in dec 7 10.
Definition f0_8 : float := Eval vm_compute in dec 8 10.
Definition f25_0 : float := Eval vm_compute in float_of_int 25.
Definition f50_0 : float := Eval vm_compute in float_of_int 50.

(** [min(a, b)] and [max(a, b)] of the builtins: the first argument is
    kept unless the second is strictly smaller (resp. larger). *)
Definition py_min (a b : float) : float := if flt b a then b else a.
Definition py_max (a b : float) : float := if flt a b then b else a.

(** The integer nearest to [m * 2^e], ties to the even one. *)
Definition round_half_even (m : positive) (e : Z) : Z :=
  match e with
  | Z0 => Zpos m
  | Zpos _ => Zpos m * 2 ^ e
  | Zneg p =>
      let d := (2 ^ Zpos p)%Z in
      let q := (Zpos m / d)%Z in
      let r := (Zpos m mod d)%Z in
      match (2 * r ?= d)%Z with
      | Lt => q
      | Gt => q + 1
      | Eq => if Z.even q then q else q + 1
      end
  end%Z.

(** [round(x)]: raises [ValueError] on a NaN and [OverflowError] on an
    infinity. *)
Definition py_round (x : float) : res Z :=
  match x with
  | S754_zero _ => Ok 0%Z
  | S754_finite s m e => Ok (cond_Zopp s (round_half_even m e))
  | S754_infinity _ | S754_nan => Raise
  end.

Section Scoring.
Context {U : Unicode}.

(** [any(k in lower for k in keys)] *)
Definition any_in (keys : list str) (lower : str) : bool :=
  existsb (fun k => contains k lower) keys.

(** ** [MisinformationDetector] *)

Definition default_suspicious_terms : list str :=
  List.map lit
    [ "false"; "hoax"; "conspiracy"; "hidden"; "coverup"; "fake"; "exposed";
      "lying"; "withdrawn"; "bank"; "account"; "whatsapp"; "scam"; "modi";
      "important"; "election"; "protest"; "results"; "tomorrow";
      "immediately"; "fraud"; "vote"; "scandal"; "corrupt"; "who"; "cure";
      "virus"; "pandemic"; "confirmed"; "officially"; "health" ]%string.

(** The attribute [suspicious_terms] is a [set]: each term once.  The
    loop of [score] adds up one number per term, so the order in which the
    set is traversed does not matter. *)
Record MisinformationDetector := {
  suspicious_terms : list str
}.

Definition MisinformationDetector_init (terms : option (list str))
  : MisinformationDetector :=
  {| suspicious_terms :=
       nodup (list_eq_dec N.eq_dec)
             (match terms with
              | None => default_suspicious_terms
              | Some l => l
              end) |}.

Definition sensational_markers : list str :=
  List.map lit
    [ "urgent"; "alert"; "shocking"; "you won't believe"; "just confirmed";
      "has just confirmed"; "breaking"; "important news"; "important" ]%string.

Definition financial_markers : list str :=
  List.map lit
    [ "withdrawn"; "bank"; "account"; "5000"; "rupees"; "whatsapp";
      "transfer" ]%string.

Definition score (self : MisinformationDetector) (text : str) : float :=
  if falsy text then f0_0
  else
    let tokens := split_len text in
    let lower := str_lower text in
    let count :=
      fold_left
        (fun count term =>
           if contains term lower then (count + str_count term lower)%Z
           else count)
        (suspicious_terms self) 0%Z in
    let boost := f0_0 in
    let boost :=
      if any_in sensational_markers lower then fadd boost f0_45 else boost in
    let boost :=
      if any_in financial_markers lower then fadd boost f0_35 else boost in
    let boost :=
      if (contains (lit "who") lower || contains (lit "government") lower
          || contains (lit "modi") lower)
         && any_in sensational_markers lower
      then fadd boost f0_2 else boost in
    let token_count := Z.max 1 tokens in
    let base := fdiv (float_of_int count) (float_of_int token_count) in
    let score := fadd base boost in
    py_max f0_0 (py_min f1_0 score).

(** ** [detect_sensationalism] *)

Definition sensational_terms : list str :=
  List.map lit
    [ "shocking"; "urgent"; "breaking"; "unbelievable"; "horrific";
      "shocker"; "alert"; "exclusive"; "must read"; "you won't believe";
      "hidden"; "hiding"; "important"; "important news"; "withdrawn";
      "bank"; "whatsapp"; "modi"; "protest"; "immediately";
      "fake news alert"; "crisis"; "emergency" ]%string.

Definition detect_sensationalism (text : str) : float :=
  if falsy text then f0_0
  else
    let text_lower := str_lower text in
    let score :=
      fold_left
        (fun score term =>
           if contains term text_lower then (score + 1)%Z else score)
        sensational_terms 0%Z in
    py_min f1_0
           (int_truediv score (Z.of_nat (List.length sensational_terms))).

(** ** [generate_preliminary_prediction] *)

Definition generate_preliminary_prediction
           (misinfo_score sensationalism_score : float) : str :=
  if flt f0_6 misinfo_score && flt f0_3 sensationalism_score
  then lit "Fake"
  else if flt misinfo_score f0_3 && flt sensationalism_score f0_3
  then lit "Real"
  else lit "Unclear".

(** ** [analyze_text] *)

Definition crisis_keywords : list str :=
  List.map lit
    [ "schools closed"; "lockdown"; "government mandate"; "withdraw money";
      "urgently"; "emergency"; "closed indefinitely"; "who"; "pandemic";
      "virus cure"; "virus"; "health"; "election results fake";
      "protest immediately"; "voting fraud"; "who cure";
      "pandemic virus" ]%string.

(** The sensitivity boost applied to the two raw scores. *)
Definition boost_scores (lower : str) (scores : float * float)
  : float * float :=
  let '(misinfo_score, sensationalism_score) := scores in
  if any_in crisis_keywords lower
  then
    let misinfo_score :=
      if flt misinfo_score f0_7
      then py_min f1_0 (fadd misinfo_score f0_5) else misinfo_score in
    let sensationalism_score :=
      if flt sensationalism_score f0_2
      then py_min f1_0 (fadd sensationalism_score f0_2)
      else sensationalism_score in
    (misinfo_score, sensationalism_score)
  else (misinfo_score, sensationalism_score).

(** The verdict [analyze_text] derives from the boosted scores. *)
Definition boosted_prediction (misinfo_score sensationalism_score : float)
  : str :=
  if flt f0_8 misinfo_score || flt f0_8 sensationalism_score
  then lit "Fake"
  else if flt misinfo_score f0_2 && flt sensationalism_score f0_2
  then lit "Real"
  else lit "Unclear".

Definition analyze_text (processed_text : str) : float * float * str :=
  let md := MisinformationDetector_init None in
  let misinfo_score := score md processed_text in
  let sensationalism_score := detect_sensationalism processed_text in
  let lower := str_lower processed_text in
  let '(misinfo_score, sensationalism_score) :=
    boost_scores lower (misinfo_score, sensationalism_score) in
  (misinfo_score, sensationalism_score,
   boosted_prediction misinfo_score sensationalism_score).

(** ** [query_google_fact_check] *)

Record FactCheckResult := {
  verdict : str;
  url : str;
  title : str
}.

Definition claim_false_result : FactCheckResult :=
  {| verdict := lit "False";
     url := lit "https://factcheck.google.com/claim-false";
     title := lit "Google Fact Check: Claim found to be false" |}.

Definition who_result : FactCheckResult :=
  {| verdict := lit "False";
     url := lit "https://www.who.int/news/factcheck-cure-hoax";
     title := lit
       "WHO Fact-check: No evidence for specific virus cure (Health Hoax)" |}.

Definition pib_result : FactCheckResult :=
  {| verdict := lit "False";
     url := lit "https://pib.gov.in/factcheck-govt-scheme-hoax";
     title := lit
       "PIB Fact Check: Government has not announced this scheme." |}.

Definition vaccine_result : FactCheckResult :=
  {| verdict := lit "Mixed";
     url := lit "https://example.com/factcheck-vaccine";
     title := lit "Fact-check: Mixed evidence on vaccine claim" |}.

(** [if cond: results.append(r)] *)
Definition append_if (cond : bool) (r : FactCheckResult)
           (results : list FactCheckResult) : list FactCheckResult :=
  if cond then results ++ [r] else results.

Definition query_google_fact_check (claim_text : str)
  : list FactCheckResult :=
  let results := [] in
  if falsy claim_text then results
  else
    let lower := str_lower claim_text in
    let results :=
      append_if
        (any_in (List.map lit ["fake"; "hoax"; "conspiracy"; "coverup";
                               "lying"; "exposed"]%string) lower)
        claim_false_result results in
    let results :=
      append_if
        (contains (lit "who") lower
         && any_in (List.map lit ["hiding"; "hidden"; "cure"; "virus";
                                  "pandemic"; "health";
                                  "confirmed"]%string) lower)
        who_result results in
    let results :=
      append_if
        (any_in (List.map lit ["government"; "modi"; "finance"; "subsidy";
                               "bank account"; "pension"]%string) lower)
        pib_result results in
    let results :=
      append_if
        (any_in (List.map lit ["vaccine"; "vaccination"]%string) lower)
        vaccine_result results in
    results.

(** ** [calculate_confidence_score] *)

(** The mapping of a final score to a verdict, written out twice in the
    source. *)
Definition verdict_of_score (final_score : Z) : str :=
  if (66 <=? final_score)%Z then lit "Fake"
  else if (final_score <=? 33)%Z then lit "Real"
  else lit "Unclear".

(** [[str(r.get('verdict', '')).lower() for r in api_results]] *)
Definition verdicts_of (api_results : list FactCheckResult) : list str :=
  List.map (fun r => str_lower (verdict r)) api_results.

Definition has_verdict (v : str) (verdicts : list str) : bool :=
  existsb (fun x => str_eqb x v) verdicts.

Definition calculate_confidence_score
           (misinfo_score : float) (api_results : list FactCheckResult)
  : res (Z * str) :=
  let internal := fmul misinfo_score f50_0 in
  match api_results with
  | [] =>
      if flt f0_7 misinfo_score
      then
        let span := py_max f0_0001 (fsub f1_0 f0_7) in
        r <- py_round
               (fadd (float_of_int 60)
                     (fmul (fdiv (fsub misinfo_score f0_7) span)
                           (float_of_int 20))) ;;
        let final_score := Z.min 80 (Z.max 60 r) in
        Ok (final_score, lit "Fake")
      else
        let external := f25_0 in
        r <- py_round (fadd internal external) ;;
        let final_score := Z.max 0 (Z.min 100 r) in
        Ok (final_score, verdict_of_score final_score)
  | _ :: _ =>
      let verdicts := verdicts_of api_results in
      let has_false := has_verdict (lit "false") verdicts in
      let has_true := has_verdict (lit "true") verdicts in
      let has_mixed := has_verdict (lit "mixed") verdicts in
      if has_false && negb has_true then Ok (95%Z, lit "Fake")
      else if has_true && negb has_false then Ok (95%Z, lit "Real")
      else if has_mixed && negb (has_false || has_true)
      then Ok (60%Z, lit "Unclear")
      else if has_false && has_true then Ok (60%Z, lit "Unclear")
      else
        let total := Z.of_nat (List.length api_results) in
        let false_count :=
          Z.of_nat
            (List.length
               (filter (fun r => str_eqb (str_lower (verdict r))
                                         (lit "false"))
                       api_results)) in
        let external := fmul (int_truediv false_count total) f50_0 in
        r <- py_round (fadd internal external) ;;
        let final_score := Z.max 0 (Z.min 100 r) in
        Ok (final_score, verdict_of_score final_score)
  end.

End Scoring.

(** ** Reading of the claims that compare the code with a formula *)

Section Claimed.
Context {U : Unicode}.

(** The fallback weighted formula of the fuser, as the specification words
    it: [round(clamp(misinfo*50 + (falseCount/total)*50, 0, 100))] with the
    verdict by the 66/33 thresholds. *)
Definition claimed_fallback (misinfo_score : float)
           (api_results : list FactCheckResult) : res (Z * str) :=
  let total := Z.of_nat (List.length api_results) in
  let false_count :=
    Z.of_nat
      (List.length
         (filter (fun r => str_eqb (verdict r) (lit "False")) api_results)) in
  let x := fadd (fmul misinfo_score f50_0)
                (fmul (int_truediv false_count total) f50_0) in
  r <- py_round (py_max f0_0 (py_min (float_of_int 100) x)) ;;
  Ok (r, verdict_of_score r).

End Claimed.

(** ** Auxiliary definitions used in the statements *)

(** The lists the simulator can return: each catalog entry present or
    not, in the order of the four rules. *)
Definition catalog_pick (b1 b2 b3 b4 : bool) : list FactCheckResult :=
  (if b1 then [claim_false_result] else [])
  ++ (if b2 then [who_result] else [])
  ++ (if b3 then [pib_result] else [])
  ++ (if b4 then [vaccine_result] else []).

Section Normal.
Context {U : Unicode}.

(** Characters [clean_text] lets through: the plain space, or a character
    that is alphanumeric, not whitespace and not the underscore. *)
Definition tidy_char (c : char) : Prop :=
  c = 32%N \/ (is_space c = false /\ is_alnum c = true /\ c <> 95%N).

(** Characters [str.lower] leaves alone. *)
Definition lowered (c : char) : Prop :=
  to_lower_full c = [c] /\ c <> 931%N.

(** No two adjacent whitespace characters; [prev] tells whether the
    character before [s] is whitespace. *)
Fixpoint ws_sep (prev : bool) (s : str) : bool :=
  match s with
  | [] => true
  | c :: r => if is_space c then negb prev && ws_sep true r
              else ws_sep false r
  end.

(** The shape of the output of [clean_text]. *)
Definition normal (s : str) : Prop :=
  Forall tidy_char s /\ Forall lowered s
  /\ ws_sep false s = true /\ str_strip s = s.

End Normal.

(** The exponent function and the validity test of binary64. *)
Abbreviation fexp := (SpecFloat.fexp 53 1024).
Abbreviation valid := (valid_binary 53 1024).

(** [small k x]: [x] is a valid binary64 number, zero or finite with an
    exponent of at most [k] (so that its magnitude is below
    [2^(k+53)]). *)
Definition small (k : Z) (x : spec_float) : Prop :=
  valid x = true /\
  match x with
  | S754_zero _ => True
  | S754_finite _ _ e => (e <= k)%Z
  | _ => False
  end.

(** ** [summarize_verified_facts] *)

(** [sep.join(l)] *)
Fixpoint str_join (sep : str) (l : list str) : str :=
  match l with
  | [] => []
  | [x] => x
  | x :: r => x ++ sep ++ str_join sep r
  end.

Definition no_external_summary : str :=
  lit ("No external fact-checks were found for this claim. "
       ++ "The analysis relies on internal signals which may indicate risk but external "
       ++ "corroboration is unavailable.").

Definition mixed_summary (cites : str) : str :=
  lit "Verification attempts show mixed evidence. Some sources ("
  ++ cites
  ++ lit (") provide partial or "
          ++ "conflicting information. While some safety data or context is available, the specific "
          ++ "claim lacks strong official confirmation, making the overall verdict unclear.").

Definition fake_summary (cites : str) : str :=
  lit "External fact-checks (e.g., "
  ++ cites
  ++ lit (") contradict the claim. Available evidence indicates "
          ++ "the claim is false or unsupported. Proceed with caution and rely on verified sources.").

Definition real_summary (cites : str) : str :=
  lit "External fact-checks (e.g., "
  ++ cites
  ++ lit (") support the claim or provide corroborating evidence. "
          ++ "The claim appears to be supported by available sources.").

Definition default_summary : str :=
  lit "The verification result is unclear based on available data.".

Section Explanation.
Context {U : Unicode}.

Definition summarize_verified_facts
           (api_results : list FactCheckResult) (final_verdict : str) : str :=
  match api_results with
  | [] => no_external_summary
  | _ :: _ =>
      let verdicts := verdicts_of api_results in
      let titles := List.map title api_results in
      let cites := str_join (lit ", ") (firstn 2 titles) in
      if str_eqb final_verdict (lit "Unclear")
         && has_verdict (lit "mixed") verdicts
      then mixed_summary cites
      else if str_eqb final_verdict (lit "Fake") then fake_summary cites
      else if str_eqb final_verdict (lit "Real") then real_summary cites
      else default_summary
  end.

(** ** [generate_multilingual_explanation] *)

(** [d.get(k, default)] *)
Fixpoint dict_get (d : dict) (k default : str) : str :=
  match d with
  | [] => default
  | (k', v) :: d' => if str_eqb k' k then v else dict_get d' k default
  end.

(** [translate_to] is the module-level [translator] as this function uses
    it: [translate_to text dest] stands for
    [translator.translate(text, dest=dest).text]. *)
Definition generate_multilingual_explanation
           (translate_to : option (str -> str -> res str))
           (english_summary : str) : dict :=
  let out := dict_set [] (lit "en") english_summary in
  match translate_to with
  | None =>
      let out := dict_set out (lit "hi") english_summary in
      let out := dict_set out (lit "mr") english_summary in
      out
  | Some translate =>
      let out :=
        match translate english_summary (lit "hi") with
        | Ok hi => dict_set out (lit "hi") hi
        | Raise => dict_set out (lit "hi") english_summary
        end in
      let out :=
        match translate english_summary (lit "mr") with
        | Ok mr => dict_set out (lit "mr") mr
        | Raise => dict_set out (lit "mr") english_summary
        end in
      out
  end.

(** ** [truthlens_app]

    The page is modelled by the values it computes and hands to the
    display calls; the display calls themselves are not modelled.  The
    translator object takes the text, an optional source language and the
    destination language. *)
Definition Translator := str -> option str -> str -> res str.

Record Report := {
  submitted_text : str;
  processed_text : str;
  detected_lang : str;
  misinfo_score : float;
  sensationalism_score : float;
  preliminary : str;
  api_results : list FactCheckResult;
  final_confidence : Z;
  final_verdict : str;
  english_summary : str;
  translations : dict;
  (** [translations.get("hi", "(translation unavailable)")] and the same
      for "mr", as the page writes them *)
  shown_hi : str;
  shown_mr : str
}.

Inductive Page :=
| Idle                       (* the button was not pressed *)
| NoInput                    (* [st.warning]: nothing to analyze *)
| Analysis (r : Report).

Definition truthlens_app (detect : str -> res str)
           (translator : option Translator)
           (raw_text : str) (analyze : bool) : res Page :=
  if analyze then
    let submitted_text := str_strip raw_text in
    if falsy submitted_text then Ok NoInput
    else
      let '(processed_text, detected_lang) :=
        preprocessing_and_translation
          detect
          (option_map (fun tr text src => tr text (Some src) (lit "en"))
                      translator)
          submitted_text in
      let '(misinfo_score, sensationalism_score, preliminary) :=
        analyze_text processed_text in
      let api_results := query_google_fact_check processed_text in
      fc <- calculate_confidence_score misinfo_score api_results ;;
      let '(final_confidence, final_verdict) := fc in
      let english_summary :=
        summarize_verified_facts api_results final_verdict in
      let translations :=
        generate_multilingual_explanation
          (option_map (fun tr text dest => tr text None dest) translator)
          english_summary in
      Ok (Analysis
            {| submitted_text := submitted_text;
               processed_text := processed_text;
               detected_lang := detected_lang;
               misinfo_score := misinfo_score;
               sensationalism_score := sensationalism_score;
               preliminary := preliminary;
               api_results := api_results;
               final_confidence := final_confidence;
               final_verdict := final_verdict;
               english_summary := english_summary;
               translations := translations;
               shown_hi := dict_get translations (lit "hi")
                                    (lit "(translation unavailable)");
               shown_mr := dict_get translations (lit "mr")
                                    (lit "(translation unavailable)") |})
  else Ok Idle.

End Explanation.

(** The conditions of the four rules of [query_google_fact_check], on the
    lowercased claim: the three rules that append a result with verdict
    "False", taken together, and the rule that appends the one with verdict
    "Mixed". *)
Definition refuting_rule (lower : str) : bool :=
  any_in (List.map lit ["fake"; "hoax"; "conspiracy"; "coverup";
                        "lying"; "exposed"]%string) lower
  || (contains (lit "who") lower
      && any_in (List.map lit ["hiding"; "hidden"; "cure"; "virus";
                               "pandemic"; "health";
                               "confirmed"]%string) lower)
  || any_in (List.map lit ["government"; "modi"; "finance"; "subsidy";
                           "bank account"; "pension"]%string) lower.

Definition vaccine_rule (lower : str) : bool :=
  any_in (List.map lit ["vaccine"; "vaccination"]%string) lower.

(** [", ".join(titles[:2])] for the titles of [api_results] *)
Definition cites_of (api_results : list FactCheckResult) : str :=
  str_join (lit ", ") (firstn 2 (List.map title api_results)).

(** A number that is not negative: a zero, a positive finite number or
    the positive infinity. *)
Definition nonneg (x : float) : Prop :=
  match x with
  | S754_zero _ | S754_finite false _ _ | S754_infinity false => True
  | _ => False
  end.

(** ** The guarded text as a sequence of items

    While the guard and the restoration run, the text is a sequence of
    plain characters and of placeholders; a placeholder stands for the
    piece of text it replaced. *)
Inductive item :=
| Ch (c : char)
| Key (k v : str).

Definition flat_item (x : item) : str :=
  match x with Ch c => [c] | Key k _ => k end.

Definition orig_item (x : item) : str :=
  match x with Ch c => [c] | Key _ v => v end.

(** the text with its placeholders, and the text they stand for *)
Definition flat (l : list item) : str := flat_map flat_item l.
Definition orig (l : list item) : str := flat_map orig_item l.

Definition entries (l : list item) : dict :=
  flat_map (fun x => match x with Ch _ => [] | Key k v => [(k, v)] end) l.

(** the placeholders of a run with at most 100 numbers and at most one
    match for each of the ten tokens *)
Definition key_universe : list str :=
  List.map num_key (seq 0 100)
  ++ List.map (fun i => tok_key i 0) (seq 0 10).

Definition wf_item (x : item) : Prop :=
  match x with
  | Ch c => c <> 95%N
  | Key k v => In k key_universe /\ ~ In 95%N v
  end.

(** Checks on the placeholders, evaluated once on [key_universe]. *)
Definition key_head (k : str) : bool :=
  match k with
  | a :: b :: c :: _ => N.eqb a 95 && N.eqb b 95 && negb (N.eqb c 95)
  | _ => false
  end.

Definition key_apart (k k' : str) : bool :=
  str_eqb k k' || negb (starts_with k k').

Definition key_interior (k k' : str) : bool :=
  forallb
    (fun j =>
       let x := skipn j k' in
       negb (starts_with k x)
       && (negb (starts_with x k) || str_eqb x [95; 95]%N
           || str_eqb x [95]%N))
    (seq 1 (List.length k' - 1)).

Definition key_tail (k : str) : bool :=
  let p := skipn 2 k in
  starts_with (lit "NUM") p
  || match drop_while (fun c => negb (N.eqb c 95)) p with
     | a :: c :: _ => N.eqb a 95 && negb (N.eqb c 95)
     | _ => false
     end.

Definition key_short_runs (k : str) : bool :=
  forallb
    (fun j =>
       existsb (N.eqb 95) (firstn 6 (skipn j k))
       && (run_length ascii_digit (skipn j k) <? 3)%nat
       && (run_length ascii_digit (skipn j k)
           <? List.length (skipn j k))%nat)
    (seq 0 (List.length k))
  && forallb (fun c => (c <? 128)%N) k.

Fixpoint nodupb (l : list str) : bool :=
  match l with
  | [] => true
  | x :: r => negb (existsb (str_eqb x) r) && nodupb r
  end.

(** What the round trip uses of the character database beyond
    [UnicodeLaws]: on ASCII, [\d] is [0-9], and under [re.IGNORECASE] two
    ASCII characters match when their lowercase forms are equal. *)
Class GuardLaws (U : Unicode) : Prop := {
  decimal_ascii : forall c, (c < 128)%N -> is_decimal c = ascii_digit c;
  ignorecase_ascii :
    forall p c, (p < 128)%N -> (c < 128)%N ->
                ignorecase_eq p c
                = N.eqb (ascii_to_lower p) (ascii_to_lower c)
}.

Section SingleMatches.
Context {U : Unicode}.

(** The loop over the tokens, checking on the way that each token has at
    most one match in the text at the time it is scanned for. *)
Fixpoint single_matches (i : nat) (toks : list str) (st : dict * str)
  : bool :=
  match toks with
  | [] => true
  | tok :: rest =>
      let matches := re_finditer (literal_ignorecase tok) (snd st) in
      (List.length matches <=? 1)%nat
      && single_matches (S i) rest (guard_matches i 0 matches st)
  end.

(** [guardable t]: the inputs on which the guard is shown to be undone
    by the restoration. *)
Definition guardable (t : str) : bool :=
  negb (existsb (N.eqb 95) t)
  && negb (contains (lit "NUM") t)
  && (List.length (re_findall num_pattern t) <=? 100)%nat
  && single_matches 0 (sorted_by_len_desc critical_tokens)
                    (guard_nums 0 (re_findall num_pattern t) ([], t)).

End SingleMatches.

Section Calm.
Context {U : Unicode}.

(** [calm s]: no run of three decimal digits starts in [s], whatever
    follows [s]. *)
Definition calm (s : str) : Prop :=
  forall a b z, s = a ++ b -> b <> [] ->
                (run_length is_decimal (b ++ z) < 3)%nat.

End Calm.

(** a character of a critical token: ASCII, and not matching the
    underscore *)
Definition token_char (p : char) : bool :=
  (p <? 128)%N && negb (N.eqb (ascii_to_lower p) 95).

(** the sum of a list of integers *)
Fixpoint list_sum_Z (l : list Z) : Z :=
  match l with
  | [] => 0%Z
  | x :: r => (x + list_sum_Z r)%Z
  end.

Section Quiet.
Context {U : Unicode}.

(** [quiet s]: no run of three decimal digits starts in [s]. *)
Definition quiet (s : str) : Prop :=
  forall a b, s = a ++ b -> b <> [] ->
              (run_length is_decimal b < 3)%nat.

(** [hidden tok s]: the token matches nowhere in [s]. *)
Definition hidden (tok s : str) : Prop :=
  forall a b, s = a ++ b -> ci_prefix tok b = false.

End Quiet.

(** * Lemmas and theorems *)

(** ** Order of binary64 numbers *)

Lemma flt_fle (x y : float) : flt x y = true -> fle x y = true.
Proof.
  unfold flt, fle, SFltb, SFleb.
  destruct (SFcompare x y) as [[ | | ]|]; congruence.
Qed.

Lemma flt_irrefl (x : float) : flt x x = false.
Proof.
  unfold flt, SFltb.
  destruct x as [s|s| |s m e]; simpl; try reflexivity.
  - destruct s; reflexivity.
  - destruct s; rewrite Z.compare_refl, Pos.compare_cont_refl; reflexivity.
Qed.

Ltac compare_cases :=
  repeat match goal with
         | |- context [Z.compare ?a ?b] =>
             destruct (Z.compare_spec a b); subst
         | H : context [Z.compare ?a ?b] |- _ =>
             destruct (Z.compare_spec a b); subst
         | |- context [Pos.compare_cont Eq ?a ?b] =>
             change (Pos.compare_cont Eq a b) with (Pos.compare a b);
             destruct (Pos.compare_spec a b); subst
         | H : context [Pos.compare_cont Eq ?a ?b] |- _ =>
             change (Pos.compare_cont Eq a b) with (Pos.compare a b) in H;
             destruct (Pos.compare_spec a b); subst
         end.

Lemma flt_trans (x y z : float) :
  flt x y = true -> flt y z = true -> flt x z = true.
Proof.
  unfold flt, SFltb.
  destruct x as [sx|sx| |sx mx ex], y as [sy|sy| |sy my ey],
           z as [sz|sz| |sz mz ez]; simpl;
    try discriminate; try reflexivity;
    try (destruct sx; simpl; try discriminate; try reflexivity);
    try (destruct sy; simpl; try discriminate; try reflexivity);
    try (destruct sz; simpl; try discriminate; try reflexivity);
    intros; compare_cases; simpl in *;
    try discriminate; try reflexivity; try lia.
Qed.

Lemma flt_asym (x y : float) : flt x y = true -> flt y x = false.
Proof.
  intros H. destruct (flt y x) eqn:E; [|reflexivity].
  pose proof (flt_trans _ _ _ H E) as T.
  rewrite flt_irrefl in T. discriminate.
Qed.

(** a number below [lo] is not above [hi] when [lo <= hi] *)
Lemma flt_gap (lo hi x : float) :
  flt hi lo = false -> flt x lo = true -> flt hi x = false.
Proof.
  intros G H. destruct (flt hi x) eqn:E; [|reflexivity].
  rewrite (flt_trans _ _ _ E H) in G. discriminate.
Qed.

Lemma fle_refl (x : float) : x <> S754_nan -> fle x x = true.
Proof.
  unfold fle, SFleb.
  destruct x as [s|s| |s m e]; simpl; try reflexivity; try congruence.
  - destruct s; reflexivity.
  - intros _. destruct s; rewrite Z.compare_refl, Pos.compare_cont_refl;
      reflexivity.
Qed.

Lemma fle_not_nan (x y : float) : fle x y = true -> y <> S754_nan.
Proof.
  unfold fle, SFleb. intros H ->.
  destruct x; simpl in H; discriminate.
Qed.

(** the clamp [max(0.0, min(1.0, x))] lands in the unit interval for every
    [x], NaN and infinities included *)
Lemma clamp_unit (x : float) :
  let r := py_max f0_0 (py_min f1_0 x) in
  fle f0_0 r = true /\ fle r f1_0 = true.
Proof.
  unfold py_max, py_min.
  destruct (flt x f1_0) eqn:E1.
  - destruct (flt f0_0 x) eqn:E0; simpl.
    + split; apply flt_fle; assumption.
    + split; reflexivity.
  - destruct (flt f0_0 f1_0) eqn:E0; simpl; split; reflexivity.
Qed.

Lemma py_min_unit (x : float) :
  fle f0_0 x = true ->
  let r := py_min f1_0 x in fle f0_0 r = true /\ fle r f1_0 = true.
Proof.
  intros H. unfold py_min. destruct (flt x f1_0) eqn:E; simpl.
  - split; [assumption | apply flt_fle; assumption].
  - split; reflexivity.
Qed.

(** ** The two scorers (claim C5) *)

Section ScorerBounds.
Context {U : Unicode}.

Lemma term_counter_range (lower : str) (terms : list str) (z : Z) :
  let n :=
    fold_left
      (fun score term => if contains term lower then (score + 1)%Z else score)
      terms z in
  (z <= n <= z + Z.of_nat (List.length terms))%Z.
Proof.
  revert z. induction terms as [|t terms IH]; intros z; simpl.
  - lia.
  - specialize (IH (if contains t lower then (z + 1)%Z else z)).
    simpl in IH. destruct (contains t lower); lia.
Qed.

Lemma ratio_of_23_nonneg (k : Z) :
  (0 <= k <= 23)%Z -> fle f0_0 (int_truediv k 23) = true.
Proof.
  intros Hk.
  assert (T : forallb (fun i => fle f0_0 (int_truediv (Z.of_nat i) 23))
                      (seq 0 24) = true) by (vm_compute; reflexivity).
  rewrite forallb_forall in T.
  specialize (T (Z.to_nat k)).
  rewrite Z2Nat.id in T by lia.
  apply T. apply in_seq. lia.
Qed.

End ScorerBounds.

Lemma scorers_bounds (U : Unicode)
      (self : MisinformationDetector) (text : str) :
  (fle f0_0 (score self text) = true /\ fle (score self text) f1_0 = true)
  /\ (fle f0_0 (detect_sensationalism text) = true
      /\ fle (detect_sensationalism text) f1_0 = true).
Proof.
  split.
  - unfold score. destruct (falsy text); [split; reflexivity|].
    apply clamp_unit.
  - unfold detect_sensationalism.
    destruct (falsy text); [split; reflexivity|].
    apply py_min_unit. apply ratio_of_23_nonneg.
    exact (term_counter_range (str_lower text) sensational_terms 0).
Qed.

(** C5.  For every detector and every input string (and every character
    database), [MisinformationDetector.score] and [detect_sensationalism]
    return a binary64 number between 0.0 and 1.0, both ends included, and
    both return exactly (positive) 0.0 on the empty string. *)
Theorem scorers_in_unit_interval (U : Unicode)
        (self : MisinformationDetector) (text : str) :
  (fle f0_0 (score self text) = true /\ fle (score self text) f1_0 = true)
  /\ (fle f0_0 (detect_sensationalism text) = true
      /\ fle (detect_sensationalism text) f1_0 = true)
  /\ score self [] = f0_0
  /\ detect_sensationalism [] = f0_0.
Proof.
  destruct (scorers_bounds U self text) as [A B].
  split; [exact A|]. split; [exact B|]. split; reflexivity.
Qed.

(** ** The two preliminary verdict policies (claim C7) *)

Lemma verdicts_distinct :
  lit "Fake" <> lit "Real" /\ lit "Fake" <> lit "Unclear"
  /\ lit "Real" <> lit "Unclear".
Proof. repeat split; vm_compute; discriminate. Qed.

Ltac abstract_verdicts :=
  destruct verdicts_distinct as (FR & FU & RU);
  generalize dependent (lit "Fake"); intros vF;
  generalize dependent (lit "Real"); intros vR;
  generalize dependent (lit "Unclear"); intros vU; intros.

Lemma boosted_prediction_spec (m s : float) :
  (boosted_prediction m s = lit "Fake"
   <-> flt f0_8 m = true \/ flt f0_8 s = true)
  /\ (boosted_prediction m s = lit "Real"
      <-> flt m f0_2 = true /\ flt s f0_2 = true)
  /\ (boosted_prediction m s = lit "Unclear"
      <-> ~ (flt f0_8 m = true \/ flt f0_8 s = true)
          /\ ~ (flt m f0_2 = true /\ flt s f0_2 = true)).
Proof.
  assert (G : flt f0_8 f0_2 = false) by reflexivity.
  pose proof (flt_gap f0_2 f0_8 m G) as Gm.
  pose proof (flt_gap f0_2 f0_8 s G) as Gs.
  unfold boosted_prediction. clear G.
  abstract_verdicts.
  destruct (flt f0_8 m), (flt f0_8 s), (flt m f0_2), (flt s f0_2); simpl;
    intuition congruence.
Qed.

Lemma plain_prediction_spec (m s : float) :
  (generate_preliminary_prediction m s = lit "Fake"
   <-> flt f0_6 m = true /\ flt f0_3 s = true)
  /\ (generate_preliminary_prediction m s = lit "Real"
      <-> flt m f0_3 = true /\ flt s f0_3 = true).
Proof.
  pose proof (flt_asym s f0_3) as As.
  unfold generate_preliminary_prediction.
  abstract_verdicts.
  destruct (flt f0_6 m), (flt f0_3 s), (flt m f0_3), (flt s f0_3); simpl;
    intuition congruence.
Qed.

(** C7.  The verdict [analyze_text] returns is "Fake" exactly when one of
    the two boosted scores it returns is above 0.80, "Real" exactly when
    both are below 0.20, and "Unclear" in the remaining case.  The plain
    policy [generate_preliminary_prediction] answers "Fake" exactly when
    misinfo > 0.6 and sensationalism > 0.3 and "Real" exactly when both are
    below 0.3; the two policies disagree on some pair of scores. *)
Theorem preliminary_verdict_policies (U : Unicode) :
  (forall text : str,
      let '(m, s, v) := analyze_text text in
      (v = lit "Fake" <-> flt f0_8 m = true \/ flt f0_8 s = true)
      /\ (v = lit "Real" <-> flt m f0_2 = true /\ flt s f0_2 = true)
      /\ (v = lit "Unclear"
          <-> ~ (flt f0_8 m = true \/ flt f0_8 s = true)
              /\ ~ (flt m f0_2 = true /\ flt s f0_2 = true)))
  /\ (forall m s : float,
         (generate_preliminary_prediction m s = lit "Fake"
          <-> flt f0_6 m = true /\ flt f0_3 s = true)
         /\ (generate_preliminary_prediction m s = lit "Real"
             <-> flt m f0_3 = true /\ flt s f0_3 = true))
  /\ (exists m s : float,
         boosted_prediction m s <> generate_preliminary_prediction m s).
Proof.
  split; [|split].
  - intros text. unfold analyze_text.
    destruct (boost_scores _ _) as [m s].
    apply boosted_prediction_spec.
  - apply plain_prediction_spec.
  - exists f0_7, f0_5. vm_compute. discriminate.
Qed.

(** ** The empty claim, end to end (claim C9) *)

(** C9.  On the empty string: [clean_text] returns the empty string (also
    on [None]); [analyze_text] returns the scores 0.0 and 0.0 with the
    verdict "Real"; [query_google_fact_check] returns no result; and
    [calculate_confidence_score 0.0 []] does not take the > 0.70 branch and
    returns confidence 25 with the verdict "Real", which is not
    "Unclear". *)
Theorem empty_input_end_to_end (U : Unicode) :
  clean_text (Some []) = []
  /\ clean_text None = []
  /\ analyze_text [] = (f0_0, f0_0, lit "Real")
  /\ query_google_fact_check [] = []
  /\ flt f0_7 f0_0 = false
  /\ calculate_confidence_score f0_0 (query_google_fact_check [])
     = Ok (25%Z, lit "Real")
  /\ lit "Real" <> lit "Unclear".
Proof.
  repeat split; try reflexivity.
  vm_compute. discriminate.
Qed.

(** ** [process_language] never raises (claim C4) *)

Section LanguageTotal.
Context {U : Unicode}.
Variable detect : str -> res str.
Variable translator : option (str -> str -> res str).

Lemma detect_language_total (text : str) :
  exists lang, detect_language detect text = Ok lang.
Proof.
  unfold detect_language.
  destruct (negb (falsy text) && re_search devanagari text).
  - destruct (existsb _ _); eexists; reflexivity.
  - destruct (detect text); simpl; eexists; reflexivity.
Qed.

Lemma translate_step_total (text lang : str) :
  exists t, translate_step translator text lang = Ok t.
Proof.
  unfold translate_step.
  destruct (_ && _); [|eexists; reflexivity].
  destruct translator as [tr|]; simpl; [|eexists; reflexivity].
  destruct (tr text lang); simpl; eexists; reflexivity.
Qed.

End LanguageTotal.

(** C4.  Whatever the character database, the detector and the translator
    do, [process_language] returns a pair [(analysis_text, lang)] and does
    not raise, the empty string included; [lang] is the code the detection
    step determined.  If the detector was consulted and raised, the pair
    is the input text with "unknown".  If the translator is missing, or is
    present and raises on this text, the returned text is the input
    text. *)
Theorem process_language_total
        (U : Unicode) (detect : str -> res str)
        (translator : option (str -> str -> res str)) (text : str) :
  exists analysis_text lang,
    process_language detect translator text = Ok (analysis_text, lang)
    /\ detect_language detect text = Ok lang
    /\ (negb (falsy text) && re_search devanagari text = false ->
        detect text = Raise ->
        analysis_text = text /\ lang = lit "unknown")
    /\ (translator = None -> analysis_text = text)
    /\ (forall translate,
           translator = Some translate -> translate text lang = Raise ->
           analysis_text = text).
Proof.
  destruct (detect_language_total detect text) as [lang Hl].
  destruct (translate_step_total translator text lang) as [t Ht].
  exists t, lang. unfold process_language. rewrite Hl, Ht.
  split; [reflexivity|]. split; [reflexivity|].
  unfold translate_step in Ht. unfold detect_language in Hl.
  split; [|split].
  - intros Hd Hr. rewrite Hd, Hr in Hl. simpl in Hl.
    injection Hl as <-. split; [|reflexivity].
    change (negb (str_eqb (lit "unknown") (lit "unknown"))) with false in Ht.
    rewrite andb_false_r in Ht. congruence.
  - intros ->. clear Hl. destruct (_ && _); simpl in Ht; congruence.
  - intros tr -> Hr. clear Hl. rewrite Hr in Ht.
    destruct (_ && _); simpl in Ht; congruence.
Qed.

(** ** Strings: basic facts *)

Lemma str_eqb_eq (a b : str) : str_eqb a b = true <-> a = b.
Proof.
  revert b. induction a as [|x a IH]; intros [|y b]; simpl;
    try (split; [discriminate|discriminate]); try tauto.
  unfold char_eqb. rewrite andb_true_iff, N.eqb_eq, IH.
  split; [intros [-> ->]; reflexivity | intros H; injection H; auto].
Qed.

Lemma str_eqb_refl (a : str) : str_eqb a a = true.
Proof. apply str_eqb_eq. reflexivity. Qed.

Lemma str_eqb_neq (a b : str) : str_eqb a b = false <-> a <> b.
Proof.
  rewrite <- str_eqb_eq. destruct (str_eqb a b); split; congruence.
Qed.

Section LowerAscii.
Context {U : Unicode} {L : UnicodeLaws U}.

Lemma lower_go_ascii (s before : str) :
  Forall (fun c => (c < 128)%N) s ->
  lower_go before s = List.map ascii_to_lower s.
Proof.
  intros H. revert before. induction H as [|c s Hc Hs IH]; intros before.
  - reflexivity.
  - simpl. unfold char_eqb.
    destruct (N.eqb_spec c 931) as [->|_]; [lia|].
    rewrite (@lower_ascii U L c Hc), IH. reflexivity.
Qed.

(** on ASCII text [str.lower] is the ASCII lowering *)
Lemma str_lower_ascii (s : str) :
  Forall (fun c => (c < 128)%N) s ->
  str_lower s = List.map ascii_to_lower s.
Proof. apply lower_go_ascii. Qed.

Lemma lower_False : str_lower (lit "False") = lit "false".
Proof.
  rewrite str_lower_ascii; [reflexivity|].
  repeat constructor.
Qed.

Lemma lower_Mixed : str_lower (lit "Mixed") = lit "mixed".
Proof.
  rewrite str_lower_ascii; [reflexivity|].
  repeat constructor.
Qed.

End LowerAscii.

(** ** The priority rules of the fuser (claims C1 and C10) *)

Section Fuser.
Context {U : Unicode}.

Lemma has_verdict_true_iff (v : str) (api_results : list FactCheckResult) :
  has_verdict v (verdicts_of api_results) = true
  <-> exists r, In r api_results /\ str_lower (verdict r) = v.
Proof.
  unfold has_verdict, verdicts_of. rewrite existsb_exists. split.
  - intros (x & Hx & E). apply in_map_iff in Hx as (r & <- & Hr).
    apply str_eqb_eq in E. eauto.
  - intros (r & Hr & E). exists (str_lower (verdict r)). split.
    + apply (in_map (fun r => str_lower (verdict r))). assumption.
    + apply str_eqb_eq. assumption.
Qed.

Lemma has_verdict_false_iff (v : str) (api_results : list FactCheckResult) :
  has_verdict v (verdicts_of api_results) = false
  <-> forall r, In r api_results -> str_lower (verdict r) <> v.
Proof.
  split.
  - intros H r Hr E.
    assert (T : has_verdict v (verdicts_of api_results) = true)
      by (apply has_verdict_true_iff; eauto).
    congruence.
  - intros H. destruct (has_verdict v (verdicts_of api_results)) eqn:E;
      [|reflexivity].
    apply has_verdict_true_iff in E as (r & Hr & E).
    exfalso. exact (H r Hr E).
Qed.

(** The first priority rule: some verdict reads "false" and none reads
    "true" (both after lowering). *)
Lemma false_priority (misinfo_score : float)
      (api_results : list FactCheckResult) :
  has_verdict (lit "false") (verdicts_of api_results) = true ->
  has_verdict (lit "true") (verdicts_of api_results) = false ->
  calculate_confidence_score misinfo_score api_results
  = Ok (95%Z, lit "Fake").
Proof.
  intros Hf Ht. unfold calculate_confidence_score.
  destruct api_results as [|r rs]; [discriminate Hf|].
  cbv zeta. rewrite Hf, Ht. reflexivity.
Qed.

(** The third priority rule: some verdict reads "mixed", none reads
    "false" or "true". *)
Lemma mixed_only (misinfo_score : float)
      (api_results : list FactCheckResult) :
  has_verdict (lit "false") (verdicts_of api_results) = false ->
  has_verdict (lit "true") (verdicts_of api_results) = false ->
  has_verdict (lit "mixed") (verdicts_of api_results) = true ->
  calculate_confidence_score misinfo_score api_results
  = Ok (60%Z, lit "Unclear").
Proof.
  intros Hf Ht Hm. unfold calculate_confidence_score.
  destruct api_results as [|r rs]; [discriminate Hm|].
  cbv zeta. rewrite Hf, Ht, Hm. reflexivity.
Qed.

End Fuser.

(** ** The ASCII tables satisfy the laws *)

#[export] Instance ascii_laws : UnicodeLaws ascii_unicode.
Proof.
  split; try reflexivity.
  - intros c d Hc [<-|[]]. simpl. unfold ascii_to_lower, ascii_upper.
    destruct ((65 <=? c)%N && (c <=? 90)%N) eqn:E.
    + apply andb_true_iff in E as [E1 E2].
      apply N.leb_le in E1. apply N.leb_le in E2.
      replace ((65 <=? c + 32)%N && (c + 32 <=? 90)%N) with false; [split; [reflexivity|lia]|].
      symmetry. apply andb_false_iff. right. apply N.leb_gt. lia.
    + rewrite E. split; [reflexivity|assumption].
  - split; reflexivity.
Qed.

(** C1 (as the code has it).  Whatever the misinformation score, a result
    list with at least one verdict "False" and no verdict reading "true"
    is settled by the first priority rule: the fuser returns confidence 95
    and the verdict "Fake".  Results with the verdict "Mixed" in the list
    do not change that, and the fallback weighted formula is not
    reached. *)
Theorem false_beats_mixed (U : Unicode) (L : UnicodeLaws U)
        (misinfo_score : float) (api_results : list FactCheckResult) :
  (exists r, In r api_results /\ verdict r = lit "False") ->
  (forall r, In r api_results -> str_lower (verdict r) <> lit "true") ->
  calculate_confidence_score misinfo_score api_results
  = Ok (95%Z, lit "Fake").
Proof.
  intros (r & Hr & E) Ht. apply false_priority.
  - apply has_verdict_true_iff. exists r. split; [assumption|].
    rewrite E. apply lower_False.
  - apply has_verdict_false_iff. assumption.
Qed.

Lemma false_beats_mixed_witness :
  let rs := query_google_fact_check (U := ascii_unicode)
                                    (lit "fake vaccine") in
  (exists r, In r rs /\ verdict r = lit "False")
  /\ (exists r, In r rs /\ verdict r = lit "Mixed")
  /\ (forall r, In r rs -> str_lower (verdict r) <> lit "true")
  /\ calculate_confidence_score f0_0 rs = Ok (95%Z, lit "Fake").
Proof.
  assert (H1 : exists r, In r [claim_false_result; vaccine_result]
                         /\ verdict r = lit "False")
    by (exists claim_false_result; split; [left|]; reflexivity).
  assert (H2 : forall r, In r [claim_false_result; vaccine_result] ->
                         str_lower (verdict r) <> lit "true")
    by (intros r [<-|[<-|[]]]; vm_compute; discriminate).
  split; [exact H1|]. split.
  - exists vaccine_result; split; [right; left|]; reflexivity.
  - split; [exact H2|].
    exact (@false_beats_mixed ascii_unicode ascii_laws f0_0 _ H1 H2).
Defined.

(** C1 as stated fails.  The claim "fake vaccine" yields one "False" and
    one "Mixed" result and no "True" one; the fuser answers (95, "Fake"),
    whereas the fallback weighted formula would give (25, "Real"). *)
Lemma fallback_claim_fails :
  let rs := query_google_fact_check (U := ascii_unicode)
                                    (lit "fake vaccine") in
  (exists r, In r rs /\ verdict r = lit "False")
  /\ (exists r, In r rs /\ verdict r = lit "Mixed")
  /\ (forall r, In r rs -> verdict r <> lit "True")
  /\ calculate_confidence_score f0_0 rs = Ok (95%Z, lit "Fake")
  /\ claimed_fallback f0_0 rs = Ok (25%Z, lit "Real")
  /\ calculate_confidence_score f0_0 rs <> claimed_fallback f0_0 rs.
Proof.
  split; [exists claim_false_result; split; [left|]; reflexivity|].
  split; [exists vaccine_result; split; [right; left|]; reflexivity|].
  split; [intros r [<-|[<-|[]]]; vm_compute; discriminate|].
  split; [reflexivity|]. split; [reflexivity|].
  vm_compute. discriminate.
Qed.

(** ** The simulator never answers "True" (claim C10) *)

Section Simulator.
Context {U : Unicode} {L : UnicodeLaws U}.

Lemma query_is_catalog_pick (text : str) :
  exists b1 b2 b3 b4, query_google_fact_check text = catalog_pick b1 b2 b3 b4.
Proof.
  unfold query_google_fact_check.
  destruct (falsy text); [exists false, false, false, false; reflexivity|].
  cbv zeta.
  match goal with
  | |- context [append_if ?c4 vaccine_result
                  (append_if ?c3 pib_result
                     (append_if ?c2 who_result
                        (append_if ?c1 claim_false_result []))) ] =>
      exists c1, c2, c3, c4;
      destruct c1, c2, c3, c4; reflexivity
  end.
Qed.

Lemma catalog_verdicts (b1 b2 b3 b4 : bool) (r : FactCheckResult) :
  In r (catalog_pick b1 b2 b3 b4) ->
  (verdict r = lit "False" /\ str_lower (verdict r) = lit "false")
  \/ (verdict r = lit "Mixed" /\ str_lower (verdict r) = lit "mixed").
Proof.
  unfold catalog_pick. intros H.
  repeat (apply in_app_or in H as [H|H]);
    [destruct b1|destruct b2|destruct b3|destruct b4];
    simpl in H; try contradiction; destruct H as [<-|[]];
    [left|left|left|right]; (split; [reflexivity|]);
    first [apply lower_False | apply lower_Mixed].
Qed.

End Simulator.

Lemma no_results_never_95_real (U : Unicode) (misinfo_score : float) :
  calculate_confidence_score misinfo_score [] <> Ok (95%Z, lit "Real").
Proof.
  unfold calculate_confidence_score. cbv zeta.
  destruct (flt f0_7 misinfo_score).
  - destruct (py_round _); simpl; [|discriminate].
    intros H. injection H as _ H. vm_compute in H. discriminate.
  - destruct (py_round _) as [r|]; simpl; [|discriminate].
    intros H. injection H as H1 H2. rewrite H1 in H2.
    vm_compute in H2. discriminate.
Qed.

(** C10.  For every input text the simulator returns some of its four
    catalog entries, in the order of its rules: at most four results, each
    with the verdict "False" or "Mixed" and never "True".  On such a list
    no verdict reads "true", so neither branch of the fuser that requires
    a true verdict (the (95, "Real") rule and the true-and-false
    contradiction rule) can be taken: the fuser never answers (95, "Real"),
    and on a non-empty list it answers (95, "Fake") or (60, "Unclear"). *)
Theorem simulator_never_true (U : Unicode) (L : UnicodeLaws U) (text : str) :
  let rs := query_google_fact_check text in
  (exists b1 b2 b3 b4, rs = catalog_pick b1 b2 b3 b4)
  /\ (List.length rs <= 4)%nat
  /\ (forall r, In r rs -> verdict r = lit "False" \/ verdict r = lit "Mixed")
  /\ (forall r, In r rs -> verdict r <> lit "True")
  /\ has_verdict (lit "true") (verdicts_of rs) = false
  /\ (forall m, calculate_confidence_score m rs <> Ok (95%Z, lit "Real"))
  /\ (forall m, rs <> [] ->
                calculate_confidence_score m rs = Ok (95%Z, lit "Fake")
                \/ calculate_confidence_score m rs = Ok (60%Z, lit "Unclear")).
Proof.
  intros rs. destruct (query_is_catalog_pick text) as (b1 & b2 & b3 & b4 & E).
  fold rs in E.
  assert (V : forall r, In r rs ->
      (verdict r = lit "False" /\ str_lower (verdict r) = lit "false")
      \/ (verdict r = lit "Mixed" /\ str_lower (verdict r) = lit "mixed")).
  { intros r Hr. rewrite E in Hr. eapply catalog_verdicts; eassumption. }
  assert (T : has_verdict (lit "true") (verdicts_of rs) = false).
  { apply has_verdict_false_iff. intros r Hr.
    destruct (V r Hr) as [[_ ->]|[_ ->]]; vm_compute; discriminate. }
  assert (D : forall m, rs <> [] ->
      calculate_confidence_score m rs = Ok (95%Z, lit "Fake")
      \/ calculate_confidence_score m rs = Ok (60%Z, lit "Unclear")).
  { intros m Hne.
    destruct (has_verdict (lit "false") (verdicts_of rs)) eqn:F.
    - left. apply false_priority; assumption.
    - right. apply mixed_only; try assumption.
      destruct rs as [|r rs']; [congruence|].
      apply has_verdict_true_iff. exists r. split; [left; reflexivity|].
      destruct (V r (or_introl eq_refl)) as [[_ Hf]|[_ Hm]]; [|exact Hm].
      exfalso. rewrite has_verdict_false_iff in F.
      exact (F r (or_introl eq_refl) Hf). }
  split; [exists b1, b2, b3, b4; exact E|].
  split; [rewrite E; destruct b1, b2, b3, b4; simpl; lia|].
  split; [intros r Hr; destruct (V r Hr) as [[-> _]|[-> _]]; auto|].
  split; [intros r Hr; destruct (V r Hr) as [[-> _]|[-> _]];
          vm_compute; discriminate|].
  split; [exact T|]. split; [|exact D].
  intros m. destruct rs as [|r rs'] eqn:Ers.
  - apply no_results_never_95_real.
  - rewrite <- Ers in *. destruct (D m) as [-> | ->].
    + rewrite Ers. discriminate.
    + vm_compute. discriminate.
    + vm_compute. discriminate.
Qed.

Lemma simulator_never_true_witness :
  let rs := query_google_fact_check (U := ascii_unicode)
              (lit "who says the vaccine cure is a hoax") in
  rs = [claim_false_result; who_result; vaccine_result]
  /\ (forall r, In r rs -> verdict r <> lit "True")
  /\ has_verdict (lit "true") (verdicts_of rs) = false
  /\ (forall m, calculate_confidence_score m rs <> Ok (95%Z, lit "Real")).
Proof.
  pose proof (@simulator_never_true ascii_unicode ascii_laws
                (lit "who says the vaccine cure is a hoax"))
    as (_ & _ & _ & H4 & H5 & H6 & _).
  split; [reflexivity|]. split; [exact H4|]. split; [exact H5|exact H6].
Defined.

(** ** [clean_text] is idempotent (claim C3) *)

Section SubFacts.
Variable m : matcher.
Variable repl : str.

Lemma sub_go_Forall (P : char -> Prop) (s : str) (k : nat) :
  Forall P repl -> Forall P s -> Forall P (sub_go m repl k s).
Proof.
  intros Hr Hs. revert k. induction Hs as [|c r Hc Hs IH]; intros k; simpl.
  - constructor.
  - destruct k as [|k]; [|apply IH].
    destruct (m (c :: r)) as [[|n]|].
    + constructor; [assumption|apply IH].
    + apply Forall_app. split; [assumption|apply IH].
    + constructor; [assumption|apply IH].
Qed.

(** a pattern that matches nowhere in [s] leaves [s] as it is *)
Lemma re_sub_no_match (P : char -> Prop) (s : str) :
  (forall c r, P c -> Forall P r -> m (c :: r) = None) ->
  Forall P s -> re_sub m repl s = s.
Proof.
  intros Hm Hs. unfold re_sub. induction Hs as [|c r Hc Hs IH]; simpl.
  - reflexivity.
  - rewrite (Hm c r Hc Hs), IH. reflexivity.
Qed.

End SubFacts.

Lemma replace_go_Forall (P : char -> Prop) (old new s : str)
      (k : nat) (count : option nat) :
  Forall P new -> Forall P s -> Forall P (replace_go old new k count s).
Proof.
  intros Hn Hs. revert k count.
  induction Hs as [|c r Hc Hs IH]; intros k count; simpl.
  - constructor.
  - destruct k as [|k]; [|apply IH].
    destruct (_ && _).
    + apply Forall_app. split; [assumption|apply IH].
    + constructor; [assumption|apply IH].
Qed.

Lemma starts_with_Forall (P : char -> Prop) (p s : str) :
  starts_with p s = true -> Forall P s -> Forall P p.
Proof.
  revert s. induction p as [|x p IH]; intros s H Hs; [constructor|].
  destruct s as [|y s]; [discriminate|]. simpl in H.
  apply andb_true_iff in H as [E H]. apply N.eqb_eq in E. subst y.
  inversion Hs; subst. constructor; [assumption|]. eapply IH; eassumption.
Qed.

Lemma drop_while_Forall (P : char -> Prop) (f : char -> bool) (s : str) :
  Forall P s -> Forall P (drop_while f s).
Proof.
  induction 1 as [|c r Hc Hs IH]; simpl; [constructor|].
  destruct (f c); [assumption|constructor; assumption].
Qed.

Lemma drop_while_suffix (f : char -> bool) (s : str) :
  exists a, s = a ++ drop_while f s.
Proof.
  induction s as [|c r [a IH]]; simpl.
  - exists []. reflexivity.
  - destruct (f c).
    + exists (c :: a). simpl. f_equal. assumption.
    + exists []. reflexivity.
Qed.

Lemma drop_while_head (f : char -> bool) (s : str) (c : char) (r : str) :
  drop_while f s = c :: r -> f c = false.
Proof.
  induction s as [|x s IH]; simpl; [discriminate|].
  destruct (f x) eqn:E; [assumption|].
  intros H. injection H as -> _. assumption.
Qed.

Lemma drop_while_fixed (f : char -> bool) (s : str) :
  match s with [] => True | c :: _ => f c = false end ->
  drop_while f s = s.
Proof.
  destruct s as [|c r]; simpl; [reflexivity|]. intros ->. reflexivity.
Qed.

Lemma drop_while_idem (f : char -> bool) (s : str) :
  drop_while f (drop_while f s) = drop_while f s.
Proof.
  apply drop_while_fixed. destruct (drop_while f s) as [|c r] eqn:E;
    [exact I|]. eapply drop_while_head. eassumption.
Qed.

Section CleanText.
Context {U : Unicode} {L : UnicodeLaws U}.

Lemma space_is_space : is_space 32%N = true.
Proof. rewrite (@space_ascii U L 32%N); [reflexivity|lia]. Qed.

Lemma lowered_space : lowered 32%N.
Proof.
  split; [|lia]. rewrite (@lower_ascii U L 32%N); [reflexivity|lia].
Qed.

Lemma not_tidy_punct (c : char) :
  c = 58%N \/ c = 46%N -> ~ tidy_char c.
Proof.
  intros Hc [E|(_ & A & _)]; [lia|].
  rewrite (@alnum_ascii U L c) in A by lia.
  destruct Hc as [-> | ->]; vm_compute in A; discriminate.
Qed.

(** *** [str.lower] *)

Lemma lower_go_lowered (s before : str) : Forall lowered (lower_go before s).
Proof.
  revert before. induction s as [|c r IH]; intros before; simpl.
  - constructor.
  - apply Forall_app. split; [|apply IH].
    unfold char_eqb. destruct (N.eqb_spec c 931) as [->|Hc].
    + constructor; [|constructor].
      destruct (@sigma_stable U L) as [S2 S3].
      destruct (final_sigma before r); (split; [assumption|lia]).
    + apply Forall_forall. intros d Hd.
      exact (@lower_stable U L c d Hc Hd).
Qed.

Lemma lower_go_fixed (u before : str) :
  Forall lowered u -> lower_go before u = u.
Proof.
  intros H. revert before.
  induction H as [|c r [Hc Hn] Hr IH]; intros before; simpl.
  - reflexivity.
  - unfold char_eqb. destruct (N.eqb_spec c 931) as [E|_]; [contradiction|].
    rewrite Hc, IH. reflexivity.
Qed.

(** *** [str.strip] *)

Lemma strip_Forall (P : char -> Prop) (s : str) :
  Forall P s -> Forall P (str_strip s).
Proof.
  intros H. unfold str_strip.
  apply Forall_rev, drop_while_Forall, Forall_rev, drop_while_Forall, H.
Qed.

Lemma ws_sep_weaken (p : bool) (s : str) :
  ws_sep p s = true -> ws_sep false s = true.
Proof.
  destruct s as [|c r]; simpl; [reflexivity|].
  destruct (is_space c); [|auto].
  rewrite andb_true_iff. intros [_ H]. exact H.
Qed.

Lemma ws_sep_app (p : bool) (a b : str) :
  ws_sep p (a ++ b) = true ->
  ws_sep p a = true /\ ws_sep false b = true.
Proof.
  revert p. induction a as [|c r IH]; intros p; simpl.
  - intros H. split; [reflexivity|]. eapply ws_sep_weaken; eassumption.
  - destruct (is_space c).
    + rewrite !andb_true_iff. intros [Hp H].
      destruct (IH _ H) as [H1 H2]. auto.
    + apply IH.
Qed.

Lemma drop_trailing_prefix (f : char -> bool) (s : str) :
  exists b, s = rev (drop_while f (rev s)) ++ b.
Proof.
  destruct (drop_while_suffix f (rev s)) as [a E].
  exists (rev a). rewrite <- rev_app_distr, <- E, rev_involutive.
  reflexivity.
Qed.

Lemma strip_ws_sep (s : str) :
  ws_sep false s = true -> ws_sep false (str_strip s) = true.
Proof.
  intros H. unfold str_strip.
  destruct (drop_while_suffix is_space s) as [a Ea].
  rewrite Ea in H. apply ws_sep_app in H as [_ H].
  destruct (drop_trailing_prefix is_space (drop_while is_space s)) as [b Eb].
  rewrite Eb in H. apply ws_sep_app in H as [H _]. exact H.
Qed.

Lemma strip_idem (s : str) : str_strip (str_strip s) = str_strip s.
Proof.
  unfold str_strip.
  set (d := drop_while is_space s).
  set (e := rev (drop_while is_space (rev d))).
  assert (He : drop_while is_space e = e).
  { apply drop_while_fixed. destruct e as [|c r] eqn:Ee; [exact I|].
    destruct (drop_trailing_prefix is_space d) as [b Eb].
    fold e in Eb. rewrite Ee in Eb. simpl in Eb.
    eapply (drop_while_head is_space s). fold d. exact Eb. }
  rewrite He. unfold e at 1. rewrite rev_involutive, drop_while_idem.
  reflexivity.
Qed.

(** *** [re.sub(r"\s+", " ", text)] *)

Lemma collapse_ws_sep_go (s : str) :
  ws_sep false (sub_go space_run [32%N] 0 s) = true
  /\ ws_sep true (sub_go space_run [32%N] (run_length is_space s) s) = true.
Proof.
  induction s as [|c r [IH0 IH1]]; [split; reflexivity|].
  split.
  - simpl. unfold space_run. simpl. destruct (is_space c) eqn:E.
    + simpl. rewrite space_is_space. simpl. exact IH1.
    + simpl. rewrite E. exact IH0.
  - simpl. destruct (is_space c) eqn:E.
    + exact IH1.
    + unfold space_run. simpl. rewrite E. simpl. rewrite E. exact IH0.
Qed.

Lemma collapse_ws_sep (s : str) :
  ws_sep false (re_sub space_run (lit " ") s) = true.
Proof. apply collapse_ws_sep_go. Qed.

Lemma collapse_chars (P : char -> Prop) (s : str) (k : nat) :
  Forall P s ->
  Forall (fun c => c = 32%N \/ (is_space c = false /\ P c))
         (sub_go space_run [32%N] k s).
Proof.
  intros H. revert k. induction H as [|c r Hc Hr IH]; intros k; simpl.
  - constructor.
  - destruct k as [|k]; [|apply IH].
    unfold space_run. simpl. destruct (is_space c) eqn:E.
    + simpl. constructor; [left; reflexivity|apply IH].
    + constructor; [right; auto|apply IH].
Qed.

Lemma tidy_space_is_32 (c : char) :
  tidy_char c -> is_space c = true -> c = 32%N.
Proof. intros [E|(A & _)] H; [assumption|congruence]. Qed.

Lemma collapse_fixed (u : str) (p : bool) :
  Forall tidy_char u -> ws_sep p u = true ->
  re_sub space_run (lit " ") u = u.
Proof.
  intros H. unfold re_sub. change (lit " ") with [32%N].
  revert p. induction H as [|c r Hc Hr IH]; intros p W; [reflexivity|].
  change (sub_go space_run [32%N] 0 (c :: r))
    with (match space_run (c :: r) with
          | Some (S k) => [32%N] ++ sub_go space_run [32%N] k r
          | _ => c :: sub_go space_run [32%N] 0 r
          end).
  unfold space_run at 1. cbn [run_length ws_sep] in *.
  destruct (is_space c) eqn:E.
  - apply andb_true_iff in W as [_ W].
    rewrite (tidy_space_is_32 Hc E).
    assert (R0 : run_length is_space r = 0%nat).
    { destruct r as [|d r']; [reflexivity|]. cbn [run_length ws_sep] in *.
      destruct (is_space d); [discriminate W|reflexivity]. }
    rewrite R0. cbn [app]. f_equal. exact (IH true W).
  - f_equal. exact (IH false W).
Qed.

(** *** [text.replace("_", " ")] *)

Lemma underscore_step (c : char) (r : str) :
  replace_go [95%N] [32%N] 0 None (c :: r)
  = (if N.eqb 95 c then 32%N else c) :: replace_go [95%N] [32%N] 0 None r.
Proof.
  cbn [replace_go starts_with List.length Nat.pred option_map].
  unfold char_eqb. destruct (N.eqb 95 c); reflexivity.
Qed.

Lemma underscore_chars (P : char -> Prop) (s : str) :
  Forall P s ->
  Forall (fun c => c = 32%N \/ (P c /\ c <> 95%N))
         (str_replace (lit "_") (lit " ") s).
Proof.
  unfold str_replace. change (lit "_") with [95%N].
  change (lit " ") with [32%N].
  induction 1 as [|c r Hc Hr IH]; [constructor|].
  rewrite underscore_step.
  destruct (N.eqb_spec 95 c) as [<-|Hn].
  - constructor; [left; reflexivity|exact IH].
  - constructor; [right; split; [assumption|congruence]|exact IH].
Qed.

Lemma underscore_fixed (u : str) :
  Forall tidy_char u -> str_replace (lit "_") (lit " ") u = u.
Proof.
  unfold str_replace. change (lit "_") with [95%N].
  change (lit " ") with [32%N].
  induction 1 as [|c r Hc Hr IH]; [reflexivity|].
  rewrite underscore_step.
  destruct (N.eqb_spec 95 c) as [<-|Hn].
  - exfalso. destruct Hc as [E|(_ & _ & E)]; [lia|congruence].
  - rewrite IH. reflexivity.
Qed.

(** *** [re.sub(r"[^\w\s]", "", text)] *)

Lemma punctuation_chars (P : char -> Prop) (s : str) :
  Forall P s ->
  Forall (fun c => (is_word c || is_space c = true) /\ P c)
         (re_sub not_word_or_space [] s).
Proof.
  unfold re_sub. induction 1 as [|c r Hc Hr IH]; simpl; [constructor|].
  destruct (is_word c || is_space c) eqn:E; simpl.
  - constructor; [auto|exact IH].
  - exact IH.
Qed.

Lemma punctuation_fixed (u : str) :
  Forall tidy_char u -> re_sub not_word_or_space [] u = u.
Proof.
  apply re_sub_no_match. intros c r Hc _. simpl.
  destruct Hc as [->|(_ & A & _)].
  - rewrite space_is_space, orb_true_r. reflexivity.
  - unfold is_word. rewrite A. reflexivity.
Qed.

(** *** [re.sub(url_pattern, "", text)] *)

Lemma url_fixed (u : str) :
  Forall tidy_char u -> re_sub url_pattern [] u = u.
Proof.
  apply re_sub_no_match. intros c r Hc Hr.
  assert (Hs : Forall tidy_char (c :: r)) by (constructor; assumption).
  assert (N : forall p, In 58%N p \/ In 46%N p ->
                        starts_with p (c :: r) = false).
  { intros p Hp. destruct (starts_with p (c :: r)) eqn:E; [|reflexivity].
    pose proof (@starts_with_Forall tidy_char p (c :: r) E Hs) as Fp.
    rewrite Forall_forall in Fp. exfalso.
    destruct Hp as [Hp|Hp]; apply Fp in Hp;
      revert Hp; apply not_tidy_punct; auto. }
  unfold url_pattern.
  rewrite (N (lit "https://")) by (left; vm_compute; tauto).
  rewrite (N (lit "http://")) by (left; vm_compute; tauto).
  rewrite (N (lit "www.")) by (right; vm_compute; tauto).
  reflexivity.
Qed.

(** *** The two passes *)

Lemma clean_text_normal (t : str) : normal (clean_text (Some t)).
Proof.
  unfold clean_text. destruct (falsy t).
  { repeat split; constructor. }
  cbv zeta.
  set (t1 := str_lower t).
  set (t2 := re_sub url_pattern [] t1).
  set (t3 := re_sub not_word_or_space [] t2).
  set (t4 := str_replace (lit "_") (lit " ") t3).
  set (t5 := re_sub space_run (lit " ") t4).
  assert (L1 : Forall lowered t1) by apply lower_go_lowered.
  assert (L2 : Forall lowered t2)
    by (apply sub_go_Forall; [constructor|exact L1]).
  assert (L3 : Forall (fun c => (is_word c || is_space c = true)
                                /\ lowered c) t3)
    by (apply punctuation_chars; exact L2).
  pose proof (underscore_chars L3) as L4. fold t4 in L4.
  pose proof (collapse_chars 0 L4) as L5.
  change (sub_go space_run [32%N] 0 t4) with t5 in L5.
  assert (T5 : Forall tidy_char t5 /\ Forall lowered t5).
  { rewrite Forall_forall in L5. split; apply Forall_forall; intros c Hc;
      destruct (L5 c Hc) as [->|(S & [->|((W & Lc) & N)])].
    - left; reflexivity.
    - left; reflexivity.
    - right. rewrite S, orb_false_r in W. unfold is_word in W.
      apply orb_true_iff in W as [W|W]; [auto|].
      apply N.eqb_eq in W. contradiction.
    - apply lowered_space.
    - apply lowered_space.
    - exact Lc. }
  destruct T5 as [T5 L5'].
  split; [apply strip_Forall; exact T5|].
  split; [apply strip_Forall; exact L5'|].
  split; [apply strip_ws_sep, collapse_ws_sep|apply strip_idem].
Qed.

Lemma clean_text_fixes_normal (u : str) :
  normal u -> clean_text (Some u) = u.
Proof.
  intros (T & Lw & W & S). unfold clean_text.
  destruct (falsy u) eqn:F; [destruct u; [reflexivity|discriminate]|].
  cbv zeta. unfold str_lower. rewrite (lower_go_fixed [] Lw).
  rewrite (url_fixed T), (punctuation_fixed T), (underscore_fixed T).
  rewrite (@collapse_fixed u false T W). exact S.
Qed.

End CleanText.

(** C3.  [clean_text] is idempotent: cleaning the cleaned text returns it
    unchanged, for every string and for [None]; and [clean_text] of the
    empty string or of [None] is the empty string. *)
Theorem clean_text_idempotent (U : Unicode) (L : UnicodeLaws U)
        (t : option str) :
  clean_text (Some (clean_text t)) = clean_text t
  /\ clean_text None = []
  /\ clean_text (Some []) = [].
Proof.
  split; [|split; reflexivity].
  destruct t as [t|]; [|reflexivity].
  apply clean_text_fixes_normal, clean_text_normal.
Qed.

Lemma clean_text_idempotent_witness :
  let t := Some (lit "SHOCKING news!!! Read_this  www.bad.url/x  NOW ") in
  clean_text (U := ascii_unicode) t = lit "shocking news read this now"
  /\ clean_text (U := ascii_unicode) (Some (clean_text t)) = clean_text t.
Proof.
  split; [reflexivity|].
  exact (proj1 (@clean_text_idempotent ascii_unicode ascii_laws _)).
Defined.

(** ** Rounding to binary64

    What the proofs of C6 and C8 need of IEEE-754 arithmetic, derived from
    the definitions of [SpecFloat]: the rounded result of an operation is
    a valid number, it is not below a representable number the exact
    result exceeds, and its exponent is bounded by that of the exact
    result. *)

Section Binary64.
Local Open Scope Z_scope.
Local Unset Implicit Arguments.

Lemma digits2_pos_bounds (p : positive) :
  2 ^ (Zpos (digits2_pos p) - 1) <= Zpos p < 2 ^ Zpos (digits2_pos p).
Proof.
  induction p as [p IH|p IH|]; cbn [digits2_pos].
  - rewrite Pos2Z.inj_succ.
    replace (Z.succ (Zpos (digits2_pos p)) - 1)
      with (Z.succ (Zpos (digits2_pos p) - 1)) by lia.
    rewrite !Z.pow_succ_r by lia. lia.
  - rewrite Pos2Z.inj_succ.
    replace (Z.succ (Zpos (digits2_pos p)) - 1)
      with (Z.succ (Zpos (digits2_pos p) - 1)) by lia.
    rewrite !Z.pow_succ_r by lia. lia.
  - simpl. lia.
Qed.

(** [Zdigits2 n] is the number of binary digits of [n >= 0] *)
Lemma Zdigits2_bounds (n : Z) :
  0 < n -> 0 < Zdigits2 n /\ 2 ^ (Zdigits2 n - 1) <= n < 2 ^ Zdigits2 n.
Proof.
  destruct n as [|p|p]; try lia. intros _. simpl.
  split; [lia|apply digits2_pos_bounds].
Qed.

Lemma Zdigits2_nonneg (n : Z) : 0 <= Zdigits2 n.
Proof. destruct n; simpl; lia. Qed.

Lemma Zdigits2_le (n k : Z) : 0 <= k -> 0 <= n < 2 ^ k -> Zdigits2 n <= k.
Proof.
  intros Hk [H0 H]. destruct (Z.eq_dec n 0) as [->|Hn]; [simpl; lia|].
  destruct (Zdigits2_bounds n) as (Hd & Hl & _); [lia|].
  destruct (Z_le_gt_dec (Zdigits2 n) k) as [|G]; [assumption|exfalso].
  assert (2 ^ k <= 2 ^ (Zdigits2 n - 1)) by (apply Z.pow_le_mono_r; lia).
  lia.
Qed.

Lemma Zdigits2_ge (n k : Z) : 0 <= k -> 2 ^ k <= n -> k + 1 <= Zdigits2 n.
Proof.
  intros Hk H.
  assert (0 < 2 ^ k) by (apply Z.pow_pos_nonneg; lia).
  destruct (Zdigits2_bounds n) as (Hd & _ & Hu); [lia|].
  destruct (Z_le_gt_dec (k + 1) (Zdigits2 n)) as [|G]; [assumption|exfalso].
  assert (2 ^ Zdigits2 n <= 2 ^ k) by (apply Z.pow_le_mono_r; lia).
  lia.
Qed.

Lemma Zdigits2_mono (a b : Z) : 0 <= a <= b -> Zdigits2 a <= Zdigits2 b.
Proof.
  intros [Ha Hab]. destruct (Z.eq_dec b 0) as [->|Hb].
  - replace a with 0 by lia. lia.
  - destruct (Zdigits2_bounds b) as (Hd & _ & Hu); [lia|].
    apply Zdigits2_le; lia.
Qed.

(** digits of a quotient by a power of two *)
Lemma Zdigits2_div_pow2 (m n : Z) :
  0 <= m -> 0 <= n ->
  Zdigits2 (m / 2 ^ n) = Z.max 0 (Zdigits2 m - n).
Proof.
  intros Hm Hn.
  assert (P : 0 < 2 ^ n) by (apply Z.pow_pos_nonneg; lia).
  destruct (Z.eq_dec m 0) as [->|Hm0].
  { rewrite Z.div_0_l by lia. simpl. lia. }
  destruct (Zdigits2_bounds m) as (Hd & Hl & Hu); [lia|].
  destruct (Z_le_gt_dec (Zdigits2 m) n) as [Hs|Hs].
  - rewrite Z.div_small; [simpl; lia|]. split; [lia|].
    assert (2 ^ Zdigits2 m <= 2 ^ n) by (apply Z.pow_le_mono_r; lia). lia.
  - assert (L : 2 ^ (Zdigits2 m - n - 1) <= m / 2 ^ n).
    { apply Z.div_le_lower_bound; [lia|].
      rewrite <- Z.pow_add_r by lia.
      replace (n + (Zdigits2 m - n - 1)) with (Zdigits2 m - 1) by lia. lia. }
    assert (R : m / 2 ^ n < 2 ^ (Zdigits2 m - n)).
    { apply Z.div_lt_upper_bound; [lia|].
      rewrite <- Z.pow_add_r by lia.
      replace (n + (Zdigits2 m - n)) with (Zdigits2 m) by lia. lia. }
    assert (A : Zdigits2 (m / 2 ^ n) <= Zdigits2 m - n).
    { apply Zdigits2_le; [lia|]. split; [|exact R].
      apply Z.div_pos; lia. }
    assert (B : Zdigits2 m - n - 1 + 1 <= Zdigits2 (m / 2 ^ n))
      by (apply Zdigits2_ge; [lia|exact L]).
    lia.
Qed.

Lemma Zdigits2_mul_pow2 (m n : Z) :
  0 < m -> 0 <= n -> Zdigits2 (m * 2 ^ n) = Zdigits2 m + n.
Proof.
  intros Hm Hn.
  assert (P : 0 < 2 ^ n) by (apply Z.pow_pos_nonneg; lia).
  destruct (Zdigits2_bounds m) as (Hd & Hl & Hu); [lia|].
  assert (A : Zdigits2 (m * 2 ^ n) <= Zdigits2 m + n).
  { apply Zdigits2_le; [lia|]. rewrite Z.pow_add_r by lia. nia. }
  assert (B : Zdigits2 m + n - 1 + 1 <= Zdigits2 (m * 2 ^ n)).
  { apply Zdigits2_ge; [lia|].
    replace (Zdigits2 m + n - 1) with (Zdigits2 m - 1 + n) by lia.
    rewrite Z.pow_add_r by lia. nia. }
  lia.
Qed.

Lemma Zdigits2_succ (q : Z) : 0 <= q -> Zdigits2 (q + 1) <= Zdigits2 q + 1.
Proof.
  intros Hq. destruct (Z.eq_dec q 0) as [->|H0]; [simpl; lia|].
  destruct (Zdigits2_bounds q) as (Hd & _ & Hu); [lia|].
  apply Zdigits2_le; [lia|]. rewrite Z.pow_add_r by lia. lia.
Qed.

(** ** Shifting right with sticky bits *)

Lemma shr_1_m (r : shr_record) :
  0 <= shr_m r -> shr_m (shr_1 r) = shr_m r / 2 /\ 0 <= shr_m (shr_1 r).
Proof.
  destruct r as [m rb sb]. simpl.
  assert (D : forall a, Z.div2 a = a / 2) by (intros; apply Z.div2_div).
  destruct m as [|[p|p|]|p]; simpl; intros H; try lia;
    rewrite <- D; simpl; lia.
Qed.

Lemma pow2_xO (p : positive) : 2 ^ Zpos p~0 = 2 ^ Zpos p * 2 ^ Zpos p.
Proof. rewrite <- Z.pow_add_r by lia. f_equal. lia. Qed.

Lemma pow2_xI (p : positive) : 2 ^ Zpos p~1 = 2 * (2 ^ Zpos p * 2 ^ Zpos p).
Proof.
  rewrite <- Z.pow_add_r, <- Z.pow_succ_r by lia. f_equal. lia.
Qed.

Lemma iter_shr_1_m (p : positive) (r : shr_record) :
  0 <= shr_m r ->
  shr_m (iter_pos shr_1 p r) = shr_m r / 2 ^ Zpos p
  /\ 0 <= shr_m (iter_pos shr_1 p r).
Proof.
  revert r. induction p as [p IH|p IH|]; intros r H; cbn [iter_pos].
  - destruct (shr_1_m r H) as [E1 P1].
    destruct (IH _ P1) as [E2 P2]. destruct (IH _ P2) as [E3 P3].
    split; [|exact P3]. rewrite E3, E2, E1.
    assert (0 < 2 ^ Zpos p) by (apply Z.pow_pos_nonneg; lia).
    rewrite !Z.div_div by lia. rewrite pow2_xI, Z.mul_assoc. reflexivity.
  - destruct (IH _ H) as [E2 P2]. destruct (IH _ P2) as [E3 P3].
    split; [|exact P3]. rewrite E3, E2.
    assert (0 < 2 ^ Zpos p) by (apply Z.pow_pos_nonneg; lia).
    rewrite !Z.div_div by lia. rewrite pow2_xO. reflexivity.
  - destruct (shr_1_m r H) as [E1 P1]. split; [|exact P1].
    rewrite E1. reflexivity.
Qed.

Lemma shr_record_of_loc_m (m : Z) (l : location) :
  shr_m (shr_record_of_loc m l) = m.
Proof. destruct l as [|[ | | ]]; reflexivity. Qed.

Lemma fexp_eq (e : Z) : fexp e = Z.max (e - 53) (-1074).
Proof. reflexivity. Qed.

Lemma shr_fexp_spec (m e : Z) (l : location) :
  0 <= m -> e <= fexp (Zdigits2 m + e) ->
  shr_m (fst (shr_fexp 53 1024 m e l))
  = m / 2 ^ (fexp (Zdigits2 m + e) - e)
  /\ snd (shr_fexp 53 1024 m e l) = fexp (Zdigits2 m + e).
Proof.
  intros Hm Hn. unfold shr_fexp, shr.
  destruct (fexp (Zdigits2 m + e) - e) as [|p|p] eqn:En; simpl fst; simpl snd.
  - rewrite shr_record_of_loc_m, Z.div_1_r. lia.
  - destruct (iter_shr_1_m p (shr_record_of_loc m l)) as [E _].
    { rewrite shr_record_of_loc_m. exact Hm. }
    rewrite E, shr_record_of_loc_m. split; [reflexivity|lia].
  - lia.
Qed.

Lemma round_nearest_even_range (q : Z) (l : location) :
  q <= round_nearest_even q l <= q + 1.
Proof.
  unfold round_nearest_even.
  destruct l as [|[ | | ]]; try destruct (Z.even q); lia.
Qed.

(** ** Rounding to binary64 *)

Lemma binary_round_aux_spec (s : bool) (M e : Z) (l : location) :
  0 <= M -> e <= fexp (Zdigits2 M + e) ->
  let E := fexp (Zdigits2 M + e) in
  let q := M / 2 ^ (E - e) in
  match binary_round_aux 53 1024 s M e l with
  | S754_zero s' => s' = s /\ q = 0
  | S754_infinity s' => s' = s /\ 971 <= E
  | S754_nan => False
  | S754_finite s' m e' =>
      s' = s /\ bounded 53 1024 m e' = true /\ E <= e' <= E + 1
      /\ (e' = E -> q <= Zpos m) /\ Zpos m <= q + 1
  end.
Proof.
  intros HM Hn E q. unfold binary_round_aux.
  destruct (shr_fexp_spec M e l HM Hn) as [S1m S1e].
  destruct (shr_fexp 53 1024 M e l) as [r1 e1]. simpl in S1m, S1e.
  fold E in S1m, S1e. fold q in S1m. subst e1. rewrite S1m.
  pose proof (round_nearest_even_range q (loc_of_shr_record r1)) as Rq.
  set (m2 := round_nearest_even q (loc_of_shr_record r1)) in *.
  assert (P : 0 < 2 ^ (E - e)) by (apply Z.pow_pos_nonneg; lia).
  assert (Hq : 0 <= q) by (apply Z.div_pos; lia).
  assert (Dq : Zdigits2 q = Z.max 0 (Zdigits2 M - (E - e)))
    by (apply Zdigits2_div_pow2; lia).
  assert (D2l : Zdigits2 q <= Zdigits2 m2) by (apply Zdigits2_mono; lia).
  assert (D2u : Zdigits2 m2 <= Zdigits2 q + 1).
  { etransitivity; [apply Zdigits2_mono|apply Zdigits2_succ]; lia. }
  assert (D20 : m2 = 0 -> Zdigits2 m2 = 0) by (intros ->; reflexivity).
  assert (D2p : 0 < m2 -> 2 ^ (Zdigits2 m2 - 1) <= m2 /\ 0 < Zdigits2 m2).
  { intros H. destruct (Zdigits2_bounds m2 H) as (A & B & _). auto. }
  pose proof (fexp_eq (Zdigits2 M + e)) as FE. fold E in FE.
  pose proof (fexp_eq (Zdigits2 m2 + E)) as FE2.
  assert (N2 : 0 <= fexp (Zdigits2 m2 + E) - E <= 1) by lia.
  destruct (shr_fexp_spec m2 E loc_Exact) as [S2m S2e]; [lia|lia|].
  destruct (shr_fexp 53 1024 m2 E loc_Exact) as [r2 e2].
  simpl in S2m, S2e. subst e2.
  set (n2 := fexp (Zdigits2 m2 + E) - E) in *.
  assert (Big : n2 = 1 -> 2 ^ 53 <= m2).
  { intros H1. assert (54 <= Zdigits2 m2) by lia.
    destruct (Z.eq_dec m2 0) as [Z0|NZ]; [rewrite (D20 Z0) in *; lia|].
    destruct D2p as [B _]; [lia|].
    assert (2 ^ 53 <= 2 ^ (Zdigits2 m2 - 1))
      by (apply Z.pow_le_mono_r; lia).
    lia. }
  assert (Cases : n2 = 0 \/ n2 = 1) by lia.
  assert (Hm : shr_m r2 = m2 \/ (n2 = 1 /\ shr_m r2 = m2 / 2)).
  { destruct Cases as [C|C]; rewrite C in S2m.
    - left. rewrite S2m. change (2 ^ 0) with 1. apply Z.div_1_r.
    - right. auto. }
  destruct (shr_m r2) as [|m|m] eqn:Em.
  - split; [reflexivity|].
    destruct Hm as [Hm|[C Hm]]; [lia|].
    specialize (Big C). symmetry in Hm.
    assert (2 ^ 53 / 2 <= m2 / 2) by (apply Z.div_le_mono; lia).
    assert (0 < 2 ^ 53 / 2) by (vm_compute; reflexivity). lia.
  - assert (Dm : Zpos (digits2_pos m) = Zdigits2 m2 - n2).
    { change (Zpos (digits2_pos m)) with (Zdigits2 (Zpos m)).
      rewrite S2m, Zdigits2_div_pow2 by lia.
      destruct Hm as [Hm|[C Hm]].
      - assert (0 < Zdigits2 m2) by (apply D2p; lia). lia.
      - specialize (Big C). assert (0 < Zdigits2 m2) by (apply D2p; lia).
        lia. }
    assert (Can : canonical_mantissa 53 1024 m (E + n2) = true).
    { unfold canonical_mantissa. apply Z.eqb_eq. rewrite Dm.
      replace (Zdigits2 m2 - n2 + (E + n2)) with (Zdigits2 m2 + E) by lia.
      unfold n2. lia. }
    replace (fexp (Zdigits2 m2 + E)) with (E + n2) by (unfold n2; lia).
    change (1024 - 53) with 971.
    destruct (Z.leb_spec (E + n2) 971) as [Le|Gt].
    + split; [reflexivity|]. split.
      { unfold bounded. rewrite Can. apply Z.leb_le. exact Le. }
      split; [lia|]. split.
      * intros He. destruct Hm as [Hm|[C _]]; lia.
      * destruct Hm as [Hm|[C Hm]]; [lia|].
        assert (m2 / 2 <= m2) by (apply Z.div_le_upper_bound; lia). lia.
    + split; [reflexivity|lia].
  - exfalso. assert (0 <= m2 / 2 ^ n2) by (apply Z.div_pos; [lia|apply Z.pow_pos_nonneg; lia]). lia.
Qed.

Lemma iter_xO (mx d : positive) :
  Zpos (Pos.iter xO mx d) = Zpos mx * 2 ^ Zpos d.
Proof.
  induction d as [|d IH] using Pos.peano_ind.
  - simpl. lia.
  - rewrite Pos.iter_succ, Pos2Z.inj_xO, IH, Pos2Z.inj_succ,
      Z.pow_succ_r by lia. lia.
Qed.

Lemma shl_align_spec (mx : positive) (ex ex' : Z) :
  snd (shl_align mx ex ex') = Z.min ex ex'
  /\ Zpos (fst (shl_align mx ex ex')) = Zpos mx * 2 ^ (ex - Z.min ex ex').
Proof.
  unfold shl_align. destruct (ex' - ex) as [|p|p] eqn:E; simpl.
  - replace (Z.min ex ex') with ex by lia. rewrite Z.sub_diag. simpl. lia.
  - replace (Z.min ex ex') with ex by lia. rewrite Z.sub_diag. simpl. lia.
  - replace (Z.min ex ex') with ex' by lia.
    replace (ex - ex') with (Zpos p) by lia. split; [reflexivity|].
    apply iter_xO.
Qed.

(** [binary_round s mx ex] rounds [mx * 2^ex]; [E] is the exponent of the
    binade of that value. *)
Lemma binary_round_spec (s : bool) (mx : positive) (ex : Z) :
  let E := fexp (Zpos (digits2_pos mx) + ex) in
  let ez := Z.min ex E in
  match binary_round 53 1024 s mx ex with
  | S754_zero s' => s' = s /\ Zpos (digits2_pos mx) + ex <= -1074
  | S754_infinity s' => s' = s /\ 971 <= E
  | S754_nan => False
  | S754_finite s' m e' =>
      s' = s /\ bounded 53 1024 m e' = true /\ E <= e' <= E + 1
      /\ (e' = E ->
          forall a, a * 2 ^ (E - ez) <= Zpos mx * 2 ^ (ex - ez) ->
                    a <= Zpos m)
  end.
Proof.
  intros E ez. unfold binary_round.
  destruct (shl_align_spec mx ex E) as [Se Sm]. fold E.
  destruct (shl_align mx ex E) as [mz ez']. cbn [fst snd] in Se, Sm.
  fold ez in Se, Sm. subst ez'.
  assert (Pz : 0 < 2 ^ (ex - ez)) by (apply Z.pow_pos_nonneg; lia).
  assert (Dz : Zdigits2 (Zpos mz) + ez = Zpos (digits2_pos mx) + ex).
  { rewrite Sm, Zdigits2_mul_pow2 by lia. cbn [Zdigits2]. lia. }
  pose proof (binary_round_aux_spec s (Zpos mz) ez loc_Exact) as B.
  rewrite Dz in B. fold E in B.
  specialize (B ltac:(lia) ltac:(lia)). cbv zeta in B.
  assert (PE : 0 < 2 ^ (E - ez)) by (apply Z.pow_pos_nonneg; lia).
  pose proof (fexp_eq (Zpos (digits2_pos mx) + ex)) as FE. fold E in FE.
  destruct (binary_round_aux 53 1024 s (Zpos mz) ez loc_Exact)
    as [s'|s'| |s' m e'].
  - destruct B as [B1 Q]. split; [exact B1|].
    assert (H : Zdigits2 (Zpos mz / 2 ^ (E - ez)) = 0)
      by (rewrite Q; reflexivity).
    rewrite Zdigits2_div_pow2 in H by lia. lia.
  - exact B.
  - exact B.
  - destruct B as (A1 & A2 & A3 & A4 & _).
    split; [exact A1|]. split; [exact A2|]. split; [exact A3|].
    intros He a Ha. specialize (A4 He).
    assert (a <= Zpos mz / 2 ^ (E - ez)); [|lia].
    apply Z.div_le_lower_bound; [lia|]. rewrite Sm. lia.
Qed.

Lemma binary_round_valid (s : bool) (mx : positive) (ex : Z) :
  valid (binary_round 53 1024 s mx ex) = true.
Proof.
  pose proof (binary_round_spec s mx ex) as B. cbv zeta in B.
  destruct (binary_round 53 1024 s mx ex); try reflexivity.
  simpl. tauto.
Qed.

Lemma binary_normalize_valid (m e : Z) (sz : bool) :
  valid (binary_normalize 53 1024 m e sz) = true.
Proof.
  destruct m; simpl; [reflexivity| |]; apply binary_round_valid.
Qed.

Lemma SFadd_valid (x y : spec_float) :
  valid x = true -> valid y = true -> valid (SFadd 53 1024 x y) = true.
Proof.
  intros Hx Hy.
  destruct x as [sx|sx| |sx mx ex], y as [sy|sy| |sy my ey];
    try reflexivity; try assumption;
    try (destruct sx, sy; reflexivity).
  unfold SFadd. apply binary_normalize_valid.
Qed.

Lemma valid_finite_exponent (s : bool) (m : positive) (e : Z) :
  valid (S754_finite s m e) = true ->
  fexp (Zpos (digits2_pos m) + e) = e /\ e <= 971.
Proof.
  simpl. unfold bounded, canonical_mantissa.
  rewrite andb_true_iff, Z.eqb_eq, Z.leb_le. tauto.
Qed.

(** Adding a positive number to a non-negative one does not make it
    smaller: rounding to nearest cannot go below a representable number
    that the exact sum exceeds. *)
Lemma SFadd_ge_left (x : spec_float) (my : positive) (ey : Z) :
  valid x = true ->
  match x with
  | S754_zero _ | S754_finite false _ _ => True
  | _ => False
  end ->
  SFleb x (SFadd 53 1024 x (S754_finite false my ey)) = true.
Proof.
  intros Vx Px. destruct x as [sx|sx| |sx mx ex]; try contradiction.
  - reflexivity.
  - destruct sx; [contradiction|].
    destruct (valid_finite_exponent _ _ _ Vx) as [Cx Bx].
    unfold SFadd.
    set (ez := Z.min ex ey).
    destruct (shl_align_spec mx ex ez) as [_ Ax].
    destruct (shl_align_spec my ey ez) as [_ Ay].
    replace (Z.min ex ez) with ez in Ax by lia.
    replace (Z.min ey ez) with ez in Ay by lia.
    set (mx' := fst (shl_align mx ex ez)) in *.
    set (my' := fst (shl_align my ey ez)) in *.
    cbn [cond_Zopp Z.add binary_normalize].
    pose proof (binary_round_spec false (mx' + my') ez) as B.
    cbv zeta in B.
    assert (Px' : 0 < 2 ^ (ex - ez)) by (apply Z.pow_pos_nonneg; lia).
    assert (Dx : Zdigits2 (Zpos mx') = Zpos (digits2_pos mx) + (ex - ez)).
    { rewrite Ax, Zdigits2_mul_pow2 by lia. reflexivity. }
    assert (Dm : Zdigits2 (Zpos mx') <= Zpos (digits2_pos (mx' + my'))).
    { change (Zpos (digits2_pos (mx' + my')))
        with (Zdigits2 (Zpos (mx' + my'))).
      apply Zdigits2_mono. lia. }
    pose proof (fexp_eq (Zpos (digits2_pos (mx' + my')) + ez)) as FE.
    pose proof (fexp_eq (Zpos (digits2_pos mx) + ex)) as FX.
    set (E := fexp (Zpos (digits2_pos (mx' + my')) + ez)) in *.
    assert (HE : ex <= E) by lia.
    destruct (binary_round 53 1024 false (mx' + my') ez)
      as [s'|s'| |s' m e'].
    + exfalso. assert (0 < Zpos (digits2_pos mx)) by lia. lia.
    + destruct B as [-> _]. reflexivity.
    + contradiction.
    + destruct B as (-> & _ & Be & Bl).
      unfold SFleb, SFcompare.
      destruct (Z.compare_spec ex e') as [He|He|He]; try reflexivity.
      * subst e'. assert (EE : ex = E) by lia.
        assert (Hm : Zpos mx <= Zpos m).
        { apply Bl; [lia|].
          replace (Z.min ez E) with ez by lia.
          rewrite Z.sub_diag, Z.mul_1_r. rewrite <- EE.
          rewrite Pos2Z.inj_add, Ax. lia. }
        change (Pos.compare_cont Eq mx m) with (Pos.compare mx m).
        destruct (Pos.compare_spec mx m); try reflexivity. lia.
      * lia.
Qed.

(** ** Division *)

Lemma SFdiv_core_binary_spec (m1 m2 : positive) (e1 e2 : Z) :
  let d1 := Zpos (digits2_pos m1) in
  let d2 := Zpos (digits2_pos m2) in
  let e' := Z.min (fexp (d1 + e1 - (d2 + e2))) (e1 - e2) in
  let q := (Zpos m1 * 2 ^ (e1 - e2 - e')) / Zpos m2 in
  fst (fst (SFdiv_core_binary 53 1024 (Zpos m1) e1 (Zpos m2) e2)) = q
  /\ snd (fst (SFdiv_core_binary 53 1024 (Zpos m1) e1 (Zpos m2) e2)) = e'
  /\ 0 <= q
  /\ e' <= fexp (Zdigits2 q + e')
  /\ Zdigits2 q + e' <= Z.max (d1 + e1 - (d2 + e2) + 1) (e1 - e2).
Proof.
  intros d1 d2 e' q.
  assert (Hs : 0 <= e1 - e2 - e') by lia.
  assert (P : 0 < 2 ^ (e1 - e2 - e')) by (apply Z.pow_pos_nonneg; lia).
  assert (Hq : 0 <= q) by (apply Z.div_pos; lia).
  split; [|split; [|split; [exact Hq|]]].
  - unfold SFdiv_core_binary. cbn [Zdigits2]. fold d1 d2 e'.
    assert (Em : match e1 - e2 - e' with
                 | Z.pos _ => Z.shiftl (Z.pos m1) (e1 - e2 - e')
                 | 0 => Z.pos m1
                 | Z.neg _ => 0
                 end = Zpos m1 * 2 ^ (e1 - e2 - e')).
    { destruct (e1 - e2 - e') as [|p|p] eqn:E.
      - simpl. lia.
      - apply Z.shiftl_mul_pow2. lia.
      - lia. }
    rewrite Em. unfold q, Z.div.
    destruct (Z.div_eucl _ _) as [q0 r0]. reflexivity.
  - unfold SFdiv_core_binary. cbn [Zdigits2]. fold d1 d2 e'.
    destruct (Z.div_eucl _ _) as [q0 r0]. reflexivity.
  - destruct (digits2_pos_bounds m1) as [L1 U1].
    destruct (digits2_pos_bounds m2) as [L2 U2]. fold d1 in L1, U1.
    fold d2 in L2, U2.
    assert (Hd1 : 0 < d1) by (unfold d1; lia).
    assert (Hd2 : 0 < d2) by (unfold d2; lia).
    set (s := e1 - e2 - e') in *.
    set (D := d1 + e1 - (d2 + e2)) in *.
    pose proof (fexp_eq D) as FD.
    pose proof (fexp_eq (Zdigits2 q + e')) as FQ.
    assert (Up : Zdigits2 q <= Z.max 0 (d1 + s - d2 + 1)).
    { destruct (Z_le_gt_dec d2 (d1 + s)) as [G|G].
      - apply Zdigits2_le; [lia|]. split; [exact Hq|].
        apply Z.div_lt_upper_bound; [lia|].
        apply Z.lt_le_trans with (2 ^ d1 * 2 ^ s); [nia|].
        replace (Z.max 0 (d1 + s - d2 + 1)) with (d1 + s - d2 + 1) by lia.
        apply Z.le_trans with (2 ^ (d2 - 1) * 2 ^ (d1 + s - d2 + 1)).
        + rewrite <- !Z.pow_add_r by lia. apply Z.pow_le_mono_r; lia.
        + apply Z.mul_le_mono_nonneg_r; [apply Z.pow_nonneg|]; lia.
      - assert (q = 0); [|subst q; rewrite H; simpl; lia].
        apply Z.div_small. split; [lia|].
        apply Z.lt_le_trans with (2 ^ d1 * 2 ^ s); [nia|].
        rewrite <- Z.pow_add_r by lia.
        apply Z.le_trans with (2 ^ (d2 - 1)); [|lia].
        apply Z.pow_le_mono_r; lia. }
    split; [|lia].
    destruct (Z_le_gt_dec (d2 + 1) (d1 + s)) as [G|G].
    + assert (Lo : d1 + s - d2 <= Zdigits2 q).
      { replace (d1 + s - d2) with (d1 + s - d2 - 1 + 1) by lia.
        apply Zdigits2_ge; [lia|].
        apply Z.div_le_lower_bound; [lia|].
        apply Z.le_trans with (2 ^ d2 * 2 ^ (d1 + s - d2 - 1)).
        - apply Z.mul_le_mono_nonneg_r; [apply Z.pow_nonneg|]; lia.
        - rewrite <- Z.pow_add_r by lia.
          replace (d2 + (d1 + s - d2 - 1)) with (d1 - 1 + s) by lia.
          rewrite Z.pow_add_r by lia. nia. }
      lia.
    + pose proof (Zdigits2_nonneg q). lia.
Qed.

Lemma SFdiv_valid (x y : spec_float) : valid (SFdiv 53 1024 x y) = true.
Proof.
  destruct x as [sx|sx| |sx mx ex], y as [sy|sy| |sy my ey];
    try reflexivity.
  unfold SFdiv.
  destruct (SFdiv_core_binary_spec mx my ex ey) as (Q & E & Hq & Hn & _).
  destruct (SFdiv_core_binary 53 1024 (Zpos mx) ex (Zpos my) ey)
    as [[q e'] l].
  cbn [fst snd] in Q, E. cbv zeta in Hq, Hn.
  rewrite <- Q in Hq, Hn. rewrite <- E in Hn.
  pose proof (binary_round_aux_spec (xorb sx sy) q e' l Hq Hn) as B.
  cbv zeta in B.
  destruct (binary_round_aux 53 1024 (xorb sx sy) q e' l);
    try reflexivity. simpl. tauto.
Qed.

(** ** Numbers of bounded magnitude *)

Lemma small_weaken (k k' : Z) (x : spec_float) :
  k <= k' -> small k x -> small k' x.
Proof.
  intros H [V S]. split; [exact V|]. destruct x; try exact S. lia.
Qed.

Lemma valid_digits (s : bool) (m : positive) (e : Z) :
  valid (S754_finite s m e) = true ->
  Zpos (digits2_pos m) <= 53 /\ -1074 <= e
  /\ (Zpos (digits2_pos m) = 53 \/ e = -1074).
Proof.
  intros V. destruct (valid_finite_exponent _ _ _ V) as [C _].
  rewrite fexp_eq in C. lia.
Qed.

Lemma binary_normalize_small (m e : Z) (sz : bool) (k : Z) :
  Zdigits2 m + e - 53 <= k -> -1074 <= k -> k < 971 ->
  small (k + 1) (binary_normalize 53 1024 m e sz).
Proof.
  intros Hk Hl Hu. split; [apply binary_normalize_valid|].
  destruct m as [|p|p]; [exact I| |]; cbn [binary_normalize Zdigits2] in *.
  - pose proof (binary_round_spec false p e) as B. cbv zeta in B.
    rewrite fexp_eq in B.
    destruct (binary_round 53 1024 false p e); try exact I; lia.
  - pose proof (binary_round_spec true p e) as B. cbv zeta in B.
    rewrite fexp_eq in B.
    destruct (binary_round 53 1024 true p e); try exact I; lia.
Qed.

Lemma sum_digits (sx sy : bool) (X Y : positive) (d : Z) :
  Zpos (digits2_pos X) <= d -> Zpos (digits2_pos Y) <= d ->
  Zdigits2 (cond_Zopp sx (Zpos X) + cond_Zopp sy (Zpos Y)) <= d + 1
  /\ Zdigits2 (cond_Zopp sx (Zpos X) - cond_Zopp sy (Zpos Y)) <= d + 1.
Proof.
  intros HX HY.
  destruct (digits2_pos_bounds X) as [_ UX].
  destruct (digits2_pos_bounds Y) as [_ UY].
  assert (PX : 2 ^ Zpos (digits2_pos X) <= 2 ^ d)
    by (apply Z.pow_le_mono_r; lia).
  assert (PY : 2 ^ Zpos (digits2_pos Y) <= 2 ^ d)
    by (apply Z.pow_le_mono_r; lia).
  assert (P2 : 2 ^ (d + 1) = 2 * 2 ^ d)
    by (rewrite Z.pow_add_r by lia; lia).
  assert (G : forall z, Z.abs z < 2 ^ (d + 1) -> Zdigits2 z <= d + 1).
  { intros z Hz. destruct z as [|p|p]; [simpl; lia| |].
    - apply Zdigits2_le; lia.
    - change (Zdigits2 (Zneg p)) with (Zdigits2 (Zpos p)).
      apply Zdigits2_le; lia. }
  split; apply G; destruct sx, sy; cbn [cond_Zopp]; lia.
Qed.

Lemma SFadd_sub_small (a b : Z) (x y : spec_float) :
  small a x -> small b y -> Z.max a b + 1 < 971 ->
  small (Z.max (Z.max a b + 2) (-1073)) (SFadd 53 1024 x y)
  /\ small (Z.max (Z.max a b + 2) (-1073)) (SFsub 53 1024 x y).
Proof.
  intros [Vx Sx] [Vy Sy] Hb.
  destruct x as [sx|sx| |sx mx ex]; try contradiction;
    destruct y as [sy|sy| |sy my ey]; try contradiction.
  - split; (split; [|destruct sx, sy; exact I]); destruct sx, sy; reflexivity.
  - split; (split; [exact Vy|simpl; lia]).
  - split; (split; [exact Vx|simpl; lia]).
  - destruct (valid_digits _ _ _ Vx) as (Dx & Lx & _).
    destruct (valid_digits _ _ _ Vy) as (Dy & Ly & _).
    unfold SFadd, SFsub.
    set (ez := Z.min ex ey).
    destruct (shl_align_spec mx ex ez) as [_ Ax].
    destruct (shl_align_spec my ey ez) as [_ Ay].
    replace (Z.min ex ez) with ez in Ax by lia.
    replace (Z.min ey ez) with ez in Ay by lia.
    set (mx' := fst (shl_align mx ex ez)) in *.
    set (my' := fst (shl_align my ey ez)) in *.
    assert (Dx' : Zpos (digits2_pos mx') <= 53 + Z.max ex ey - ez).
    { change (Zpos (digits2_pos mx')) with (Zdigits2 (Zpos mx')).
      rewrite Ax, Zdigits2_mul_pow2 by lia. cbn [Zdigits2]. lia. }
    assert (Dy' : Zpos (digits2_pos my') <= 53 + Z.max ex ey - ez).
    { change (Zpos (digits2_pos my')) with (Zdigits2 (Zpos my')).
      rewrite Ay, Zdigits2_mul_pow2 by lia. cbn [Zdigits2]. lia. }
    destruct (sum_digits sx sy mx' my' _ Dx' Dy') as [S1 S2].
    split; (eapply small_weaken;
            [|apply binary_normalize_small with (k := Z.max a b + 1)]);
      lia.
Qed.

Lemma mul_digits (mx my : positive) :
  Zpos (digits2_pos mx) + Zpos (digits2_pos my) - 1
  <= Zpos (digits2_pos (mx * my))
  <= Zpos (digits2_pos mx) + Zpos (digits2_pos my).
Proof.
  destruct (digits2_pos_bounds mx) as [Lx Ux].
  destruct (digits2_pos_bounds my) as [Ly Uy].
  set (dx := Zpos (digits2_pos mx)) in *.
  set (dy := Zpos (digits2_pos my)) in *.
  assert (Hdx : 0 < dx) by (unfold dx; lia).
  assert (Hdy : 0 < dy) by (unfold dy; lia).
  assert (P1 : 0 < 2 ^ (dx - 1)) by (apply Z.pow_pos_nonneg; lia).
  assert (P2 : 0 < 2 ^ (dy - 1)) by (apply Z.pow_pos_nonneg; lia).
  change (Zpos (digits2_pos (mx * my))) with (Zdigits2 (Zpos (mx * my))).
  rewrite Pos2Z.inj_mul. split.
  - replace (dx + dy - 1) with (dx - 1 + (dy - 1) + 1) by lia.
    apply Zdigits2_ge; [lia|]. rewrite Z.pow_add_r by lia. nia.
  - apply Zdigits2_le; [lia|]. rewrite Z.pow_add_r by lia. nia.
Qed.

Lemma SFmul_small (a b : Z) (x y : spec_float) :
  small a x -> small b y -> a + b + 53 < 971 ->
  small (Z.max (a + b + 54) (-1073)) (SFmul 53 1024 x y).
Proof.
  intros [Vx Sx] [Vy Sy] Hb.
  destruct x as [sx|sx| |sx mx ex]; try contradiction;
    destruct y as [sy|sy| |sy my ey]; try contradiction;
    try (split; [reflexivity|exact I]).
  destruct (valid_digits _ _ _ Vx) as (Dx & Lx & Nx).
  destruct (valid_digits _ _ _ Vy) as (Dy & Ly & Ny).
  pose proof (mul_digits mx my) as [Ml Mu].
  assert (Px : 0 < Zpos (digits2_pos mx)) by lia.
  assert (Py : 0 < Zpos (digits2_pos my)) by lia.
  unfold SFmul.
  pose proof (binary_round_aux_spec (xorb sx sy) (Zpos (mx * my))
                                    (ex + ey) loc_Exact) as B.
  cbn [Zdigits2] in B. rewrite fexp_eq in B.
  specialize (B ltac:(lia) ltac:(lia)). cbv zeta in B.
  destruct (binary_round_aux 53 1024 (xorb sx sy) (Zpos (mx * my))
                             (ex + ey) loc_Exact) as [s'|s'| |s' m e'].
  - split; [reflexivity|exact I].
  - lia.
  - contradiction.
  - destruct B as (_ & Bb & Be & _). split; [exact Bb|]. lia.
Qed.

Lemma SFdiv_small (a : Z) (x : spec_float)
      (sy : bool) (my : positive) (ey : Z) :
  small a x -> valid (S754_finite sy my ey) = true -> a - ey < 971 ->
  small (Z.max (a - ey + 1) (-1073))
        (SFdiv 53 1024 x (S754_finite sy my ey)).
Proof.
  intros [Vx Sx] Vy Hb. split; [apply SFdiv_valid|].
  destruct x as [sx|sx| |sx mx ex]; try contradiction; [exact I|].
  destruct (valid_digits _ _ _ Vx) as (Dx & Lx & _).
  assert (Py : 0 < Zpos (digits2_pos my)) by lia.
  unfold SFdiv.
  destruct (SFdiv_core_binary_spec mx my ex ey) as (Q & E & Hq & Hn & Hm).
  destruct (SFdiv_core_binary 53 1024 (Zpos mx) ex (Zpos my) ey)
    as [[q e'] l].
  cbn [fst snd] in Q, E. cbv zeta in Hq, Hn, Hm.
  rewrite <- Q in Hq, Hn, Hm. rewrite <- E in Hn, Hm.
  pose proof (binary_round_aux_spec (xorb sx sy) q e' l Hq Hn) as B.
  cbv zeta in B. rewrite fexp_eq in B.
  destruct (binary_round_aux 53 1024 (xorb sx sy) q e' l)
    as [s'|s'| |s' m e'']; try exact I; lia.
Qed.

Lemma small_finite (k : Z) (x : spec_float) :
  small k x ->
  match x with
  | S754_zero _ | S754_finite _ _ _ => True
  | _ => False
  end.
Proof. intros [_ S]. destruct x; auto. Qed.

End Binary64.

(** ** The sensitivity boost never lowers a score (claim C6) *)

Lemma py_min_cases (a b : float) : py_min a b = a \/ py_min a b = b.
Proof. unfold py_min. destruct (flt b a); auto. Qed.

Lemma py_max_cases (a b : float) : py_max a b = a \/ py_max a b = b.
Proof. unfold py_max. destruct (flt a b); auto. Qed.

Lemma fadd_valid (x y : float) :
  valid x = true -> valid y = true -> valid (fadd x y) = true.
Proof. apply SFadd_valid. Qed.

Section BoostNeverLowers.
Context {U : Unicode}.

Lemma score_valid (self : MisinformationDetector) (text : str) :
  valid (score self text) = true.
Proof.
  unfold score. destruct (falsy text); [reflexivity|]. cbv zeta.
  match goal with
  | |- valid (py_max f0_0 (py_min f1_0 (fadd ?base ?boost))) = true =>
      assert (Vb : valid base = true) by apply SFdiv_valid;
      assert (Vo : valid boost = true);
      [|destruct (py_max_cases f0_0 (py_min f1_0 (fadd base boost)))
          as [-> | ->];
        [reflexivity|
         destruct (py_min_cases f1_0 (fadd base boost)) as [-> | ->];
         [reflexivity|apply fadd_valid; assumption]]]
  end.
  repeat match goal with
         | |- valid (if ?c then _ else _) = true => destruct c
         | |- valid (fadd _ _) = true => apply fadd_valid
         end; reflexivity.
Qed.

(** a number in [0, 0.7) is a zero or a positive finite number *)
Lemma below_0_7_shape (x : float) :
  fle f0_0 x = true -> flt x f0_7 = true ->
  match x with
  | S754_zero _ | S754_finite false _ _ => True
  | _ => False
  end.
Proof.
  destruct x as [s|s| |s m e]; try exact (fun _ _ => I);
    try discriminate; destruct s; try discriminate; exact (fun _ _ => I).
Qed.

Lemma misinfo_boost_ge (x : float) :
  valid x = true -> fle f0_0 x = true -> fle x f1_0 = true ->
  flt x f0_7 = true ->
  fle x (py_min f1_0 (fadd x f0_5)) = true.
Proof.
  intros V H0 H1 H7.
  destruct (py_min_cases f1_0 (fadd x f0_5)) as [-> | ->];
    [exact H1|].
  apply (SFadd_ge_left x 4503599627370496 (-53) V).
  apply below_0_7_shape; assumption.
Qed.

(** the values [detect_sensationalism] can return, by the number of
    catalog terms found *)
Lemma sens_boost_ge (k : Z) :
  (0 <= k <= 23)%Z ->
  let s := py_min f1_0 (int_truediv k 23) in
  fle s s = true /\ fle s (py_min f1_0 (fadd s f0_2)) = true.
Proof.
  intros Hk.
  assert (T : forallb
                (fun i =>
                   let s := py_min f1_0 (int_truediv (Z.of_nat i) 23) in
                   fle s s && fle s (py_min f1_0 (fadd s f0_2)))
                (seq 0 24) = true) by (vm_compute; reflexivity).
  rewrite forallb_forall in T.
  specialize (T (Z.to_nat k)).
  rewrite Z2Nat.id in T by lia.
  apply andb_true_iff. apply T. apply in_seq. lia.
Qed.

End BoostNeverLowers.

(** C6.  For every text, the two scores [analyze_text] returns are not
    below the raw scores of [MisinformationDetector.score] and
    [detect_sensationalism].  When the lowercased text contains a crisis
    keyword, the misinformation score becomes [min(1, score + 0.50)] if it
    was below 0.70 and is left unchanged otherwise, and the sensationalism
    score becomes [min(1, score + 0.20)] if it was below 0.20 and is left
    unchanged otherwise; without a crisis keyword both scores are
    returned unchanged. *)
Theorem boost_never_lowers (U : Unicode) (text : str) :
  let m := score (MisinformationDetector_init None) text in
  let s := detect_sensationalism text in
  let '(m', s', _) := analyze_text text in
  (fle m m' = true /\ fle s s' = true)
  /\ (any_in crisis_keywords (str_lower text) = true ->
      (if flt m f0_7 then m' = py_min f1_0 (fadd m f0_5) else m' = m)
      /\ (if flt s f0_2 then s' = py_min f1_0 (fadd s f0_2) else s' = s))
  /\ (any_in crisis_keywords (str_lower text) = false ->
      m' = m /\ s' = s).
Proof.
  intros m s. unfold analyze_text. fold m s. unfold boost_scores.
  destruct (scorers_bounds U (MisinformationDetector_init None) text)
    as ((M0 & M1) & S0 & S1). fold m in M0, M1. fold s in S0, S1.
  assert (Vm : valid m = true) by apply score_valid.
  assert (Rm : fle m m = true) by (apply fle_refl; eapply fle_not_nan; eassumption).
  assert (Rs : fle s s = true /\ fle s (py_min f1_0 (fadd s f0_2)) = true).
  { unfold s, detect_sensationalism.
    destruct (falsy text); [split; reflexivity|].
    apply sens_boost_ge.
    exact (term_counter_range (str_lower text) sensational_terms 0). }
  destruct Rs as [Rs Bs].
  destruct (any_in crisis_keywords (str_lower text)).
  - destruct (flt m f0_7) eqn:E7, (flt s f0_2) eqn:E2;
      (split; [split|split; [intros _; split; reflexivity|discriminate]]);
      try assumption; apply misinfo_boost_ge; assumption.
  - split; [split; assumption|]. split; [discriminate|].
    intros _. split; reflexivity.
Qed.

(** ** The fuser is total on scores in the unit interval (claim C8) *)

Lemma unit_small (m : float) :
  valid m = true -> fle f0_0 m = true -> fle m f1_0 = true ->
  small (-52) m.
Proof.
  intros V H0 H1. split; [exact V|].
  destruct m as [s|s| |s mx ex]; try exact I; try discriminate.
  - destruct s; discriminate.
  - destruct s; [discriminate|].
    unfold fle, SFleb, f1_0, SFcompare in H1.
    destruct (Z.compare_spec ex (-52)); try lia; discriminate.
Qed.

Lemma py_round_small (k : Z) (x : float) :
  small k x -> exists r, py_round x = Ok r.
Proof.
  intros [_ S]. destruct x; try contradiction; simpl; eauto.
Qed.

Lemma small_const (k : Z) (s : bool) (m : positive) (e : Z) :
  valid (S754_finite s m e) = true -> (e <= k)%Z ->
  small k (S754_finite s m e).
Proof. intros V H. split; assumption. Qed.

Lemma int_truediv_zero (total : Z) :
  (0 < total)%Z -> exists s, int_truediv 0 total = S754_zero s.
Proof.
  intros H. unfold int_truediv, float_of_int.
  destruct total as [|p|p]; try lia.
  cbn [binary_normalize].
  pose proof (binary_round_spec false p 0) as B. cbv zeta in B.
  change (SpecFloat.binary_round prec emax false p 0)
    with (SpecFloat.binary_round 53 1024 false p 0).
  destruct (binary_round 53 1024 false p 0) as [s'|s'| |s' m e'].
  - exfalso. destruct B as [_ B]. lia.
  - eexists. reflexivity.
  - contradiction.
  - eexists. reflexivity.
Qed.

Lemma verdict_of_score_cases (n : Z) :
  verdict_of_score n = lit "Fake" \/ verdict_of_score n = lit "Real"
  \/ verdict_of_score n = lit "Unclear".
Proof.
  unfold verdict_of_score.
  destruct (66 <=? n)%Z; [auto|]. destruct (n <=? 33)%Z; auto.
Qed.

Section FuserTotal.
Context {U : Unicode}.

Lemma no_false_count (api_results : list FactCheckResult) :
  has_verdict (lit "false") (verdicts_of api_results) = false ->
  filter (fun r => str_eqb (str_lower (verdict r)) (lit "false"))
         api_results = [].
Proof.
  rewrite has_verdict_false_iff. intros H.
  induction api_results as [|r rs IH]; [reflexivity|]. simpl.
  destruct (str_eqb (str_lower (verdict r)) (lit "false")) eqn:E.
  - apply str_eqb_eq in E. exfalso. exact (H r (or_introl eq_refl) E).
  - apply IH. intros r' Hr'. apply H. right. exact Hr'.
Qed.

(** the argument of [round] in the branch for scores above 0.70 *)
Lemma high_branch_small (m : float) :
  small (-52) m ->
  small 13
    (fadd (float_of_int 60)
          (fmul (fdiv (fsub m f0_7) (py_max f0_0001 (fsub f1_0 f0_7)))
                (float_of_int 20))).
Proof.
  intros Sm.
  assert (S7 : small (-53) f0_7) by (apply small_const; [reflexivity|lia]).
  pose proof (proj2 (SFadd_sub_small (-52) (-53) m f0_7 Sm S7 ltac:(lia)))
    as S1.
  change (py_max f0_0001 (fsub f1_0 f0_7))
    with (S754_finite false 5404319552844596 (-54)).
  pose proof (SFdiv_small _ _ false 5404319552844596 (-54) S1 eq_refl
                          ltac:(vm_compute; reflexivity)) as S2.
  assert (S20 : small (-48) (float_of_int 20))
    by (apply small_const; [reflexivity|vm_compute; discriminate]).
  pose proof (SFmul_small _ _ _ _ S2 S20 ltac:(vm_compute; reflexivity))
    as S3.
  assert (S60 : small (-47) (float_of_int 60))
    by (apply small_const; [reflexivity|vm_compute; discriminate]).
  pose proof (proj1 (SFadd_sub_small _ _ _ _ S60 S3
                                     ltac:(vm_compute; reflexivity))) as S4.
  exact S4.
Qed.

Lemma internal_small (m : float) :
  small (-52) m -> small (-45) (fmul m f50_0).
Proof.
  intros Sm.
  assert (S50 : small (-47) f50_0) by (apply small_const; [reflexivity|lia]).
  exact (SFmul_small _ _ _ _ Sm S50 ltac:(vm_compute; reflexivity)).
Qed.

Lemma low_branch_small (m : float) :
  small (-52) m -> small (-43) (fadd (fmul m f50_0) f25_0).
Proof.
  intros Sm.
  assert (S25 : small (-48) f25_0) by (apply small_const; [reflexivity|lia]).
  exact (proj1 (SFadd_sub_small _ _ _ _ (internal_small Sm) S25
                                ltac:(vm_compute; reflexivity))).
Qed.

Lemma fallback_small (m : float) (total : Z) :
  small (-52) m -> (0 < total)%Z ->
  small (-43) (fadd (fmul m f50_0) (fmul (int_truediv 0 total) f50_0)).
Proof.
  intros Sm Ht. destruct (int_truediv_zero Ht) as [s ->].
  assert (Sz : small (-48) (fmul (S754_zero s) f50_0))
    by (split; [reflexivity|exact I]).
  exact (proj1 (SFadd_sub_small _ _ _ _ (internal_small Sm) Sz
                                ltac:(vm_compute; reflexivity))).
Qed.

End FuserTotal.

(** C8.  [calculate_confidence_score] is a function of its two arguments
    (equal inputs give equal outputs), and for every binary64 score between
    0.0 and 1.0 and every list of fact-check results it returns, without
    raising, an integer confidence between 0 and 100 and one of the
    verdicts "Fake", "Real" and "Unclear". *)
Theorem fuser_total (U : Unicode) (misinfo_score : float)
        (api_results : list FactCheckResult) :
  valid misinfo_score = true ->
  fle f0_0 misinfo_score = true -> fle misinfo_score f1_0 = true ->
  (forall m' rs', m' = misinfo_score -> rs' = api_results ->
                  calculate_confidence_score m' rs'
                  = calculate_confidence_score misinfo_score api_results)
  /\ exists confidence v,
      calculate_confidence_score misinfo_score api_results
      = Ok (confidence, v)
      /\ (0 <= confidence <= 100)%Z
      /\ (v = lit "Fake" \/ v = lit "Real" \/ v = lit "Unclear").
Proof.
  intros V H0 H1. split; [intros m' rs' -> ->; reflexivity|].
  pose proof (unit_small _ V H0 H1) as Sm.
  unfold calculate_confidence_score. cbv zeta.
  destruct api_results as [|r rs].
  - destruct (flt f0_7 misinfo_score).
    + destruct (py_round_small (high_branch_small Sm)) as [z ->]. simpl.
      eexists _, _. split; [reflexivity|]. split; [lia|auto].
    + destruct (py_round_small (low_branch_small Sm)) as [z ->]. simpl.
      eexists _, _. split; [reflexivity|]. split; [lia|].
      apply verdict_of_score_cases.
  - set (rs0 := r :: rs).
    destruct (has_verdict (lit "false") (verdicts_of rs0)) eqn:F,
             (has_verdict (lit "true") (verdicts_of rs0)) eqn:T,
             (has_verdict (lit "mixed") (verdicts_of rs0)) eqn:X;
      cbn [andb negb orb];
      try (eexists _, _; split; [reflexivity|]; split; [lia|auto]; fail).
    rewrite (no_false_count _ F). cbn [List.length Z.of_nat].
    destruct (py_round_small
                (@fallback_small _ (Z.of_nat (List.length rs0)) Sm
                                 ltac:(unfold rs0; simpl; lia)))
      as [z ->].
    simpl. eexists _, _. split; [reflexivity|]. split; [lia|].
    apply verdict_of_score_cases.
Qed.

Lemma fuser_total_witness :
  valid f0_5 = true /\ fle f0_0 f0_5 = true /\ fle f0_5 f1_0 = true
  /\ exists confidence v,
      calculate_confidence_score (U := ascii_unicode) f0_5 []
      = Ok (confidence, v)
      /\ (0 <= confidence <= 100)%Z
      /\ (v = lit "Fake" \/ v = lit "Real" \/ v = lit "Unclear").
Proof.
  split; [reflexivity|]. split; [reflexivity|]. split; [reflexivity|].
  exact (proj2 (fuser_total ascii_unicode f0_5 [] eq_refl eq_refl eq_refl)).
Defined.

(** ** The token guard on a repeated phrase (claim C2) *)

Lemma process_language_no_translator (U : Unicode)
      (detect : str -> res str) (text : str) :
  exists lang, process_language detect None text = Ok (text, lang).
Proof.
  destruct (detect_language_total detect text) as [lang Hl].
  exists lang. unfold process_language. rewrite Hl.
  unfold translate_step. destruct (_ && _ && _); reflexivity.
Qed.

(** On an input in which every protected span occurs once, the guard and
    the restoration are inverse to each other. *)
Lemma guard_restore_single_occurrences :
  let t := lit "Schools closed 12345 urgently, withdraw money 2024!" in
  let '(placeholder_map, tmp) := guard (U := ascii_unicode) t in
  tmp = lit "__TK7_0__ __TK8_0__ __NUM0__ __TK6_0__, __TK0_0__ __NUM1__!"
  /\ restore placeholder_map tmp = t.
Proof. vm_compute. split; reflexivity. Qed.

(** C2 (failing input).  On the input "closed closed" the guard computes
    both spans of "closed" on the unmodified text and applies the second
    one to the text the first substitution has already lengthened: the
    second placeholder is written over the tail of the first, and the
    text it stores is not a phrase.  With the translation step leaving the
    guarded text as it is (no translator), the restoration returns
    "closedTK8_1__sed" and not the input, and
    [preprocessing_and_translation] returns "closedtk8 1 sed". *)
Theorem guard_restore_repeated_phrase :
  let t := lit "closed closed" in
  guard (U := ascii_unicode) t
  = ([(lit "__TK8_0__", lit "closed"); (lit "__TK8_1__", lit "__ clo")],
     lit "__TK8_0__TK8_1__sed")
  /\ restore (fst (guard (U := ascii_unicode) t))
             (snd (guard (U := ascii_unicode) t))
     = lit "closedTK8_1__sed"
  /\ restore (fst (guard (U := ascii_unicode) t))
             (snd (guard (U := ascii_unicode) t)) <> t
  /\ forall detect : str -> res str,
      fst (preprocessing_and_translation (U := ascii_unicode) detect None t)
      = lit "closedtk8 1 sed".
Proof.
  cbv zeta.
  assert (G : guard (U := ascii_unicode) (lit "closed closed")
              = ([(lit "__TK8_0__", lit "closed");
                  (lit "__TK8_1__", lit "__ clo")],
                 lit "__TK8_0__TK8_1__sed"))
    by (vm_compute; reflexivity).
  split; [exact G|]. rewrite G. cbn [fst snd].
  split; [vm_compute; reflexivity|].
  split; [vm_compute; discriminate|].
  intros detect. unfold preprocessing_and_translation.
  change (falsy (lit "closed closed")) with false. cbv iota.
  rewrite G.
  destruct (process_language_no_translator ascii_unicode detect
              (lit "__TK8_0__TK8_1__sed")) as [lang ->].
  vm_compute. reflexivity.
Qed.

(** The scenario of the specification: "lockdown" and "government mandate"
    with no suspicious term.  Both raw scores are 0.0; the crisis keyword
    raises them to 0.5 and 0.2, and the verdict is "Unclear". *)
Lemma boost_on_lockdown :
  let text := lit "lockdown government mandate" in
  score (U := ascii_unicode) (MisinformationDetector_init None) text = f0_0
  /\ detect_sensationalism (U := ascii_unicode) text = f0_0
  /\ analyze_text (U := ascii_unicode) text = (f0_5, f0_2, lit "Unclear").
Proof. vm_compute. repeat split; reflexivity. Qed.

(** The scenario of the specification with a raising detector and a
    raising translator: the router still returns the input text. *)
Lemma router_survives_failures :
  let text := lit "the who is hiding the cure" in
  process_language (U := ascii_unicode)
                   (fun _ => Raise) (Some (fun _ _ => Raise)) text
  = Ok (text, lit "unknown")
  /\ process_language (U := ascii_unicode)
                      (fun _ => Ok (lit "fr")) (Some (fun _ _ => Raise)) text
     = Ok (text, lit "fr")
  /\ process_language (U := ascii_unicode)
                      (fun _ => Ok (lit "fr")) None text
     = Ok (text, lit "fr")
  /\ process_language (U := ascii_unicode)
                      (fun _ => Raise) None []
     = Ok ([], lit "unknown").
Proof. vm_compute. repeat split; reflexivity. Qed.
(** * Further properties of the code *)

(** ** [clean_text]: shape of the result, fixed points, letter case *)

Section CleanTextMore.
Context {U : Unicode} {L : UnicodeLaws U}.

Lemma str_lower_idem (t : str) : str_lower (str_lower t) = str_lower t.
Proof. unfold str_lower. apply lower_go_fixed, lower_go_lowered. Qed.

Lemma tidy_no_url (u : str) :
  Forall tidy_char u -> re_search url_pattern u = false.
Proof.
  induction 1 as [|c r Hc Hr IH]; [reflexivity|].
  assert (Hs : Forall tidy_char (c :: r)) by (constructor; assumption).
  assert (N : forall p, In 58%N p \/ In 46%N p ->
                        starts_with p (c :: r) = false).
  { intros p Hp. destruct (starts_with p (c :: r)) eqn:E; [|reflexivity].
    pose proof (@starts_with_Forall tidy_char p (c :: r) E Hs) as Fp.
    rewrite Forall_forall in Fp. exfalso.
    destruct Hp as [Hp|Hp]; apply Fp in Hp;
      revert Hp; apply not_tidy_punct; auto. }
  cbn [re_search]. unfold url_pattern at 1.
  rewrite (N (lit "https://")) by (left; vm_compute; tauto).
  rewrite (N (lit "http://")) by (left; vm_compute; tauto).
  rewrite (N (lit "www.")) by (right; vm_compute; tauto).
  exact IH.
Qed.

Lemma tidy_no_punctuation (u : str) :
  Forall tidy_char u -> re_search not_word_or_space u = false.
Proof.
  induction 1 as [|c r Hc Hr IH]; [reflexivity|].
  cbn [re_search not_word_or_space].
  destruct Hc as [->|(_ & A & _)].
  - rewrite space_is_space, orb_true_r. exact IH.
  - unfold is_word. rewrite A. exact IH.
Qed.

Lemma ws_sep_no_double (c d : char) (p : bool) (u : str) :
  is_space c = true -> is_space d = true ->
  ws_sep p u = true -> contains [c; d] u = false.
Proof.
  intros Hc Hd. revert p. induction u as [|x r IH]; intros p W.
  - reflexivity.
  - cbn [contains]. cbn [ws_sep] in W.
    destruct (is_space x) eqn:Sx.
    + apply andb_true_iff in W as [_ W]. rewrite (IH _ W), orb_false_r.
      destruct r as [|y r']; cbn [starts_with].
      * apply andb_false_r.
      * cbn [ws_sep] in W. destruct (is_space y) eqn:Sy; [discriminate|].
        unfold char_eqb.
        destruct (N.eqb_spec d y) as [->|_]; [congruence|].
        rewrite andb_false_r. reflexivity.
    + rewrite (IH _ W), orb_false_r. cbn [starts_with]. unfold char_eqb.
      destruct (N.eqb_spec c x) as [->|_]; [congruence|reflexivity].
Qed.

End CleanTextMore.

(** X1.  Whatever the input, the text [clean_text] returns consists of
    plain spaces and of alphanumeric characters that are neither whitespace
    nor the underscore; [str.lower] leaves it unchanged; it has no two
    spaces in a row and no whitespace at either end; and neither the URL
    pattern nor the punctuation pattern of the function matches anywhere in
    it. *)
Theorem clean_text_output_shape (U : Unicode) (L : UnicodeLaws U)
        (t : option str) :
  let c := clean_text t in
  Forall (fun ch => ch = 32%N
                    \/ (is_space ch = false /\ is_alnum ch = true
                        /\ ch <> 95%N)) c
  /\ str_lower c = c
  /\ contains (lit "  ") c = false
  /\ str_strip c = c
  /\ re_search url_pattern c = false
  /\ re_search not_word_or_space c = false.
Proof.
  assert (N : normal (clean_text t)).
  { destruct t as [t|]; [apply clean_text_normal|].
    repeat split; constructor. }
  cbv zeta. destruct N as (T & Lw & W & S).
  split; [exact T|].
  split; [apply lower_go_fixed; exact Lw|].
  split; [apply (@ws_sep_no_double U 32%N 32%N false);
          auto using space_is_space|].
  split; [exact S|].
  split; [apply tidy_no_url|apply tidy_no_punctuation]; exact T.
Qed.

Lemma clean_text_output_shape_witness :
  let c := clean_text (U := ascii_unicode)
                      (Some (lit "Visit  my_site: pay 5000/- NOW!! ")) in
  c = lit "visit my site pay 5000 now"
  /\ str_lower c = c /\ contains (lit "  ") c = false /\ str_strip c = c.
Proof.
  split; [reflexivity|].
  pose proof (@clean_text_output_shape ascii_unicode ascii_laws
                (Some (lit "Visit  my_site: pay 5000/- NOW!! "))) as H.
  cbv zeta in H. destruct H as (_ & A & B & C & _).
  split; [exact A|]. split; [exact B|exact C].
Defined.

(** X2.  The fixed points of [clean_text] are exactly the strings in
    normal form: [clean_text] returns [u] unchanged if and only if [u]
    consists of tidy, lowercase-stable characters, has no two adjacent
    whitespace characters and no whitespace at either end. *)
Theorem clean_text_fixed_points (U : Unicode) (L : UnicodeLaws U)
        (u : str) :
  clean_text (Some u) = u <-> normal u.
Proof.
  split.
  - intros E. rewrite <- E. apply clean_text_normal.
  - apply clean_text_fixes_normal.
Qed.

Lemma clean_text_fixed_points_witness :
  (clean_text (U := ascii_unicode) (Some (lit "read this now"))
   = lit "read this now" <-> normal (lit "read this now"))
  /\ (clean_text (U := ascii_unicode) (Some (lit "Read this"))
      = lit "Read this" <-> normal (lit "Read this")).
Proof.
  split; apply (@clean_text_fixed_points ascii_unicode ascii_laws).
Defined.

(** X3.  [clean_text] does not depend on the letter case of its input:
    lowering the input first gives the same result. *)
Theorem clean_text_ignores_case (U : Unicode) (L : UnicodeLaws U)
        (t : str) :
  clean_text (Some (str_lower t)) = clean_text (Some t).
Proof.
  unfold clean_text.
  destruct t as [|c r]; [reflexivity|].
  change (falsy (c :: r)) with false. cbv iota.
  destruct (falsy (str_lower (c :: r))) eqn:F.
  - destruct (str_lower (c :: r)); [reflexivity|discriminate].
  - rewrite str_lower_idem. reflexivity.
Qed.

Lemma clean_text_ignores_case_witness :
  clean_text (U := ascii_unicode)
             (Some (str_lower (lit "BREAKING: Banks CLOSED")))
  = clean_text (U := ascii_unicode) (Some (lit "BREAKING: Banks CLOSED"))
  /\ clean_text (U := ascii_unicode) (Some (lit "BREAKING: Banks CLOSED"))
     = lit "breaking banks closed".
Proof.
  split; [|reflexivity].
  apply (@clean_text_ignores_case ascii_unicode ascii_laws).
Defined.

(** ** [process_language]: routing *)

Section Routing.
Context {U : Unicode} {L : UnicodeLaws U}.
Variable detect : str -> res str.
Variable translator : option (str -> str -> res str).

Lemma lower_mr : str_lower (lit "mr") = lit "mr".
Proof.
  rewrite str_lower_ascii; [reflexivity|].
  repeat constructor.
Qed.

Lemma lower_hi : str_lower (lit "hi") = lit "hi".
Proof.
  rewrite str_lower_ascii; [reflexivity|].
  repeat constructor.
Qed.

Lemma translate_step_foreign (text lang : str) :
  lang = lit "mr" \/ lang = lit "hi" ->
  translate_step translator text lang
  = Ok (match translator with
        | Some translate =>
            match translate text lang with Ok t => t | Raise => text end
        | None => text
        end).
Proof.
  unfold translate_step.
  intros [-> | ->]; [rewrite lower_mr|rewrite lower_hi];
    (change (negb (falsy (lit _)) && negb (str_eqb (lit _) (lit "en"))
             && negb (str_eqb (lit _) (lit "unknown"))) with true;
     cbv iota; destruct translator as [translate|]; [|reflexivity];
     destruct (translate text _); reflexivity).
Qed.

End Routing.

(** X4.  A text with at least one character of the Devanagari block is
    routed without consulting the language detector: the language is "mr"
    when one of the six Marathi clue words occurs in the lowercased text
    and "hi" otherwise, and the text handed on is the translator's result
    for that language, or the text itself when the translator is absent or
    raises. *)
Theorem devanagari_bypasses_detector
        (U : Unicode) (L : UnicodeLaws U)
        (detect : str -> res str)
        (translator : option (str -> str -> res str)) (text : str) :
  re_search devanagari text = true ->
  let lang :=
    if existsb (fun clue => contains clue (str_lower text)) marathi_clues
    then lit "mr" else lit "hi" in
  process_language detect translator text
  = Ok (match translator with
        | Some translate =>
            match translate text lang with Ok t => t | Raise => text end
        | None => text
        end, lang).
Proof.
  intros D. cbv zeta.
  assert (N : falsy text = false)
    by (destruct text; [discriminate|reflexivity]).
  unfold process_language, detect_language. rewrite N, D.
  change (negb false && true) with true. cbv iota.
  destruct (existsb _ marathi_clues);
    rewrite (@translate_step_foreign U L translator) by auto; reflexivity.
Qed.

Lemma devanagari_bypasses_detector_witness :
  let text := [2350; 2354; 2366; 32; 87; 72; 79]%N in
  re_search devanagari text = true
  /\ process_language (U := ascii_unicode)
                      (fun _ => Ok (lit "ne")) (Some (fun _ _ => Raise)) text
     = Ok (text, lit "mr").
Proof.
  split; [reflexivity|].
  exact (@devanagari_bypasses_detector ascii_unicode ascii_laws
           (fun _ => Ok (lit "ne")) (Some (fun _ _ => Raise))
           [2350; 2354; 2366; 32; 87; 72; 79]%N eq_refl).
Defined.

(** X5.  A text without Devanagari characters whose detected language is
    English (in any letter case), "unknown" or the empty string is never
    handed to the translator: it is returned as it is, with the language
    the detector gave. *)
Theorem english_is_not_translated
        (U : Unicode) (detect : str -> res str)
        (translator : option (str -> str -> res str)) (text lang : str) :
  re_search devanagari text = false ->
  detect text = Ok lang ->
  str_lower lang = lit "en" \/ lang = lit "unknown" \/ lang = [] ->
  process_language detect translator text = Ok (text, lang).
Proof.
  intros D E H.
  unfold process_language, detect_language.
  rewrite D, andb_false_r, E. cbn [try_except].
  unfold translate_step.
  destruct H as [H|[H|H]].
  - rewrite H. change (str_eqb (lit "en") (lit "en")) with true.
    rewrite andb_false_r. reflexivity.
  - subst lang. change (str_eqb (lit "unknown") (lit "unknown")) with true.
    rewrite andb_false_r. reflexivity.
  - subst lang. reflexivity.
Qed.

Lemma english_is_not_translated_witness :
  process_language (U := ascii_unicode)
                   (fun _ => Ok (lit "EN"))
                   (Some (fun _ _ => Ok (lit "never used")))
                   (lit "Banks closed")
  = Ok (lit "Banks closed", lit "EN").
Proof.
  apply (@english_is_not_translated ascii_unicode); [reflexivity..|].
  left. reflexivity.
Defined.

(** ** [preprocessing_and_translation] *)

(** X6.  Whatever the detector and the translator return or raise, the
    processed text [preprocessing_and_translation] returns is in the normal
    form of [clean_text] (so cleaning it again changes nothing), and an
    empty input gives the empty text with the language "unknown". *)
Theorem preprocessing_output_is_clean
        (U : Unicode) (L : UnicodeLaws U) (detect : str -> res str)
        (translator : option (str -> str -> res str)) (raw_input : str) :
  let '(processed, lang) :=
    preprocessing_and_translation detect translator raw_input in
  normal processed
  /\ clean_text (Some processed) = processed
  /\ (raw_input = [] -> processed = [] /\ lang = lit "unknown").
Proof.
  unfold preprocessing_and_translation.
  destruct raw_input as [|c r].
  - cbn [falsy]. split; [repeat split; constructor|].
    split; [reflexivity|]. intros _. split; reflexivity.
  - cbn [falsy]. destruct (guard (c :: r)) as [placeholder_map tmp].
    destruct (match process_language detect translator tmp with
              | Ok r0 => r0
              | Raise => (tmp, lit "unknown")
              end) as [translated_text detected_lang].
    split; [apply clean_text_normal|].
    split; [apply clean_text_fixes_normal, clean_text_normal|].
    discriminate.
Qed.

Lemma preprocessing_output_is_clean_witness :
  let r := preprocessing_and_translation (U := ascii_unicode)
             (fun _ => Ok (lit "fr"))
             (Some (fun text _ => Ok (text ++ lit " (Translated!)")))
             (lit "Schools CLOSED on 01012025") in
  r = (lit "schools closed on 01012025 translated", lit "fr")
  /\ normal (U := ascii_unicode) (fst r).
Proof.
  cbv zeta. split; [vm_compute; reflexivity|].
  pose proof (@preprocessing_output_is_clean ascii_unicode ascii_laws
                (fun _ => Ok (lit "fr"))
                (Some (fun text _ => Ok (text ++ lit " (Translated!)")))
                (lit "Schools CLOSED on 01012025")) as H.
  destruct (preprocessing_and_translation _ _ _) as [p l].
  exact (proj1 H).
Defined.

(** *** The guard leaves alone a text with nothing to protect *)

Lemma no_match_no_span (m : matcher) (s : str) :
  re_search m s = false -> forall skip pos, spans_go m skip pos s = [].
Proof.
  induction s as [|c r IH]; intros H skip pos; [reflexivity|].
  cbn [re_search] in H. cbn [spans_go].
  destruct (m (c :: r)); [discriminate|].
  destruct skip; apply IH; exact H.
Qed.

Section GuardIdle.
Context {U : Unicode}.

Lemma guard_tokens_idle (toks : list str) (i : nat) (d : dict) (s : str) :
  existsb (fun tok => re_search (literal_ignorecase tok) s) toks = false ->
  guard_tokens i toks (d, s) = (d, s).
Proof.
  revert i. induction toks as [|tok toks IH]; intros i H; [reflexivity|].
  cbn [existsb] in H. apply orb_false_iff in H as [H1 H2].
  cbn [guard_tokens snd]. unfold re_finditer.
  rewrite (no_match_no_span _ _ H1). cbn [guard_matches].
  apply IH. exact H2.
Qed.

Lemma existsb_false_incl (A : Type) (f : A -> bool) (l l' : list A) :
  incl l' l -> existsb f l = false -> existsb f l' = false.
Proof.
  intros I H. destruct (existsb f l') eqn:E; [|reflexivity].
  apply existsb_exists in E as (x & Hx & Fx).
  assert (T : existsb f l = true)
    by (apply existsb_exists; exists x; split; [apply I; exact Hx|exact Fx]).
  congruence.
Qed.

Lemma sorted_tokens_incl :
  incl (sorted_by_len_desc critical_tokens) critical_tokens.
Proof.
  assert (E : sorted_by_len_desc critical_tokens
              = List.map lit
                  [ "withdraw money"; "indefinitely"; "government";
                    "emergency"; "lockdown"; "withdraw"; "urgently";
                    "schools"; "closed"; "urgent" ]%string)
    by reflexivity.
  rewrite E. unfold critical_tokens. intros x Hx. cbn [List.map In] in *.
  tauto.
Qed.

End GuardIdle.

(** X7.  On a non-empty input with no run of three or more decimal digits
    and no occurrence (in any letter case) of a critical token, the guard
    creates no placeholder: the text goes to [process_language] as it is
    and the result is the cleaned text that [process_language] returned. *)
Theorem guard_idle_without_tokens
        (U : Unicode) (raw_input : str) :
  raw_input <> [] ->
  re_search num_pattern raw_input = false ->
  existsb (fun tok => re_search (literal_ignorecase tok) raw_input)
          critical_tokens = false ->
  guard raw_input = ([], raw_input)
  /\ forall (detect : str -> res str)
            (translator : option (str -> str -> res str)),
      exists text lang,
        process_language detect translator raw_input = Ok (text, lang)
        /\ preprocessing_and_translation detect translator raw_input
           = (clean_text (Some text), lang).
Proof.
  intros NE Hn Ht.
  assert (G : guard raw_input = ([], raw_input)).
  { unfold guard, re_findall, re_finditer.
    rewrite (no_match_no_span _ _ Hn). cbn [List.map guard_nums].
    apply guard_tokens_idle.
    exact (existsb_false_incl _ sorted_tokens_incl Ht). }
  split; [exact G|]. intros detect translator.
  destruct (detect_language_total detect raw_input) as [lang Hl].
  destruct (translate_step_total translator raw_input lang) as [text Hx].
  exists text, lang.
  assert (P : process_language detect translator raw_input = Ok (text, lang)).
  { unfold process_language. rewrite Hl, Hx. reflexivity. }
  split; [exact P|].
  unfold preprocessing_and_translation.
  destruct raw_input; [contradiction|]. cbn [falsy].
  rewrite G, P. reflexivity.
Qed.

Lemma guard_idle_without_tokens_witness :
  guard (U := ascii_unicode) (lit "Hello World 42")
  = ([], lit "Hello World 42").
Proof.
  refine (proj1 (@guard_idle_without_tokens ascii_unicode
                   (lit "Hello World 42") _ _ _));
    [discriminate|reflexivity|reflexivity].
Defined.

(** ** [calculate_confidence_score]: the priority rules *)

Section FuserRules.
Context {U : Unicode}.

Lemma has_verdict_perm (v : str) (rs rs' : list FactCheckResult) :
  Permutation rs rs' ->
  has_verdict v (verdicts_of rs) = has_verdict v (verdicts_of rs').
Proof.
  intros P.
  destruct (has_verdict v (verdicts_of rs')) eqn:E.
  - apply has_verdict_true_iff in E as (r & Hr & E).
    apply has_verdict_true_iff. exists r. split; [|exact E].
    apply (Permutation_in r (Permutation_sym P) Hr).
  - apply has_verdict_false_iff. intros r Hr.
    rewrite has_verdict_false_iff in E. apply E.
    apply (Permutation_in r P Hr).
Qed.

Lemma filter_length_perm (A : Type) (f : A -> bool) (l l' : list A) :
  Permutation l l' ->
  List.length (filter f l) = List.length (filter f l').
Proof.
  induction 1 as [|x l l' _ IH|x y l|l l' l'' _ IH1 _ IH2]; cbn [filter].
  - reflexivity.
  - destruct (f x); cbn [List.length]; congruence.
  - destruct (f x), (f y); reflexivity.
  - congruence.
Qed.

(** the three outcomes of the priority rules *)
Lemma priority_outcome (m : float) (r : FactCheckResult)
      (rs : list FactCheckResult) :
  let all := r :: rs in
  let F := has_verdict (lit "false") (verdicts_of all) in
  let T := has_verdict (lit "true") (verdicts_of all) in
  let X := has_verdict (lit "mixed") (verdicts_of all) in
  F || T || X = true ->
  calculate_confidence_score m all
  = Ok (if F && negb T then (95%Z, lit "Fake")
        else if T && negb F then (95%Z, lit "Real")
        else (60%Z, lit "Unclear")).
Proof.
  cbv zeta. intros H. unfold calculate_confidence_score. cbv zeta.
  destruct (has_verdict (lit "false") (verdicts_of (r :: rs))),
           (has_verdict (lit "true") (verdicts_of (r :: rs))),
           (has_verdict (lit "mixed") (verdicts_of (r :: rs)));
    try discriminate H; reflexivity.
Qed.

End FuserRules.

Lemma ok_pair_inj (A B : Type) (a a' : A) (b b' : B) :
  @Ok (A * B) (a, b) = Ok (a', b') -> a = a' /\ b = b'.
Proof. intros H. injection H. auto. Qed.

(** X8.  When at least one external verdict reads "false", "true" or
    "mixed" (compared after lowering), the internal score plays no part:
    the fuser returns the same answer for every score, and that answer is
    (95, "Fake"), (95, "Real") or (60, "Unclear"). *)
Theorem external_verdict_overrides_score
        (U : Unicode) (api_results : list FactCheckResult) :
  (exists r, In r api_results
             /\ (str_lower (verdict r) = lit "false"
                 \/ str_lower (verdict r) = lit "true"
                 \/ str_lower (verdict r) = lit "mixed")) ->
  (forall m1 m2 : float,
      calculate_confidence_score m1 api_results
      = calculate_confidence_score m2 api_results)
  /\ (forall m : float,
         In (calculate_confidence_score m api_results)
            [Ok (95%Z, lit "Fake"); Ok (95%Z, lit "Real");
             Ok (60%Z, lit "Unclear")]).
Proof.
  intros (r & Hr & Hv).
  destruct api_results as [|r0 rs]; [contradiction|].
  assert (H : has_verdict (lit "false") (verdicts_of (r0 :: rs))
              || has_verdict (lit "true") (verdicts_of (r0 :: rs))
              || has_verdict (lit "mixed") (verdicts_of (r0 :: rs)) = true).
  { destruct Hv as [E|[E|E]];
      assert (T := proj2 (has_verdict_true_iff _ (r0 :: rs))
                         (ex_intro _ r (conj Hr E)));
      rewrite T; rewrite ?orb_true_r; reflexivity. }
  split.
  - intros m1 m2. rewrite !(priority_outcome _ _ _ H). reflexivity.
  - intros m. rewrite (priority_outcome _ _ _ H).
    destruct (_ && _); [left; reflexivity|].
    destruct (_ && _); [right; left; reflexivity|].
    right; right; left; reflexivity.
Qed.

Lemma external_verdict_overrides_score_witness :
  calculate_confidence_score (U := ascii_unicode) f0_0 [vaccine_result]
  = calculate_confidence_score (U := ascii_unicode) f1_0 [vaccine_result]
  /\ calculate_confidence_score (U := ascii_unicode) f1_0 [vaccine_result]
     = Ok (60%Z, lit "Unclear").
Proof.
  split; [|reflexivity].
  refine (proj1 (@external_verdict_overrides_score ascii_unicode
                   [vaccine_result] _) f0_0 f1_0).
  exists vaccine_result. split; [left; reflexivity|].
  right; right; reflexivity.
Defined.

(** X9.  The fuser does not depend on the order of the fact-check
    results: two lists that are permutations of each other get the same
    answer, for every internal score. *)
Theorem fuser_ignores_result_order
        (U : Unicode) (misinfo_score : float)
        (rs rs' : list FactCheckResult) :
  Permutation rs rs' ->
  calculate_confidence_score misinfo_score rs
  = calculate_confidence_score misinfo_score rs'.
Proof.
  intros P. unfold calculate_confidence_score. cbv zeta.
  destruct rs as [|a l], rs' as [|a' l'].
  - reflexivity.
  - apply Permutation_nil in P. discriminate.
  - apply Permutation_sym, Permutation_nil in P. discriminate.
  - rewrite !(has_verdict_perm _ P).
    rewrite (Permutation_length P).
    rewrite (filter_length_perm _ P). reflexivity.
Qed.

Lemma fuser_ignores_result_order_witness :
  calculate_confidence_score (U := ascii_unicode) f0_5
                             [vaccine_result; pib_result]
  = calculate_confidence_score (U := ascii_unicode) f0_5
                               [pib_result; vaccine_result].
Proof.
  apply fuser_ignores_result_order. apply perm_swap.
Defined.

(** X10.  The answer (95, "Real") has one cause only: for every score and
    every result list, the fuser returns it exactly when some verdict reads
    "true" and none reads "false" (both after lowering). *)
Theorem real_95_iff_true_verdict
        (U : Unicode) (misinfo_score : float)
        (api_results : list FactCheckResult) :
  calculate_confidence_score misinfo_score api_results
  = Ok (95%Z, lit "Real")
  <-> (exists r, In r api_results /\ str_lower (verdict r) = lit "true")
      /\ (forall r, In r api_results ->
                    str_lower (verdict r) <> lit "false").
Proof.
  rewrite <- has_verdict_true_iff, <- has_verdict_false_iff.
  assert (V95 : verdict_of_score 95 <> lit "Real")
    by (vm_compute; discriminate).
  assert (S : forall (x : res Z) (k : Z -> Z),
             (z <- x ;; Ok (k z, verdict_of_score (k z)))
             <> Ok (95%Z, lit "Real")).
  { intros [z|] k H; [|discriminate]. cbn [bind] in H.
    injection H as H1 H2. rewrite H1 in H2. exact (V95 H2). }
  unfold calculate_confidence_score. cbv zeta.
  destruct api_results as [|r rs].
  - split; [|intros [H _]; discriminate H].
    intros H. exfalso. destruct (flt f0_7 misinfo_score).
    + destruct (py_round _); [|discriminate]. cbn [bind] in H.
      injection H as _ H. revert H. vm_compute. discriminate.
    + exact (S _ (fun r => Z.max 0 (Z.min 100 r)) H).
  - destruct (has_verdict (lit "false") (verdicts_of (r :: rs))),
             (has_verdict (lit "true") (verdicts_of (r :: rs))),
             (has_verdict (lit "mixed") (verdicts_of (r :: rs)));
      cbn [andb negb orb];
      first
        [ split; [split; reflexivity|reflexivity]
        | split; [intros H; exfalso;
                  exact (S _ (fun r => Z.max 0 (Z.min 100 r)) H)
                 |intros [? ?]; discriminate]
        | split; [intros H; exfalso; apply ok_pair_inj in H as [_ H];
                  revert H; vm_compute; discriminate
                 |intros [? ?]; discriminate] ].
Qed.

(** X11.  Whenever the fuser returns, the verdict and the confidence agree:
    the confidence lies between 0 and 100, "Fake" comes with a confidence
    of at least 60, "Unclear" with one from 34 to 65, and "Real" with one
    of at most 33 or with 95. *)
Theorem verdict_matches_confidence
        (U : Unicode) (misinfo_score : float)
        (api_results : list FactCheckResult) (confidence : Z) (v : str) :
  calculate_confidence_score misinfo_score api_results
  = Ok (confidence, v) ->
  (0 <= confidence <= 100)%Z
  /\ (v = lit "Fake" /\ (60 <= confidence)%Z
      \/ v = lit "Unclear" /\ (34 <= confidence <= 65)%Z
      \/ v = lit "Real" /\ ((confidence <= 33)%Z \/ confidence = 95%Z)).
Proof.
  assert (S : forall (x : res Z),
             (z <- x ;; Ok (Z.max 0 (Z.min 100 z),
                            verdict_of_score (Z.max 0 (Z.min 100 z))))
             = Ok (confidence, v) ->
             (0 <= confidence <= 100)%Z
             /\ (v = lit "Fake" /\ (60 <= confidence)%Z
                 \/ v = lit "Unclear" /\ (34 <= confidence <= 65)%Z
                 \/ v = lit "Real"
                    /\ ((confidence <= 33)%Z \/ confidence = 95%Z))).
  { intros [z|] H; [|discriminate]. cbn [bind] in H.
    injection H as H1 H2. subst v.
    rewrite H1. split; [lia|]. unfold verdict_of_score.
    destruct (Z.leb_spec 66 confidence); [left; split; [reflexivity|lia]|].
    destruct (Z.leb_spec confidence 33).
    - right; right. split; [reflexivity|lia].
    - right; left. split; [reflexivity|lia]. }
  unfold calculate_confidence_score. cbv zeta.
  destruct api_results as [|r rs].
  - destruct (flt f0_7 misinfo_score); [|apply S].
    destruct (py_round _) as [z|]; [|discriminate]. cbn [bind].
    intros H. injection H as H1 H2. subst v. split; [lia|].
    left. split; [reflexivity|lia].
  - destruct (has_verdict (lit "false") (verdicts_of (r :: rs))),
             (has_verdict (lit "true") (verdicts_of (r :: rs))),
             (has_verdict (lit "mixed") (verdicts_of (r :: rs)));
      cbn [andb negb orb];
      try apply S;
      intros H; injection H as H1 H2; subst v confidence;
      (split; [lia|]);
      first [left; split; [reflexivity|lia]
            |right; left; split; [reflexivity|lia]
            |right; right; split; [reflexivity|lia]].
Qed.

Lemma verdict_matches_confidence_witness :
  calculate_confidence_score (U := ascii_unicode) f0_5 [] 
  = Ok (50%Z, lit "Unclear")
  /\ (0 <= 50 <= 100)%Z.
Proof.
  split; [reflexivity|].
  exact (proj1 (@verdict_matches_confidence ascii_unicode f0_5 []
                  50%Z (lit "Unclear") eq_refl)).
Defined.

(** ** From the simulator to the verdict and the summary *)

Section Pipeline.
Context {U : Unicode} {L : UnicodeLaws U}.

Lemma catalog_verdict_list (b1 b2 b3 b4 : bool) :
  verdicts_of (catalog_pick b1 b2 b3 b4)
  = (if b1 then [lit "false"] else [])
    ++ (if b2 then [lit "false"] else [])
    ++ (if b3 then [lit "false"] else [])
    ++ (if b4 then [lit "mixed"] else []).
Proof.
  unfold verdicts_of, catalog_pick. rewrite !map_app.
  destruct b1, b2, b3, b4; cbn [List.map verdict claim_false_result
    who_result pib_result vaccine_result];
    rewrite ?lower_False, ?lower_Mixed; reflexivity.
Qed.

Lemma catalog_has (b1 b2 b3 b4 : bool) :
  has_verdict (lit "false") (verdicts_of (catalog_pick b1 b2 b3 b4))
  = b1 || b2 || b3
  /\ has_verdict (lit "true") (verdicts_of (catalog_pick b1 b2 b3 b4))
     = false
  /\ has_verdict (lit "mixed") (verdicts_of (catalog_pick b1 b2 b3 b4))
     = b4.
Proof.
  rewrite catalog_verdict_list.
  destruct b1, b2, b3, b4; vm_compute; auto.
Qed.

(** the simulator, by the conditions of its rules *)
Lemma query_by_rules (text : str) :
  exists b1 b2 b3 b4,
    query_google_fact_check text = catalog_pick b1 b2 b3 b4
    /\ refuting_rule (str_lower text) = b1 || b2 || b3
    /\ vaccine_rule (str_lower text) = b4.
Proof.
  unfold query_google_fact_check.
  destruct text as [|c r].
  - exists false, false, false, false. repeat split; reflexivity.
  - cbn [falsy]. cbv zeta. unfold refuting_rule, vaccine_rule.
    match goal with
    | |- context [append_if ?c4 vaccine_result
                    (append_if ?c3 pib_result
                       (append_if ?c2 who_result
                          (append_if ?c1 claim_false_result []))) ] =>
        exists c1, c2, c3, c4;
        split; [destruct c1, c2, c3, c4; reflexivity|split; reflexivity]
    end.
Qed.

End Pipeline.

Section Summary.
Context {U : Unicode}.

Lemma summarize_nonempty (rs : list FactCheckResult) (v : str) :
  rs <> [] ->
  summarize_verified_facts rs v
  = if str_eqb v (lit "Unclear")
       && has_verdict (lit "mixed") (verdicts_of rs)
    then mixed_summary (cites_of rs)
    else if str_eqb v (lit "Fake") then fake_summary (cites_of rs)
    else if str_eqb v (lit "Real") then real_summary (cites_of rs)
    else default_summary.
Proof. destruct rs; [contradiction|reflexivity]. Qed.

End Summary.

(** X12.  On the results of the simulator the final verdict is decided by
    keywords alone, whatever the internal score: a claim that triggers one
    of the three rules with a "False" result gets (95, "Fake"); a claim
    that triggers only the vaccine rule gets the single "Mixed" result and
    (60, "Unclear"); a claim that triggers no rule gets no result. *)
Theorem simulated_verdict_by_keywords
        (U : Unicode) (L : UnicodeLaws U) (text : str) :
  let lower := str_lower text in
  let rs := query_google_fact_check text in
  (refuting_rule lower = true ->
   forall m, calculate_confidence_score m rs = Ok (95%Z, lit "Fake"))
  /\ (refuting_rule lower = false -> vaccine_rule lower = true ->
      rs = [vaccine_result]
      /\ forall m, calculate_confidence_score m rs
                   = Ok (60%Z, lit "Unclear"))
  /\ (refuting_rule lower = false -> vaccine_rule lower = false ->
      rs = []).
Proof.
  cbv zeta.
  destruct (query_by_rules text) as (b1 & b2 & b3 & b4 & -> & -> & ->).
  destruct (catalog_has b1 b2 b3 b4) as (F & T & X).
  split; [|split].
  - intros H m. apply false_priority; congruence.
  - intros H1 H2. subst b4.
    split; [destruct b1, b2, b3; try discriminate H1; reflexivity|].
    intros m. apply mixed_only; congruence.
  - intros H1 H2. subst b4.
    destruct b1, b2, b3; try discriminate H1; reflexivity.
Qed.

Lemma simulated_verdict_by_keywords_witness :
  refuting_rule (str_lower (U := ascii_unicode)
                           (lit "This HOAX about banks")) = true
  /\ calculate_confidence_score (U := ascii_unicode) f0_0
       (query_google_fact_check (lit "This HOAX about banks"))
     = Ok (95%Z, lit "Fake").
Proof.
  split; [reflexivity|].
  exact (proj1 (@simulated_verdict_by_keywords ascii_unicode ascii_laws
                  (lit "This HOAX about banks")) eq_refl f0_0).
Defined.

(** X13.  In the pipeline of the page (results of the simulator, verdict
    of the fuser on them), the English summary is the no-results sentence
    when no rule fired, the "contradict the claim" sentence when a rule
    with a "False" result fired, and the "mixed evidence" sentence
    otherwise, each citing the first two titles; the "support the claim"
    sentence and the default sentence are never produced. *)
Theorem simulated_summary
        (U : Unicode) (L : UnicodeLaws U) (text : str)
        (m : float) (confidence : Z) (v : str) :
  let rs := query_google_fact_check text in
  calculate_confidence_score m rs = Ok (confidence, v) ->
  summarize_verified_facts rs v
  = match rs with
    | [] => no_external_summary
    | _ :: _ =>
        if refuting_rule (str_lower text)
        then fake_summary (cites_of rs)
        else mixed_summary (cites_of rs)
    end.
Proof.
  cbv zeta. intros H.
  destruct (query_by_rules text) as (b1 & b2 & b3 & b4 & E & R & V).
  destruct (catalog_has b1 b2 b3 b4) as (F & T & X).
  rewrite R. rewrite E in *.
  destruct (catalog_pick b1 b2 b3 b4) as [|r rs] eqn:P; [reflexivity|].
  rewrite summarize_nonempty by discriminate.
  destruct (b1 || b2 || b3) eqn:B.
  - rewrite (false_priority m _ F T) in H.
    apply ok_pair_inj in H as [_ <-]. reflexivity.
  - assert (X' : b4 = true).
    { destruct b1, b2, b3; try discriminate B.
      destruct b4; [reflexivity|discriminate P]. }
    rewrite X' in X.
    rewrite (mixed_only m _ F T X) in H.
    apply ok_pair_inj in H as [_ <-]. rewrite X. reflexivity.
Qed.

Lemma simulated_summary_witness :
  summarize_verified_facts (U := ascii_unicode)
    (query_google_fact_check (lit "new vaccine")) (lit "Unclear")
  = mixed_summary (lit "Fact-check: Mixed evidence on vaccine claim").
Proof.
  exact (@simulated_summary ascii_unicode ascii_laws (lit "new vaccine")
           f0_0 60%Z (lit "Unclear") eq_refl).
Defined.

(** ** [generate_multilingual_explanation] *)

Lemma multilingual_keys
      (translate_to : option (str -> str -> res str)) (summary : str) :
  let out := generate_multilingual_explanation translate_to summary in
  List.map fst out = [lit "en"; lit "hi"; lit "mr"]
  /\ forall default, dict_get out (lit "en") default = summary.
Proof.
  cbv zeta. unfold generate_multilingual_explanation.
  destruct translate_to as [translate|]; [|split; reflexivity].
  destruct (translate summary (lit "hi")), (translate summary (lit "mr"));
    split; reflexivity.
Qed.

(** X14.  The dictionary of explanations always has exactly the keys
    "en", "hi" and "mr", in this order; "en" holds the summary; "hi" and
    "mr" hold what the translator returned for that language, and the
    English summary when the translator is absent or raised for that
    language (a failure for one language does not affect the other).  So a
    lookup with a default never returns the default. *)
Theorem multilingual_explanation_complete
        (translate_to : option (str -> str -> res str))
        (summary default : str) :
  let out := generate_multilingual_explanation translate_to summary in
  let expected (dest : str) :=
    match translate_to with
    | Some translate =>
        match translate summary dest with Ok t => t | Raise => summary end
    | None => summary
    end in
  List.map fst out = [lit "en"; lit "hi"; lit "mr"]
  /\ dict_get out (lit "en") default = summary
  /\ dict_get out (lit "hi") default = expected (lit "hi")
  /\ dict_get out (lit "mr") default = expected (lit "mr").
Proof.
  cbv zeta. unfold generate_multilingual_explanation.
  destruct translate_to as [translate|]; [|repeat split; reflexivity].
  destruct (translate summary (lit "hi")), (translate summary (lit "mr"));
    repeat split; reflexivity.
Qed.

(** ** More on the order of binary64 numbers *)

Ltac order_cases x y z :=
  destruct x as [[|]|[|]| |[|] ? ?], y as [[|]|[|]| |[|] ? ?],
           z as [[|]|[|]| |[|] ? ?]; simpl;
  try discriminate; try reflexivity;
  intros; compare_cases; simpl in *;
  try discriminate; try reflexivity; try lia.

Lemma fle_trans (x y z : float) :
  fle x y = true -> fle y z = true -> fle x z = true.
Proof. unfold fle, SFleb. order_cases x y z. Qed.

Lemma flt_fle_trans (x y z : float) :
  flt x y = true -> fle y z = true -> flt x z = true.
Proof. unfold flt, fle, SFltb, SFleb. order_cases x y z. Qed.

Lemma fle_flt_trans (x y z : float) :
  fle x y = true -> flt y z = true -> flt x z = true.
Proof. unfold flt, fle, SFltb, SFleb. order_cases x y z. Qed.

Lemma not_flt_fle (x y : float) :
  flt x y = false -> x <> S754_nan -> y <> S754_nan -> fle y x = true.
Proof.
  unfold flt, fle, SFltb, SFleb.
  destruct x as [[|]|[|]| |[|] ? ?], y as [[|]|[|]| |[|] ? ?]; simpl;
    try discriminate; try reflexivity; try congruence;
    intros; compare_cases; simpl in *;
    try discriminate; try reflexivity; try lia.
Qed.

Lemma fle_not_flt (x y : float) : fle x y = true -> flt y x = false.
Proof.
  intros H. destruct (flt y x) eqn:E; [|reflexivity].
  pose proof (flt_fle_trans _ _ _ E H) as T.
  rewrite flt_irrefl in T. discriminate.
Qed.

Lemma fle_left_not_nan (x y : float) : fle x y = true -> x <> S754_nan.
Proof. intros H ->. discriminate H. Qed.

Lemma py_min_le_1 (x : float) : fle (py_min f1_0 x) f1_0 = true.
Proof.
  unfold py_min. destruct (flt x f1_0) eqn:E; [|reflexivity].
  apply flt_fle. exact E.
Qed.

Lemma py_min_ge (c x : float) :
  fle c f1_0 = true -> fle c x = true -> fle c (py_min f1_0 x) = true.
Proof. intros H1 Hx. unfold py_min. destruct (flt x f1_0); assumption. Qed.

(** ** Signs of the results of the arithmetic operations *)

Lemma fadd_comm (x y : float) : fadd x y = fadd y x.
Proof.
  unfold fadd.
  destruct x as [sx|sx| |sx mx ex], y as [sy|sy| |sy my ey];
    try reflexivity.
  - destruct sx, sy; reflexivity.
  - destruct sx, sy; reflexivity.
  - unfold SFadd. rewrite (Z.min_comm ey ex), Z.add_comm. reflexivity.
Qed.

Lemma float_of_int_nonneg (n : Z) :
  (0 <= n)%Z ->
  nonneg (float_of_int n)
  /\ ((0 < n)%Z -> forall s, float_of_int n <> S754_zero s).
Proof.
  intros H. unfold float_of_int.
  destruct n as [|p|p]; try lia.
  - split; [exact I|lia].
  - cbn [binary_normalize].
    pose proof (binary_round_spec false p 0) as B. cbv zeta in B.
    change (SpecFloat.binary_round prec emax false p 0)
      with (SpecFloat.binary_round 53 1024 false p 0).
    destruct (binary_round 53 1024 false p 0) as [s'|s'| |s' m e'].
    + exfalso. destruct B as [_ B]. lia.
    + destruct B as [-> _]. split; [exact I|discriminate].
    + contradiction.
    + destruct B as (-> & _). split; [exact I|discriminate].
Qed.

Lemma fdiv_nonneg (x y : float) :
  nonneg x -> nonneg y -> (forall s, y <> S754_zero s) ->
  fdiv x y = S754_nan \/ nonneg (fdiv x y).
Proof.
  unfold fdiv.
  destruct x as [sx|sx| |sx mx ex], y as [sy|sy| |sy my ey];
    try contradiction;
    try (destruct sx; try contradiction);
    try (destruct sy; try contradiction); intros _ _ Hz;
    try (left; reflexivity); try (right; exact I);
    try (exfalso; exact (Hz _ eq_refl)).
  right. unfold SFdiv. change prec with 53%Z. change emax with 1024%Z.
  destruct (SFdiv_core_binary_spec mx my ex ey) as (Q & E & Hq & Hn & _).
  destruct (SFdiv_core_binary 53 1024 (Zpos mx) ex (Zpos my) ey)
    as [[q e'] l].
  cbn [fst snd] in Q, E. cbv zeta in Hq, Hn.
  rewrite <- Q in Hq, Hn. rewrite <- E in Hn.
  pose proof (binary_round_aux_spec (xorb false false) q e' l Hq Hn) as B.
  cbv zeta in B.
  destruct (binary_round_aux 53 1024 (xorb false false) q e' l)
    as [s'|s'| |s' m e'']; try exact I; try contradiction;
    destruct B as [-> _]; exact I.
Qed.

(** adding a number that is not negative does not take a positive
    constant down *)
Lemma fadd_ge_right (b : float) (c : float) :
  valid c = true ->
  match c with S754_finite false _ _ => True | _ => False end ->
  valid b = true -> nonneg b ->
  fle c (fadd b c) = true.
Proof.
  intros Vc Pc Vb Nb.
  destruct c as [| | |sc mc ec]; try contradiction.
  destruct sc; try contradiction.
  destruct b as [sb|sb| |sb mb eb]; try contradiction;
    try (destruct sb; try contradiction).
  - change (fadd (S754_zero true) (S754_finite false mc ec))
      with (S754_finite false mc ec).
    apply fle_refl. discriminate.
  - change (fadd (S754_zero false) (S754_finite false mc ec))
      with (S754_finite false mc ec).
    apply fle_refl. discriminate.
  - reflexivity.
  - rewrite fadd_comm.
    apply (SFadd_ge_left (S754_finite false mc ec) mb eb Vc I).
Qed.

(** ** [MisinformationDetector.score]: what the markers guarantee *)

Lemma count_go_nonneg (p : str) (k : nat) (s : str) :
  (0 <= count_go p k s)%Z.
Proof.
  revert k. induction s as [|c r IH]; intros k; cbn [count_go]; [lia|].
  destruct k; [|apply IH].
  destruct (starts_with p (c :: r)); [|apply IH].
  specialize (IH (Nat.pred (List.length p))). lia.
Qed.

Lemma term_count_ge (lower : str) (terms : list str) (z : Z) :
  (z <= fold_left
          (fun count term =>
             if contains term lower then (count + str_count term lower)%Z
             else count)
          terms z)%Z.
Proof.
  revert z. induction terms as [|t terms IH]; intros z; cbn [fold_left].
  - lia.
  - etransitivity; [|apply IH].
    destruct (contains t lower); [|lia].
    pose proof (count_go_nonneg t 0 lower). unfold str_count. lia.
Qed.

Lemma term_count_zero (lower : str) (terms : list str) :
  existsb (fun term => contains term lower) terms = false ->
  fold_left
    (fun count term =>
       if contains term lower then (count + str_count term lower)%Z
       else count)
    terms 0%Z = 0%Z.
Proof.
  induction terms as [|t terms IH]; intros H; cbn [fold_left].
  - reflexivity.
  - cbn [existsb] in H. apply orb_false_iff in H as [-> H]. exact (IH H).
Qed.

(** the quotient [count / token_count] of [score] *)
Lemma base_nonneg (count tokens : Z) :
  (0 <= count)%Z ->
  let base := fdiv (float_of_int count) (float_of_int (Z.max 1 tokens)) in
  valid base = true /\ (base = S754_nan \/ nonneg base).
Proof.
  intros Hc base. split; [apply SFdiv_valid|].
  destruct (float_of_int_nonneg Hc) as [Nc _].
  destruct (@float_of_int_nonneg (Z.max 1 tokens) ltac:(lia)) as [Nt Zt].
  apply fdiv_nonneg; [exact Nc|exact Nt|apply Zt; lia].
Qed.

Lemma base_zero (tokens : Z) :
  fdiv (float_of_int 0) (float_of_int (Z.max 1 tokens)) = f0_0.
Proof.
  destruct (@float_of_int_nonneg (Z.max 1 tokens) ltac:(lia)) as [Nt Zt].
  specialize (Zt ltac:(lia)).
  destruct (float_of_int (Z.max 1 tokens)) as [s|s| |s m e].
  - exfalso. exact (Zt s eq_refl).
  - destruct s; [contradiction|reflexivity].
  - contradiction.
  - destruct s; [contradiction|reflexivity].
Qed.

(** a sum with a positive constant, clamped to the unit interval, is not
    below a smaller positive threshold *)
Lemma clamp_sum_ge (c boost base : float) :
  flt f0_0 c = true -> fle c f1_0 = true ->
  valid boost = true ->
  match boost with S754_finite false _ _ => True | _ => False end ->
  fle c boost = true ->
  valid base = true -> base = S754_nan \/ nonneg base ->
  fle c (py_max f0_0 (py_min f1_0 (fadd base boost))) = true.
Proof.
  intros C0 C1 Vb Pb Cb Va [->|Na].
  - destruct boost; try contradiction. exact C1.
  - assert (G : fle c (py_min f1_0 (fadd base boost)) = true).
    { apply py_min_ge; [exact C1|].
      apply (fle_trans _ _ _ Cb). apply fadd_ge_right; assumption. }
    unfold py_max. rewrite (flt_fle_trans _ _ _ C0 G). exact G.
Qed.

(** a sum with a constant of at least 1.0 is clamped to 1.0 *)
Lemma clamp_sum_one (boost base : float) :
  valid boost = true ->
  match boost with S754_finite false _ _ => True | _ => False end ->
  fle f1_0 boost = true ->
  valid base = true -> base = S754_nan \/ nonneg base ->
  py_max f0_0 (py_min f1_0 (fadd base boost)) = f1_0.
Proof.
  intros Vb Pb Cb Va [->|Na].
  - destruct boost; try contradiction. reflexivity.
  - assert (G : fle f1_0 (fadd base boost) = true).
    { apply (fle_trans _ _ _ Cb). apply fadd_ge_right; assumption. }
    unfold py_min. rewrite (fle_not_flt _ _ G). reflexivity.
Qed.

Ltac eval_boost :=
  match goal with
  | |- context [fadd ?base ?boost] =>
      lazymatch boost with
      | context [float_of_int] => fail
      | _ => let v := eval vm_compute in boost in
             change boost with v
      end
  end.

Section ScoreMarkers.
Context {U : Unicode}.
Variable self : MisinformationDetector.

Lemma score_marker_bound (text : str) (c : float) :
  flt f0_0 c = true ->
  (any_in sensational_markers (str_lower text) = true ->
   fle c f0_45 = true) ->
  (any_in sensational_markers (str_lower text) = false ->
   fle c f0_35 = true) ->
  any_in sensational_markers (str_lower text)
  || any_in financial_markers (str_lower text) = true ->
  fle c (score self text) = true.
Proof.
  intros C0 C45 C35 H.
  destruct text as [|ch r].
  { change (str_lower []) with (@nil char) in H. discriminate H. }
  unfold score. cbn [falsy]. cbv zeta.
  set (lower := str_lower (ch :: r)) in *.
  destruct (@base_nonneg
              (fold_left
                 (fun count term =>
                    if contains term lower
                    then (count + str_count term lower)%Z else count)
                 (suspicious_terms self) 0%Z)
              (split_len (ch :: r))
              (term_count_ge lower (suspicious_terms self) 0)) as [Vb Nb].
  cbv zeta in Vb, Nb.
  destruct (any_in sensational_markers lower) eqn:S;
    [specialize (C45 eq_refl); clear C35
    |specialize (C35 eq_refl); clear C45];
    destruct (any_in financial_markers lower) eqn:F;
    try discriminate H;
    destruct (contains (lit "who") lower || contains (lit "government") lower
              || contains (lit "modi") lower);
    cbn [andb]; eval_boost;
    (apply clamp_sum_ge;
     [exact C0
     |first [ apply (fle_trans _ _ _ C45); reflexivity
            | apply (fle_trans _ _ _ C35); reflexivity ]
     |reflexivity|exact I
     |first [ apply (fle_trans _ _ _ C45); reflexivity
            | apply (fle_trans _ _ _ C35); reflexivity ]
     |exact Vb|exact Nb]).
Qed.

End ScoreMarkers.

(** X15.  A text in which no term of the detector and no sensational or
    financial marker occurs scores exactly 0.0. *)
Theorem score_zero_without_terms
        (U : Unicode) (self : MisinformationDetector) (text : str) :
  any_in (suspicious_terms self) (str_lower text) = false ->
  any_in sensational_markers (str_lower text) = false ->
  any_in financial_markers (str_lower text) = false ->
  score self text = f0_0.
Proof.
  intros Ht Hs Hf. unfold score.
  destruct (falsy text); [reflexivity|]. cbv zeta.
  rewrite Hs, Hf, andb_false_r.
  rewrite (term_count_zero _ _ Ht), base_zero. reflexivity.
Qed.

Lemma score_zero_without_terms_witness :
  score (U := ascii_unicode) (MisinformationDetector_init None)
        (lit "Schools reopen on Monday") = f0_0.
Proof.
  apply score_zero_without_terms; reflexivity.
Defined.

(** X16.  Markers put a floor under the score, whatever else the text
    contains and whatever the terms of the detector: a text with a
    sensational marker scores at least 0.45, and a text with a financial
    marker at least 0.35. *)
Theorem score_floor_by_markers
        (U : Unicode) (self : MisinformationDetector) (text : str) :
  (any_in sensational_markers (str_lower text) = true ->
   fle f0_45 (score self text) = true)
  /\ (any_in financial_markers (str_lower text) = true ->
      fle f0_35 (score self text) = true).
Proof.
  split; intros H; apply score_marker_bound;
    try reflexivity; try (intros _; reflexivity);
    try (rewrite H; rewrite ?orb_true_r; reflexivity).
  intros H'. rewrite H' in H. discriminate H.
Qed.

(** X17.  A text with a sensational marker, a financial marker and one of
    "who", "government" and "modi" scores exactly 1.0, for every detector. *)
Theorem score_saturates
        (U : Unicode) (self : MisinformationDetector) (text : str) :
  any_in sensational_markers (str_lower text) = true ->
  any_in financial_markers (str_lower text) = true ->
  contains (lit "who") (str_lower text)
  || contains (lit "government") (str_lower text)
  || contains (lit "modi") (str_lower text) = true ->
  score self text = f1_0.
Proof.
  intros Hs Hf Hw.
  destruct text as [|ch r].
  { change (str_lower []) with (@nil char) in Hs. discriminate Hs. }
  unfold score. cbn [falsy]. cbv zeta.
  set (lower := str_lower (ch :: r)) in *.
  destruct (@base_nonneg
              (fold_left
                 (fun count term =>
                    if contains term lower
                    then (count + str_count term lower)%Z else count)
                 (suspicious_terms self) 0%Z)
              (split_len (ch :: r))
              (term_count_ge lower (suspicious_terms self) 0)) as [Vb Nb].
  cbv zeta in Vb, Nb.
  rewrite Hs, Hf, Hw. cbn [andb]. eval_boost.
  apply clamp_sum_one; [reflexivity|exact I|reflexivity|exact Vb|exact Nb].
Qed.

Lemma score_saturates_witness :
  score (U := ascii_unicode) (MisinformationDetector_init (Some []))
        (lit "URGENT: government freezes every bank account") = f1_0.
Proof.
  apply score_saturates; reflexivity.
Defined.

(** ** [detect_sensationalism] and the crisis boost *)

Section Sensationalism.
Context {U : Unicode}.

Lemma term_counter_filter (lower : str) (terms : list str) (z : Z) :
  fold_left
    (fun score term => if contains term lower then (score + 1)%Z else score)
    terms z
  = (z + Z.of_nat (List.length
                     (filter (fun term => contains term lower) terms)))%Z.
Proof.
  revert z. induction terms as [|t terms IH]; intros z;
    cbn [fold_left filter].
  - cbn. lia.
  - rewrite IH. destruct (contains t lower); cbn [List.length]; lia.
Qed.

Lemma filter_length_le (A : Type) (f : A -> bool) (l : list A) :
  (List.length (filter f l) <= List.length l)%nat.
Proof.
  induction l as [|x l IH]; cbn [filter List.length]; [lia|].
  destruct (f x); cbn [List.length]; lia.
Qed.

(** the 24 values of the ratio *)
Lemma ratio_of_23_table (k : nat) :
  (k <= 23)%nat ->
  let q := int_truediv (Z.of_nat k) 23 in
  py_min f1_0 q = q
  /\ ((0 < k)%nat -> flt f0_0 q = true)
  /\ ((k < 23)%nat -> flt q f1_0 = true)
  /\ fle f0_2 (if flt q f0_2 then py_min f1_0 (fadd q f0_2) else q) = true.
Proof.
  intros Hk.
  assert (T : forallb
                (fun k =>
                   let q := int_truediv (Z.of_nat k) 23 in
                   SFeqb (py_min f1_0 q) q
                   && match py_min f1_0 q, q with
                      | S754_zero a, S754_zero b => Bool.eqb a b
                      | S754_finite a m e, S754_finite b m' e' =>
                          Bool.eqb a b && Pos.eqb m m' && Z.eqb e e'
                      | _, _ => false
                      end
                   && ((k =? 0)%nat || flt f0_0 q)
                   && ((k =? 23)%nat || flt q f1_0)
                   && fle f0_2 (if flt q f0_2
                                then py_min f1_0 (fadd q f0_2) else q))
                (seq 0 24) = true) by (vm_compute; reflexivity).
  rewrite forallb_forall in T. specialize (T k).
  assert (I : In k (seq 0 24)) by (apply in_seq; lia).
  specialize (T I). cbv zeta in *.
  set (q := int_truediv (Z.of_nat k) 23) in *.
  apply andb_true_iff in T as [T T4].
  apply andb_true_iff in T as [T T3].
  apply andb_true_iff in T as [T T2].
  apply andb_true_iff in T as [_ T1].
  split; [|split; [|split]].
  - destruct (py_min f1_0 q) as [a|a| |a m e], q as [b|b| |b m' e'];
      try discriminate T1.
    + apply Bool.eqb_prop in T1. congruence.
    + apply andb_true_iff in T1 as [T1 Te].
      apply andb_true_iff in T1 as [Ts Tm].
      apply Bool.eqb_prop in Ts. apply Pos.eqb_eq in Tm.
      apply Z.eqb_eq in Te. congruence.
  - intros P. apply orb_true_iff in T2 as [T2|T2]; [|exact T2].
    apply Nat.eqb_eq in T2. lia.
  - intros P. apply orb_true_iff in T3 as [T3|T3]; [|exact T3].
    apply Nat.eqb_eq in T3. lia.
  - exact T4.
Qed.

Lemma sensationalism_value (text : str) :
  let k := List.length (filter (fun term => contains term (str_lower text))
                               sensational_terms) in
  (k <= 23)%nat
  /\ detect_sensationalism text = int_truediv (Z.of_nat k) 23.
Proof.
  cbv zeta.
  split; [exact (filter_length_le _ sensational_terms)|].
  destruct text as [|c r]; [reflexivity|].
  unfold detect_sensationalism. cbn [falsy]. cbv zeta.
  rewrite term_counter_filter, Z.add_0_l.
  change (Z.of_nat (List.length sensational_terms)) with 23%Z.
  apply ratio_of_23_table.
  exact (filter_length_le _ sensational_terms).
Qed.

End Sensationalism.

(** X18.  [detect_sensationalism] returns the quotient k/23, where k is
    the number of the 23 catalog terms that occur in the lowercased text:
    so 0.0 exactly when no catalog term occurs, 1.0 exactly when all of
    them occur, and a number strictly between the two otherwise. *)
Theorem sensationalism_counts_terms (U : Unicode) (text : str) :
  let k := List.length (filter (fun term => contains term (str_lower text))
                               sensational_terms) in
  detect_sensationalism text = int_truediv (Z.of_nat k) 23
  /\ (detect_sensationalism text = f0_0 <-> k = 0%nat)
  /\ (detect_sensationalism text = f1_0 <-> k = 23%nat)
  /\ (k <> 0%nat -> k <> 23%nat ->
      flt f0_0 (detect_sensationalism text) = true
      /\ flt (detect_sensationalism text) f1_0 = true).
Proof.
  cbv zeta. destruct (sensationalism_value text) as [Hk E].
  cbv zeta in Hk, E. rewrite E.
  set (k := List.length _) in *.
  destruct (ratio_of_23_table Hk) as (_ & P0 & P1 & _). cbv zeta in P0, P1.
  split; [reflexivity|]. split; [|split].
  - split.
    + intros H. destruct k; [reflexivity|].
      rewrite H in P0. discriminate (P0 ltac:(lia)).
    + intros ->. reflexivity.
  - split.
    + intros H. destruct (Nat.eq_dec k 23) as [K|K]; [exact K|].
      rewrite H in P1. discriminate (P1 ltac:(lia)).
    + intros ->. reflexivity.
  - intros N0 N23. split; [apply P0|apply P1]; lia.
Qed.

Section Crisis.
Context {U : Unicode}.

Lemma unit_nonneg (x : float) :
  fle f0_0 x = true -> fle x f1_0 = true -> nonneg x.
Proof.
  destruct x as [s|s| |s m e]; try discriminate; try exact (fun _ _ => I);
    destruct s; try discriminate; exact (fun _ _ => I).
Qed.

Lemma misinfo_boost_floor (m : float) :
  valid m = true -> fle f0_0 m = true -> fle m f1_0 = true ->
  fle f0_5 (if flt m f0_7 then py_min f1_0 (fadd m f0_5) else m) = true.
Proof.
  intros V H0 H1. destruct (flt m f0_7) eqn:E.
  - apply py_min_ge; [reflexivity|].
    apply fadd_ge_right; [reflexivity|exact I|exact V|].
    apply unit_nonneg; assumption.
  - apply (fle_trans f0_5 f0_7 m); [reflexivity|].
    apply not_flt_fle; [exact E| |discriminate].
    exact (@fle_not_nan _ _ H0).
Qed.

End Crisis.

(** X19.  When a crisis keyword occurs in the lowercased text, the scores
    [analyze_text] returns are at least 0.5 (misinformation) and 0.2
    (sensationalism), and its verdict is never "Real". *)
Theorem crisis_keyword_never_real (U : Unicode) (text : str) :
  any_in crisis_keywords (str_lower text) = true ->
  let '(m, s, v) := analyze_text text in
  fle f0_5 m = true /\ fle f0_2 s = true /\ v <> lit "Real".
Proof.
  intros H. unfold analyze_text, boost_scores. cbv zeta. rewrite H.
  set (m0 := score (MisinformationDetector_init None) text).
  set (s0 := detect_sensationalism text).
  assert (Hm : fle f0_5 (if flt m0 f0_7 then py_min f1_0 (fadd m0 f0_5)
                         else m0) = true).
  { destruct (scorers_bounds U (MisinformationDetector_init None) text)
      as [[A B] _].
    apply misinfo_boost_floor; [apply score_valid|exact A|exact B]. }
  assert (Hs : fle f0_2 (if flt s0 f0_2 then py_min f1_0 (fadd s0 f0_2)
                         else s0) = true).
  { destruct (sensationalism_value text) as [Hk E]. cbv zeta in Hk, E.
    unfold s0. rewrite E. apply (ratio_of_23_table Hk). }
  set (m1 := if flt m0 f0_7 then _ else m0) in *.
  set (s1 := if flt s0 f0_2 then _ else s0) in *.
  split; [exact Hm|]. split; [exact Hs|].
  intros R. apply boosted_prediction_spec in R as [R _].
  assert (T : flt m1 f0_5 = true)
    by (apply (flt_trans _ _ _ R); reflexivity).
  rewrite (fle_not_flt _ _ Hm) in T. discriminate.
Qed.

Lemma crisis_keyword_never_real_witness :
  analyze_text (U := ascii_unicode) (lit "lockdown from monday")
  = (f0_5, f0_2, lit "Unclear")
  /\ lit "Unclear" <> lit "Real".
Proof.
  pose proof (@crisis_keyword_never_real ascii_unicode
                (lit "lockdown from monday") eq_refl) as H.
  destruct (analyze_text (lit "lockdown from monday")) as [[m s] v] eqn:E.
  assert (E' : (m, s, v) = (f0_5, f0_2, lit "Unclear"))
    by (rewrite <- E; vm_compute; reflexivity).
  split; [exact E'|].
  injection E' as _ _ <-. exact (proj2 (proj2 H)).
Defined.

(** ** [truthlens_app]: the page never fails *)

Section App.
Context {U : Unicode}.

(** the fuser returns on every score of the unit interval *)
Lemma fuser_returns (misinfo_score : float)
      (api_results : list FactCheckResult) :
  valid misinfo_score = true ->
  fle f0_0 misinfo_score = true -> fle misinfo_score f1_0 = true ->
  exists confidence v,
    calculate_confidence_score misinfo_score api_results
    = Ok (confidence, v)
    /\ (0 <= confidence <= 100)%Z
    /\ (v = lit "Fake" \/ v = lit "Real" \/ v = lit "Unclear").
Proof.
  intros V H0 H1.
  pose proof (unit_small _ V H0 H1) as Sm.
  unfold calculate_confidence_score. cbv zeta.
  destruct api_results as [|r rs].
  - destruct (flt f0_7 misinfo_score).
    + destruct (py_round_small (high_branch_small Sm)) as [z ->].
      cbn [bind]. eexists _, _. split; [reflexivity|]. split; [lia|auto].
    + destruct (py_round_small (low_branch_small Sm)) as [z ->].
      cbn [bind]. eexists _, _. split; [reflexivity|]. split; [lia|].
      apply verdict_of_score_cases.
  - set (rs0 := r :: rs).
    destruct (has_verdict (lit "false") (verdicts_of rs0)) eqn:F,
             (has_verdict (lit "true") (verdicts_of rs0)) eqn:T,
             (has_verdict (lit "mixed") (verdicts_of rs0)) eqn:X;
      cbn [andb negb orb];
      try (eexists _, _; split; [reflexivity|]; split; [lia|auto]; fail).
    rewrite (no_false_count _ F). cbn [List.length Z.of_nat].
    destruct (py_round_small
                (@fallback_small _ (Z.of_nat (List.length rs0)) Sm
                                 ltac:(unfold rs0; cbn [List.length]; lia)))
      as [z ->].
    cbn [bind]. eexists _, _. split; [reflexivity|]. split; [lia|].
    apply verdict_of_score_cases.
Qed.

(** the boosted misinformation score is still a number of the unit
    interval *)
Lemma analyze_text_unit (text : str) :
  let '(m, _, _) := analyze_text text in
  valid m = true /\ fle f0_0 m = true /\ fle m f1_0 = true.
Proof.
  unfold analyze_text, boost_scores. cbv zeta.
  set (m0 := score (MisinformationDetector_init None) text).
  destruct (scorers_bounds U (MisinformationDetector_init None) text)
    as [[A B] _]. fold m0 in A, B.
  assert (V : valid m0 = true) by apply score_valid.
  destruct (any_in crisis_keywords (str_lower text)); [|auto].
  destruct (flt m0 f0_7); [|auto].
  split; [|split].
  - destruct (py_min_cases f1_0 (fadd m0 f0_5)) as [-> | ->];
      [reflexivity|apply fadd_valid; [exact V|reflexivity]].
  - apply py_min_ge; [reflexivity|].
    apply (fle_trans f0_0 f0_5); [reflexivity|].
    apply fadd_ge_right; [reflexivity|exact I|exact V|].
    apply unit_nonneg; assumption.
  - apply py_min_le_1.
Qed.

Lemma falsy_nil (s : str) : falsy s = true <-> s = [].
Proof. destruct s; split; intros H; try reflexivity; discriminate. Qed.

End App.

(** X20.  The page never raises, whatever the text typed, the detector
    and the translator: without a press of the button nothing is
    computed; a text that is empty once stripped gives the warning; every
    other text gives a full report, whose confidence lies between 0 and
    100, whose final verdict is "Fake", "Real" or "Unclear", and whose
    dictionary of explanations has the keys "en", "hi" and "mr" with the
    English summary under "en". *)
Theorem truthlens_app_never_raises
        (U : Unicode) (detect : str -> res str)
        (translator : option Translator) (raw_text : str) (analyze : bool) :
  exists page,
    truthlens_app detect translator raw_text analyze = Ok page
    /\ (page = Idle <-> analyze = false)
    /\ (page = NoInput <-> analyze = true /\ str_strip raw_text = [])
    /\ (forall r, page = Analysis r ->
          submitted_text r = str_strip raw_text
          /\ (0 <= final_confidence r <= 100)%Z
          /\ (final_verdict r = lit "Fake" \/ final_verdict r = lit "Real"
              \/ final_verdict r = lit "Unclear")
          /\ List.map fst (translations r) = [lit "en"; lit "hi"; lit "mr"]
          /\ forall default,
              dict_get (translations r) (lit "en") default
              = english_summary r).
Proof.
  unfold truthlens_app. destruct analyze.
  2:{ exists Idle. split; [reflexivity|]. split; [tauto|].
      split; [split; [discriminate|intros [? _]; discriminate]|].
      discriminate. }
  destruct (falsy (str_strip raw_text)) eqn:F.
  { apply falsy_nil in F. exists NoInput. split; [reflexivity|].
    split; [split; discriminate|]. split; [tauto|]. discriminate. }
  assert (NE : str_strip raw_text <> [])
    by (intros E; apply falsy_nil in E; congruence).
  destruct (preprocessing_and_translation _ _ _) as [processed lang].
  pose proof (analyze_text_unit processed) as A.
  destruct (analyze_text processed) as [[m s] prelim].
  destruct A as (V & H0 & H1).
  destruct (@fuser_returns U m (query_google_fact_check processed) V H0 H1)
    as (c & v & E & Hc & Hv).
  rewrite E. cbn [bind].
  eexists. split; [reflexivity|].
  split; [split; discriminate|].
  split; [split; [discriminate|intros [_ ?]; contradiction]|].
  intros r R. injection R as <-.
  cbn [submitted_text final_confidence final_verdict translations
       english_summary].
  split; [reflexivity|]. split; [exact Hc|]. split; [exact Hv|].
  pose proof (multilingual_keys
                (option_map (fun tr text dest => tr text None dest) translator)
                (summarize_verified_facts
                   (query_google_fact_check processed) v))
    as K.
  exact K.
Qed.

(** ** The guard is undone by the restoration *)

(** *** Prefixes and replacement *)

Lemma starts_with_iff (p s : str) :
  starts_with p s = true <-> exists r, s = p ++ r.
Proof.
  revert s. induction p as [|x p IH]; intros s; cbn [starts_with].
  - split; [exists s; reflexivity|reflexivity].
  - destruct s as [|y s]; [split; [discriminate|intros [r H]; discriminate H]|].
    unfold char_eqb. rewrite andb_true_iff, IH, N.eqb_eq. split.
    + intros [-> [r ->]]. exists r. reflexivity.
    + intros [r H]. injection H as -> ->. split; [reflexivity|eauto].
Qed.

Lemma starts_with_app (p s : str) : starts_with p (p ++ s) = true.
Proof. apply starts_with_iff. eauto. Qed.

(** a prefix of [x ++ s] lies within [x] or covers it *)
Lemma starts_with_app_cases (k x s : str) :
  starts_with k (x ++ s) = true ->
  starts_with k x = true
  \/ exists p, k = x ++ p /\ p <> [] /\ starts_with p s = true.
Proof.
  revert x. induction k as [|a k IH]; intros x H.
  - left. reflexivity.
  - destruct x as [|b x].
    + right. exists (a :: k). split; [reflexivity|]. split; [discriminate|].
      exact H.
    + cbn [app starts_with] in *. apply andb_true_iff in H as [E H].
      destruct (IH x H) as [L|(p & -> & Np & Hp)].
      * left. rewrite E, L. reflexivity.
      * right. exists p. unfold char_eqb in E. apply N.eqb_eq in E.
        subst b. auto.
Qed.

Lemma contains_app_r (p a b : str) :
  contains p (a ++ b) = false -> contains p b = false.
Proof.
  induction a as [|x a IH]; intros H; [exact H|].
  cbn [app contains] in H. apply orb_false_iff in H as [_ H]. auto.
Qed.

Lemma contains_prefix (p s : str) :
  starts_with p s = true -> contains p s = true.
Proof. intros H. destruct s; cbn [contains]; rewrite H; reflexivity. Qed.

Lemma replace_go_skip (old new x s : str) (k : nat) (c : option nat) :
  replace_go old new (List.length x + k) c (x ++ s)
  = replace_go old new k c s.
Proof. induction x as [|a x IH]; [reflexivity|exact IH]. Qed.

Lemma replace_go_pass (old new x s : str) (c : option nat) :
  (forall j, (j < List.length x)%nat ->
             starts_with old (skipn j x ++ s) = false) ->
  replace_go old new 0 c (x ++ s) = x ++ replace_go old new 0 c s.
Proof.
  induction x as [|a x IH]; intros H; [reflexivity|].
  cbn [app replace_go].
  pose proof (H 0%nat ltac:(cbn; lia)) as H0. cbn [skipn app] in H0.
  rewrite H0, andb_false_r. f_equal. apply IH.
  intros j Hj. apply (H (S j)). cbn. lia.
Qed.

Lemma replace_go_hit (old new s : str) :
  old <> [] ->
  replace_go old new 0 None (old ++ s)
  = new ++ replace_go old new 0 None s.
Proof.
  intros N. destruct old as [|a old]; [contradiction|].
  cbn [app replace_go].
  change (a :: old ++ s) with ((a :: old) ++ s).
  rewrite starts_with_app. cbn [andb option_map List.length Nat.pred].
  f_equal. rewrite <- (Nat.add_0_r (List.length old)).
  apply replace_go_skip.
Qed.

Lemma replace_go_spent (old new s : str) (k : nat) :
  replace_go old new k (Some 0%nat) s = skipn k s.
Proof.
  revert k. induction s as [|a s IH]; intros k.
  - destruct k; reflexivity.
  - destruct k; cbn [replace_go skipn andb]; [|apply IH].
    f_equal. apply (IH 0%nat).
Qed.

Lemma replace_first_hit (old new s : str) :
  old <> [] ->
  replace_go old new 0 (Some 1%nat) (old ++ s) = new ++ s.
Proof.
  intros N. destruct old as [|a old]; [contradiction|].
  cbn [app replace_go].
  change (a :: old ++ s) with ((a :: old) ++ s).
  rewrite starts_with_app. cbn [andb option_map List.length Nat.pred].
  f_equal. rewrite replace_go_spent.
  rewrite skipn_app, skipn_all, Nat.sub_diag. reflexivity.
Qed.

(** *** The placeholders *)

Lemma universe_checked :
  forallb
    (fun k =>
       key_head k && key_tail k && key_short_runs k
       && forallb (fun k' => key_apart k k' && key_interior k k')
                  key_universe)
    key_universe
  && nodupb key_universe = true.
Proof. vm_compute. reflexivity. Qed.

Lemma nodupb_NoDup (l : list str) : nodupb l = true -> NoDup l.
Proof.
  induction l as [|x l IH]; intros H; [constructor|].
  cbn [nodupb] in H. apply andb_true_iff in H as [H1 H2].
  constructor; [|auto].
  intros I. apply negb_true_iff in H1.
  assert (T : existsb (str_eqb x) l = true).
  { apply existsb_exists. exists x. split; [exact I|apply str_eqb_refl]. }
  congruence.
Qed.

Lemma universe_NoDup : NoDup key_universe.
Proof.
  apply nodupb_NoDup.
  pose proof universe_checked as H. apply andb_true_iff in H as [_ H].
  exact H.
Qed.

Lemma universe_key (k : str) :
  In k key_universe ->
  key_head k = true /\ key_tail k = true /\ key_short_runs k = true.
Proof.
  intros I. pose proof universe_checked as H.
  apply andb_true_iff in H as [H _]. rewrite forallb_forall in H.
  specialize (H k I).
  apply andb_true_iff in H as [H _].
  apply andb_true_iff in H as [H H3].
  apply andb_true_iff in H as [H1 H2]. auto.
Qed.

Lemma universe_pair (k k' : str) :
  In k key_universe -> In k' key_universe ->
  key_apart k k' = true /\ key_interior k k' = true.
Proof.
  intros I I'. pose proof universe_checked as H.
  apply andb_true_iff in H as [H _]. rewrite forallb_forall in H.
  specialize (H k I). apply andb_true_iff in H as [_ H].
  rewrite forallb_forall in H. specialize (H k' I').
  apply andb_true_iff in H. exact H.
Qed.

(** a placeholder begins with two underscores and a third character that
    is not one *)
Lemma key_shape (k : str) :
  In k key_universe ->
  exists c r, k = 95%N :: 95%N :: c :: r /\ c <> 95%N.
Proof.
  intros I. destruct (@universe_key k I) as (H & _ & _).
  destruct k as [|a [|b [|c r]]]; try discriminate H.
  cbn [key_head] in H.
  apply andb_true_iff in H as [H Hc]. apply andb_true_iff in H as [Ha Hb].
  apply N.eqb_eq in Ha, Hb. apply negb_true_iff, N.eqb_neq in Hc.
  subst. eauto.
Qed.

(** two distinct placeholders: none is a prefix of the other *)
Lemma key_no_prefix (k k' : str) :
  In k key_universe -> In k' key_universe -> k <> k' ->
  starts_with k k' = false.
Proof.
  intros I I' N. destruct (@universe_pair k k' I I') as [H _].
  unfold key_apart in H. apply orb_true_iff in H as [H|H].
  - apply str_eqb_eq in H. contradiction.
  - apply negb_true_iff in H. exact H.
Qed.

Lemma key_interior_spec (k k' : str) (j : nat) :
  In k key_universe -> In k' key_universe ->
  (0 < j < List.length k')%nat ->
  starts_with k (skipn j k') = false
  /\ (starts_with (skipn j k') k = true ->
      skipn j k' = [95; 95]%N \/ skipn j k' = [95]%N).
Proof.
  intros I I' Hj. destruct (@universe_pair k k' I I') as [_ H].
  unfold key_interior in H. rewrite forallb_forall in H.
  specialize (H j ltac:(apply in_seq; lia)). cbv zeta in H.
  apply andb_true_iff in H as [H1 H2]. apply negb_true_iff in H1.
  split; [exact H1|]. intros P. rewrite P in H2. cbn [negb orb] in H2.
  apply orb_true_iff in H2 as [H2|H2]; apply str_eqb_eq in H2; auto.
Qed.

Lemma key_short_spec (k : str) (j : nat) :
  In k key_universe -> (j < List.length k)%nat ->
  existsb (N.eqb 95) (firstn 6 (skipn j k)) = true
  /\ (run_length ascii_digit (skipn j k) < 3)%nat
  /\ (run_length ascii_digit (skipn j k) < List.length (skipn j k))%nat.
Proof.
  intros I Hj. destruct (@universe_key k I) as (_ & _ & H).
  unfold key_short_runs in H. apply andb_true_iff in H as [H _].
  rewrite forallb_forall in H.
  specialize (H j ltac:(apply in_seq; lia)).
  apply andb_true_iff in H as [H H3]. apply andb_true_iff in H as [H1 H2].
  apply Nat.ltb_lt in H2, H3. auto.
Qed.

Lemma key_ascii (k : str) :
  In k key_universe -> Forall (fun c => (c < 128)%N) k.
Proof.
  intros I. destruct (@universe_key k I) as (_ & _ & H).
  unfold key_short_runs in H. apply andb_true_iff in H as [_ H].
  rewrite forallb_forall in H. apply Forall_forall. intros c Hc.
  apply N.ltb_lt. auto.
Qed.

Lemma key_nonempty (k : str) : In k key_universe -> k <> [].
Proof.
  intros I. destruct (@key_shape k I) as (c & r & -> & _). discriminate.
Qed.

(** *** Items *)

Lemma flat_app (a b : list item) : flat (a ++ b) = flat a ++ flat b.
Proof. apply flat_map_app. Qed.

Lemma orig_app (a b : list item) : orig (a ++ b) = orig a ++ orig b.
Proof. apply flat_map_app. Qed.

Lemma entries_app (a b : list item) :
  entries (a ++ b) = entries a ++ entries b.
Proof. apply flat_map_app. Qed.

Lemma flat_chars (x : str) : flat (List.map Ch x) = x.
Proof. induction x as [|c x IH]; [reflexivity|]. cbn. f_equal. exact IH. Qed.

Lemma orig_chars (x : str) : orig (List.map Ch x) = x.
Proof. induction x as [|c x IH]; [reflexivity|]. cbn. f_equal. exact IH. Qed.

Lemma entries_chars (x : str) : entries (List.map Ch x) = [].
Proof. induction x as [|c x IH]; [reflexivity|exact IH]. Qed.

Lemma wf_chars (x : str) :
  ~ In 95%N x -> Forall wf_item (List.map Ch x).
Proof.
  intros H. apply Forall_forall. intros i Hi.
  apply in_map_iff in Hi as (c & <- & Hc). cbn. intros ->. auto.
Qed.

Lemma no_entries_flat (l : list item) :
  entries l = [] -> flat l = orig l.
Proof.
  induction l as [|[c|k v] l IH]; intros H; [reflexivity| |discriminate H].
  cbn. f_equal. apply IH. exact H.
Qed.

Lemma entries_split (l : list item) (k v : str) :
  In (k, v) (entries l) ->
  exists l1 l2, l = l1 ++ Key k v :: l2.
Proof.
  induction l as [|[c|k' v'] l IH]; intros H; [contradiction| |].
  - destruct (IH H) as (l1 & l2 & ->). exists (Ch c :: l1), l2. reflexivity.
  - destruct H as [H|H].
    + injection H as -> ->. exists [], l. reflexivity.
    + destruct (IH H) as (l1 & l2 & ->).
      exists (Key k' v' :: l1), l2. reflexivity.
Qed.

Lemma wf_key_inv (k v : str) :
  wf_item (Key k v) -> In k key_universe /\ ~ In 95%N v.
Proof. exact (fun H => H). Qed.

Lemma wf_ch_inv (c : char) : wf_item (Ch c) -> c <> 95%N.
Proof. exact (fun H => H). Qed.

Ltac head_step H :=
  cbn [flat flat_map flat_item app starts_with] in H; unfold char_eqb in H.

(** a text with placeholders that begins with an underscore begins with
    a placeholder *)
Lemma underscore_is_key (c : char) (q : str) (l : list item) :
  Forall wf_item l ->
  starts_with (95%N :: c :: q) (flat l) = true -> c = 95%N.
Proof.
  intros W H. destruct l as [|[d|k v] l]; [discriminate H| |].
  - exfalso. head_step H. apply andb_true_iff in H as [H _].
    apply N.eqb_eq in H. inversion W as [|? ? Wd _].
    apply wf_ch_inv in Wd. congruence.
  - inversion W as [|? ? Wx _]. apply wf_key_inv in Wx as [Wk _].
    destruct (@key_shape k Wk) as (c' & r & -> & _).
    head_step H. apply andb_true_iff in H as [_ H].
    apply andb_true_iff in H as [H _]. apply N.eqb_eq in H. exact H.
Qed.

(** characters other than the underscore are matched by plain
    characters *)
Lemma plain_prefix (a q : str) (l : list item) :
  Forall wf_item l -> ~ In 95%N a ->
  starts_with (a ++ q) (flat l) = true ->
  exists l', l = List.map Ch a ++ l' /\ starts_with q (flat l') = true.
Proof.
  revert l. induction a as [|x a IH]; intros l W Na H.
  - exists l. auto.
  - destruct l as [|[d|k v] l]; [discriminate H| |].
    + head_step H. apply andb_true_iff in H as [E H].
      apply N.eqb_eq in E. subst d.
      inversion W as [|? ? _ W'].
      destruct (IH l W' ltac:(intros I; apply Na; right; exact I) H)
        as (l' & -> & Hq).
      exists l'. auto.
    + exfalso. inversion W as [|? ? Wx _]. apply wf_key_inv in Wx as [Wk _].
      destruct (@key_shape k Wk) as (c' & r & -> & _).
      head_step H. apply andb_true_iff in H as [E _].
      apply N.eqb_eq in E. apply Na. left. auto.
Qed.

Lemma drop_while_span (f : char -> bool) (s : str) :
  exists a, s = a ++ drop_while f s /\ Forall (fun c => f c = true) a.
Proof.
  induction s as [|c s (a & E & F)]; cbn [drop_while].
  - exists []. auto.
  - destruct (f c) eqn:Fc.
    + exists (c :: a). split; [cbn; congruence|constructor; assumption].
    + exists []. auto.
Qed.

(** the part of a placeholder after its two leading underscores does not
    occur at the head of a text free of "NUM" *)
Lemma key_tail_absent (k : str) (l : list item) :
  In k key_universe -> Forall wf_item l ->
  contains (lit "NUM") (orig l) = false ->
  starts_with (skipn 2 k) (flat l) = false.
Proof.
  intros I W Nf. destruct (starts_with (skipn 2 k) (flat l)) eqn:H;
    [exfalso|reflexivity].
  destruct (@universe_key k I) as (_ & T & _). unfold key_tail in T.
  cbv zeta in T. apply orb_true_iff in T as [T|T].
  - apply starts_with_iff in T as [r T]. rewrite T in H.
    destruct (@plain_prefix (lit "NUM") r l W) as (l' & -> & _);
      [cbn; intros [E|[E|[E|[]]]]; discriminate E|exact H|].
    rewrite orig_app, orig_chars in Nf.
    rewrite (contains_prefix _ _ (starts_with_app _ _)) in Nf.
    discriminate.
  - destruct (drop_while_span (fun c => negb (N.eqb c 95)) (skipn 2 k))
      as (a & E & Fa).
    destruct (drop_while _ (skipn 2 k)) as [|x [|c q]];
      try discriminate T.
    apply andb_true_iff in T as [Tx Tc]. apply N.eqb_eq in Tx. subst x.
    apply negb_true_iff, N.eqb_neq in Tc.
    rewrite E in H.
    destruct (@plain_prefix a (95%N :: c :: q) l W) as (l' & -> & Hq);
      [|exact H|].
    { intros Ia. rewrite Forall_forall in Fa. specialize (Fa _ Ia).
      discriminate Fa. }
    apply Tc. apply (@underscore_is_key c q l'); [|exact Hq].
    apply Forall_app in W. tauto.
Qed.

(** no occurrence of a placeholder starts inside another one *)
Lemma no_occurrence_inside (k k' : str) (j : nat) (l : list item) :
  In k key_universe -> In k' key_universe -> Forall wf_item l ->
  contains (lit "NUM") (orig l) = false ->
  (0 < j < List.length k')%nat ->
  starts_with k (skipn j k' ++ flat l) = false.
Proof.
  intros I I' W Nf Hj.
  destruct (starts_with k (skipn j k' ++ flat l)) eqn:H;
    [exfalso|reflexivity].
  destruct (@key_interior_spec k k' j I I' Hj) as [F1 F2].
  apply starts_with_app_cases in H as [H|(p & E & Np & Hp)];
    [congruence|].
  assert (P : starts_with (skipn j k') k = true)
    by (apply starts_with_iff; eauto).
  destruct (@key_shape k I) as (c & r & Ek & Nc).
  destruct (F2 P) as [X|X]; rewrite X in E; rewrite Ek in E;
    injection E as E.
  - subst p. pose proof (@key_tail_absent k l I W Nf) as T.
    rewrite Ek in T. cbn [skipn] in T. congruence.
  - subst p. apply Nc. exact (@underscore_is_key c r l W Hp).
Qed.

(** [str.replace] passes over the items that do not hold the key *)
Lemma replace_passes (k v : str) (l t : list item) :
  In k key_universe ->
  Forall wf_item (l ++ t) ->
  contains (lit "NUM") (orig (l ++ t)) = false ->
  ~ In k (List.map fst (entries l)) ->
  replace_go k v 0 None (flat (l ++ t))
  = flat l ++ replace_go k v 0 None (flat t).
Proof.
  intros I. induction l as [|x l IH]; intros W Nf Nk; [reflexivity|].
  inversion W as [|? ? Wx W']. subst.
  assert (Nf' : contains (lit "NUM") (orig (l ++ t)) = false).
  { change (orig ((x :: l) ++ t)) with (orig_item x ++ orig (l ++ t)) in Nf.
    exact (contains_app_r _ _ _ Nf). }
  change (flat ((x :: l) ++ t)) with (flat_item x ++ flat (l ++ t)).
  change (flat (x :: l)) with (flat_item x ++ flat l).
  rewrite <- app_assoc.
  destruct (@key_shape k I) as (c & r & Ek & Nc).
  rewrite replace_go_pass.
  - f_equal. apply IH; [exact W'|exact Nf'|].
    intros I1. apply Nk. destruct x; cbn; auto.
  - intros j Hj. destruct x as [d|k' v'].
    + cbn in Hj. assert (j = 0%nat) by lia. subst j.
      cbn [flat_item skipn app]. rewrite Ek. cbn [starts_with].
      unfold char_eqb. apply wf_ch_inv in Wx.
      destruct (N.eqb_spec 95 d) as [E|_]; [congruence|reflexivity].
    + apply wf_key_inv in Wx as [Wk _]. cbn [flat_item] in *.
      assert (Dk : k <> k') by (intros ->; apply Nk; left; reflexivity).
      destruct j as [|j].
      * cbn [skipn].
        destruct (starts_with k (k' ++ flat (l ++ t))) eqn:H;
          [exfalso|reflexivity].
        apply starts_with_app_cases in H as [H|(p & E & _ & _)].
        -- rewrite (key_no_prefix I Wk Dk) in H. discriminate.
        -- assert (P : starts_with k' k = true)
             by (apply starts_with_iff; eauto).
           rewrite (key_no_prefix Wk I (not_eq_sym Dk)) in P. discriminate.
      * apply no_occurrence_inside; try assumption. lia.
Qed.

(** replacing a placeholder that occurs once puts back what it stands
    for *)
Lemma replace_restores (k v : str) (l1 l2 : list item) :
  Forall wf_item (l1 ++ Key k v :: l2) ->
  contains (lit "NUM") (orig (l1 ++ Key k v :: l2)) = false ->
  ~ In k (List.map fst (entries l1)) ->
  ~ In k (List.map fst (entries l2)) ->
  str_replace k v (flat (l1 ++ Key k v :: l2))
  = flat (l1 ++ List.map Ch v ++ l2).
Proof.
  intros W Nf N1 N2. unfold str_replace.
  assert (I : In k key_universe).
  { apply Forall_app in W as [_ W]. inversion W as [|? ? Wx _].
    apply wf_key_inv in Wx as [Wk _]. exact Wk. }
  rewrite replace_passes; try assumption.
  change (flat (Key k v :: l2)) with (k ++ flat l2).
  rewrite replace_go_hit by (apply key_nonempty; exact I).
  rewrite <- (app_nil_r l2) at 1.
  rewrite replace_passes; try assumption.
  - cbn [flat flat_map replace_go]. rewrite app_nil_r.
    rewrite !flat_app, flat_chars. reflexivity.
  - rewrite app_nil_r. apply Forall_app in W as [_ W].
    inversion W. assumption.
  - rewrite app_nil_r. rewrite orig_app in Nf.
    apply contains_app_r in Nf.
    change (orig (Key k v :: l2)) with (v ++ orig l2) in Nf.
    exact (contains_app_r _ _ _ Nf).
Qed.

(** *** The restoration *)

Lemma restore_items (d : dict) :
  forall l : list item,
    Forall wf_item l ->
    contains (lit "NUM") (orig l) = false ->
    Permutation (entries l) d -> NoDup (List.map fst d) ->
    restore d (flat l) = orig l.
Proof.
  induction d as [|[k v] d IH]; intros l W Nf P N.
  - apply Permutation_sym, Permutation_nil in P.
    cbn. apply no_entries_flat. exact P.
  - assert (Ik : In (k, v) (entries l))
      by (apply (Permutation_in _ (Permutation_sym P)); left; reflexivity).
    destruct (entries_split _ _ _ Ik) as (l1 & l2 & ->).
    rewrite entries_app in P. cbn [entries flat_map app] in P.
    fold (entries l2) in P.
    apply Permutation_sym, Permutation_cons_app_inv, Permutation_sym in P.
    inversion N as [|? ? Nk N']. subst.
    assert (Nk' : ~ In k (List.map fst (entries l1 ++ entries l2))).
    { intros I. apply Nk.
      apply (Permutation_in _ (Permutation_map fst P)). exact I. }
    rewrite map_app, in_app_iff in Nk'.
    unfold restore. cbn [fold_left fst snd].
    rewrite replace_restores; try tauto.
    apply Forall_app in W as [W1 W2].
    inversion W2 as [|? ? Wx W2']. apply wf_key_inv in Wx as [Wk Wv]. subst.
    fold (restore d (flat (l1 ++ List.map Ch v ++ l2))).
    rewrite IH.
    + rewrite !orig_app, orig_chars. reflexivity.
    + apply Forall_app. split; [exact W1|].
      apply Forall_app. split; [apply wf_chars; exact Wv|exact W2'].
    + rewrite !orig_app, orig_chars. rewrite orig_app in Nf. exact Nf.
    + rewrite !entries_app, entries_chars. exact P.
    + exact N'.
Qed.

(** *** Matches of a pattern, from left to right *)

Section Spans.
Variable m : matcher.
(** a match does not run past the end of the text *)
Hypothesis m_sound : forall s n, m s = Some n -> (n <= List.length s)%nat.

Lemma spans_shift (d : nat) (s : str) :
  forall k pos,
    spans_go m k (pos + d) s
    = List.map (fun se => (fst se + d, snd se + d)%nat) (spans_go m k pos s).
Proof.
  induction s as [|c r IH]; intros k pos; [reflexivity|].
  cbn [spans_go]. destruct k as [|k].
  - destruct (m (c :: r)) as [[|n]|].
    + exact (IH 0%nat (S pos)).
    + cbn [List.map fst snd]. f_equal; [f_equal; lia|].
      exact (IH n (S pos)).
    + exact (IH 0%nat (S pos)).
  - exact (IH k (S pos)).
Qed.

Lemma spans_skip (x s : str) :
  forall k pos,
    spans_go m (List.length x + k) pos (x ++ s)
    = spans_go m k (pos + List.length x) s.
Proof.
  induction x as [|a x IH]; intros k pos.
  - cbn. rewrite Nat.add_0_r. reflexivity.
  - cbn [List.length app spans_go Nat.add]. rewrite IH.
    f_equal. lia.
Qed.

Lemma spans_first (s : str) :
  forall pos a b l,
    spans_go m 0 pos s = (a, b) :: l ->
    exists A x R,
      s = A ++ x ++ R
      /\ a = (pos + List.length A)%nat
      /\ b = (pos + List.length A + List.length x)%nat
      /\ x <> []
      /\ m (x ++ R) = Some (List.length x)
      /\ (forall A1 A2, A = A1 ++ A2 -> A2 <> [] ->
                        match m (A2 ++ x ++ R) with
                        | Some (S _) => False
                        | _ => True
                        end)
      /\ l = spans_go m 0 b R.
Proof.
  induction s as [|c r IH]; intros pos a b l H; [discriminate H|].
  cbn [spans_go] in H.
  assert (Later :
            match m (c :: r) with Some (S _) => False | _ => True end ->
            spans_go m 0 (S pos) r = (a, b) :: l ->
            exists A x R,
              c :: r = A ++ x ++ R
              /\ a = (pos + List.length A)%nat
              /\ b = (pos + List.length A + List.length x)%nat
              /\ x <> []
              /\ m (x ++ R) = Some (List.length x)
              /\ (forall A1 A2, A = A1 ++ A2 -> A2 <> [] ->
                                match m (A2 ++ x ++ R) with
                                | Some (S _) => False
                                | _ => True
                                end)
              /\ l = spans_go m 0 b R).
  { intros E H'.
    destruct (IH _ _ _ _ H')
      as (A & x & R & -> & -> & -> & Nx & Mx & Ex & ->).
    exists (c :: A), x, R.
    split; [reflexivity|]. split; [cbn; lia|]. split; [cbn; lia|].
    split; [exact Nx|]. split; [exact Mx|]. split.
    - intros [|c' A1] A2 EA N2.
      + cbn in EA. subst A2. exact E.
      + injection EA as _ EA. exact (Ex A1 A2 EA N2).
    - f_equal. }
  destruct (m (c :: r)) as [[|n]|] eqn:E;
    [exact (Later I H)| |exact (Later I H)].
  clear Later. injection H as <- <- <-.
  pose proof (m_sound E) as Hn. cbn [List.length] in Hn.
  exists [], (c :: firstn n r), (skipn n r).
  assert (Lf : List.length (firstn n r) = n)
    by (rewrite length_firstn; lia).
  split; [cbn [app]; rewrite firstn_skipn; reflexivity|].
  split; [cbn; lia|].
  split; [cbn [List.length]; rewrite Lf; lia|].
  split; [discriminate|].
  split; [cbn [app List.length]; rewrite firstn_skipn, Lf; exact E|].
  split.
  - intros A1 A2 EA N2. destruct A1; destruct A2; try discriminate EA.
    contradiction.
  - rewrite <- (firstn_skipn n r) at 1.
    rewrite <- Lf at 1. rewrite <- (Nat.add_0_r (List.length _)).
    rewrite spans_skip. f_equal. rewrite Lf. lia.
Qed.

Lemma slice_middle (A x R : str) :
  slice (A ++ x ++ R) (List.length A) (List.length A + List.length x) = x.
Proof.
  unfold slice. rewrite skipn_app, skipn_all, Nat.sub_diag. cbn [skipn app].
  replace (List.length A + List.length x - List.length A)%nat
    with (List.length x) by lia.
  rewrite firstn_app, firstn_all, Nat.sub_diag. cbn. apply app_nil_r.
Qed.

Lemma findall_first (s n : str) (ns : list str) :
  re_findall m s = n :: ns ->
  exists A R,
    s = A ++ n ++ R
    /\ n <> []
    /\ m (n ++ R) = Some (List.length n)
    /\ (forall A1 A2, A = A1 ++ A2 -> A2 <> [] ->
                      match m (A2 ++ n ++ R) with
                      | Some (S _) => False
                      | _ => True
                      end)
    /\ re_findall m R = ns.
Proof.
  unfold re_findall, re_finditer. intros H.
  destruct (spans_go m 0 0 s) as [|[a b] l] eqn:E; [discriminate H|].
  destruct (spans_first _ _ E)
    as (A & x & R & -> & -> & -> & Nx & Mx & Ex & ->).
  cbn [List.map fst snd Nat.add] in H. rewrite slice_middle in H.
  injection H as <- <-.
  exists A, R.
  split; [reflexivity|]. split; [exact Nx|]. split; [exact Mx|].
  split; [exact Ex|].
  rewrite <- (Nat.add_0_l (List.length A + List.length x)) at 1.
  rewrite spans_shift, map_map. apply map_ext. intros [a b].
  cbn [fst snd]. unfold slice.
  replace (b + (List.length A + List.length x)
           - (a + (List.length A + List.length x)))%nat
    with (b - a)%nat by lia.
  f_equal. rewrite app_assoc.
  rewrite skipn_app, length_app.
  replace (a + (List.length A + List.length x)
           - (List.length A + List.length x))%nat with a by lia.
  rewrite (skipn_all2 (A ++ x)) by (rewrite length_app; lia).
  reflexivity.
Qed.

Lemma spans_nil (s : str) :
  forall pos,
    spans_go m 0 pos s = [] ->
    forall a b, s = a ++ b -> b <> [] ->
                match m b with Some (S _) => False | _ => True end.
Proof.
  induction s as [|c r IH]; intros pos H a b E N.
  - destruct a, b; try discriminate E. contradiction.
  - cbn [spans_go] in H.
    destruct (m (c :: r)) as [[|n]|] eqn:M; try discriminate H;
      (destruct a as [|c' a];
       [cbn [app] in E; subst b; rewrite M; exact I
       |injection E as _ E; exact (IH _ H a b E N)]).
Qed.

End Spans.

(** *** Runs of characters *)

Lemma run_length_le (f : char -> bool) (s : str) :
  (run_length f s <= List.length s)%nat.
Proof.
  induction s as [|c s IH]; cbn [run_length List.length]; [lia|].
  destruct (f c); lia.
Qed.

Lemma run_stop (f : char -> bool) (x z : str) :
  (run_length f x < List.length x)%nat ->
  run_length f (x ++ z) = run_length f x.
Proof.
  induction x as [|c x IH]; cbn [run_length List.length app]; [lia|].
  destruct (f c); [|reflexivity]. intros H. f_equal. apply IH. lia.
Qed.

Lemma run_full (f : char -> bool) (x z : str) :
  run_length f x = List.length x ->
  run_length f (x ++ z) = (List.length x + run_length f z)%nat.
Proof.
  induction x as [|c x IH]; cbn [run_length List.length app];
    [reflexivity|].
  destruct (f c); [|discriminate]. intros H. cbn. f_equal. apply IH. lia.
Qed.

Lemma run_ext (f g : char -> bool) (x : str) :
  Forall (fun c => f c = g c) x -> run_length f x = run_length g x.
Proof.
  induction 1 as [|c x E _ IH]; [reflexivity|].
  cbn [run_length]. rewrite E, IH. reflexivity.
Qed.

(** *** Lists *)

Lemma nth_not_in_firstn (A : Type) (d : A) (l : list A) :
  NoDup l -> forall i, (i < List.length l)%nat ->
                       ~ In (nth i l d) (firstn i l).
Proof.
  induction 1 as [|x l Nx _ IH]; intros i Hi; [cbn in Hi; lia|].
  destruct i as [|i]; [exact (fun H => H)|].
  cbn [nth firstn]. cbn [List.length] in Hi. intros [E|I].
  - apply Nx. rewrite E. apply nth_In. lia.
  - exact (IH i ltac:(lia) I).
Qed.

Lemma firstn_succ (A : Type) (d : A) (l : list A) :
  forall i, (i < List.length l)%nat ->
            firstn (S i) l = firstn i l ++ [nth i l d].
Proof.
  induction l as [|x l IH]; intros i Hi; [cbn in Hi; lia|].
  destruct i as [|i]; [reflexivity|].
  cbn [List.length] in Hi. cbn [firstn nth app].
  f_equal. apply IH. lia.
Qed.

Lemma firstn_incl_le (A : Type) (l : list A) :
  forall i j, (i <= j)%nat -> incl (firstn i l) (firstn j l).
Proof.
  induction l as [|x l IH]; intros i j H y Hy.
  - rewrite firstn_nil in Hy. contradiction.
  - destruct i as [|i]; [contradiction|].
    destruct j as [|j]; [lia|].
    cbn [firstn] in *. destruct Hy as [E|Hy]; [left; exact E|].
    right. exact (IH i j ltac:(lia) y Hy).
Qed.

Lemma dict_set_fresh (d : dict) (k v : str) :
  ~ In k (List.map fst d) -> dict_set d k v = d ++ [(k, v)].
Proof.
  induction d as [|[k' v'] d IH]; intros N; [reflexivity|].
  cbn [dict_set app]. cbn [List.map fst In] in N.
  destruct (str_eqb k' k) eqn:E.
  - apply str_eqb_eq in E. tauto.
  - f_equal. apply IH. tauto.
Qed.

Lemma universe_index :
  forallb (fun i => str_eqb (nth i key_universe []) (num_key i))
          (seq 0 100)
  && forallb (fun i => str_eqb (nth (100 + i) key_universe [])
                               (tok_key i 0))
             (seq 0 10)
  && (List.length key_universe =? 110)%nat = true.
Proof. vm_compute. reflexivity. Qed.

Lemma universe_num (i : nat) :
  (i < 100)%nat -> nth i key_universe [] = num_key i.
Proof.
  intros H. pose proof universe_index as T.
  apply andb_true_iff in T as [T _]. apply andb_true_iff in T as [T _].
  rewrite forallb_forall in T. apply str_eqb_eq, T, in_seq. lia.
Qed.

Lemma universe_tok (i : nat) :
  (i < 10)%nat -> nth (100 + i) key_universe [] = tok_key i 0.
Proof.
  intros H. pose proof universe_index as T.
  apply andb_true_iff in T as [T _]. apply andb_true_iff in T as [_ T].
  rewrite forallb_forall in T. apply str_eqb_eq, T, in_seq. lia.
Qed.

Lemma universe_length : List.length key_universe = 110%nat.
Proof.
  pose proof universe_index as T. apply andb_true_iff in T as [_ T].
  apply Nat.eqb_eq. exact T.
Qed.

(** adding the next placeholder of the universe to the map *)
Lemma next_key (d : dict) (l l' : list item) (i : nat) (v : str) :
  (i < 110)%nat ->
  Permutation (entries l) d -> NoDup (List.map fst d) ->
  incl (List.map fst d) (firstn i key_universe) ->
  entries l' = entries l ++ [(nth i key_universe [], v)] \/
  Permutation (entries l') ((nth i key_universe [], v) :: entries l) ->
  let d' := dict_set d (nth i key_universe []) v in
  d' = d ++ [(nth i key_universe [], v)]
  /\ In (nth i key_universe []) key_universe
  /\ Permutation (entries l') d'
  /\ NoDup (List.map fst d')
  /\ incl (List.map fst d') (firstn (S i) key_universe).
Proof.
  intros Hi P N Inc E. cbv zeta.
  set (k := nth i key_universe []) in *.
  assert (Fr : ~ In k (List.map fst d)).
  { intros I. apply Inc in I. revert I.
    apply nth_not_in_firstn; [exact universe_NoDup|].
    rewrite universe_length. exact Hi. }
  rewrite (@dict_set_fresh d k v Fr).
  split; [reflexivity|].
  split; [apply nth_In; rewrite universe_length; exact Hi|].
  split; [|split].
  - destruct E as [-> | E].
    + apply Permutation_app_tail. exact P.
    + rewrite E. rewrite <- Permutation_cons_append.
      apply perm_skip. exact P.
  - rewrite map_app. cbn [List.map fst].
    apply (Permutation_NoDup (Permutation_cons_append _ _)).
    constructor; assumption.
  - rewrite map_app. cbn [List.map fst].
    assert (Hl : (i < List.length key_universe)%nat)
      by (rewrite universe_length; exact Hi).
    rewrite (@firstn_succ str [] key_universe i Hl).
    apply incl_app.
    + apply incl_appl. exact Inc.
    + apply incl_appr. fold k. apply incl_refl.
Qed.

(** *** The loop over the numbers *)

Section GuardNumbers.
Context {U : Unicode} {G : GuardLaws U}.

Lemma num_pattern_sound (s : str) (n : nat) :
  num_pattern s = Some n -> (n <= List.length s)%nat.
Proof.
  unfold num_pattern. cbv zeta.
  destruct (3 <=? run_length is_decimal s)%nat; [|discriminate].
  intros H. injection H as <-. apply run_length_le.
Qed.

Lemma num_pattern_run (s : str) :
  match num_pattern s with Some (S _) => False | _ => True end ->
  (run_length is_decimal s < 3)%nat.
Proof.
  unfold num_pattern. cbv zeta.
  destruct (Nat.leb_spec 3 (run_length is_decimal s)) as [H|H];
    [|intros _; exact H].
  destruct (run_length is_decimal s); [lia|contradiction].
Qed.

Lemma num_match (n R : str) :
  num_pattern (n ++ R) = Some (List.length n) ->
  (3 <= List.length n)%nat /\ run_length is_decimal n = List.length n.
Proof.
  unfold num_pattern. cbv zeta.
  destruct (Nat.leb_spec 3 (run_length is_decimal (n ++ R))) as [H|H];
    [|discriminate].
  intros E. injection E as E. split; [lia|].
  pose proof (run_length_le is_decimal n) as L.
  destruct (Nat.eq_dec (run_length is_decimal n) (List.length n))
    as [Q|Q]; [exact Q|].
  rewrite run_stop in E by lia. lia.
Qed.

Lemma calm_nil : calm [].
Proof.
  intros a b z E N. destruct a, b; try discriminate E. contradiction.
Qed.

Lemma calm_app (s1 s2 : str) : calm s1 -> calm s2 -> calm (s1 ++ s2).
Proof.
  intros C1 C2 a b z E N.
  apply app_eq_app in E as [l [[-> ->]|[-> ->]]].
  - destruct l as [|c l].
    + apply (C2 [] s2 z); [reflexivity|exact N].
    + rewrite <- app_assoc.
      apply (C1 a (c :: l) (s2 ++ z)); [reflexivity|discriminate].
  - apply (C2 l b z); [reflexivity|exact N].
Qed.

Lemma calm_key (k : str) : In k key_universe -> calm k.
Proof.
  intros I a b z E N.
  assert (Eb : b = skipn (List.length a) k).
  { rewrite E, skipn_app, skipn_all, Nat.sub_diag. reflexivity. }
  assert (Hj : (List.length a < List.length k)%nat).
  { rewrite E, length_app. destruct b; [contradiction|cbn; lia]. }
  destruct (@key_short_spec k _ I Hj) as (_ & R3 & Rs).
  rewrite <- Eb in R3, Rs.
  assert (X : run_length is_decimal b = run_length ascii_digit b).
  { apply run_ext. pose proof (@key_ascii k I) as A.
    rewrite E in A. apply Forall_app in A as [_ A].
    revert A. apply Forall_impl. intros c Hc.
    exact (@decimal_ascii U G c Hc). }
  rewrite run_stop; lia.
Qed.

(** the text before a number, and the number *)
Lemma calm_before (A n R : str) :
  num_pattern (n ++ R) = Some (List.length n) ->
  (forall A1 A2, A = A1 ++ A2 -> A2 <> [] ->
                 match num_pattern (A2 ++ n ++ R) with
                 | Some (S _) => False
                 | _ => True
                 end) ->
  calm A.
Proof.
  intros M E a b z -> N.
  pose proof (num_pattern_run _ (E a b eq_refl N)) as H.
  destruct (@num_match n R M) as [L3 Rn].
  pose proof (run_length_le is_decimal b) as Lb.
  destruct (Nat.eq_dec (run_length is_decimal b) (List.length b)) as [Q|Q].
  - rewrite (run_full _ _ _ Q) in H.
    rewrite (run_full _ _ _ Rn) in H. lia.
  - rewrite run_stop in H by lia. rewrite run_stop by lia. exact H.
Qed.

(** a number does not occur where no run of three digits starts *)
Lemma number_absent (n b z : str) :
  (3 <= List.length n)%nat -> run_length is_decimal n = List.length n ->
  (run_length is_decimal (b ++ z) < 3)%nat ->
  starts_with n (b ++ z) = false.
Proof.
  intros L3 Rn H. destruct (starts_with n (b ++ z)) eqn:E; [|reflexivity].
  apply starts_with_iff in E as [r E]. rewrite E in H.
  rewrite (run_full _ _ _ Rn) in H. lia.
Qed.

Lemma quiet_app (s1 s2 : str) : calm s1 -> quiet s2 -> quiet (s1 ++ s2).
Proof.
  intros C Q a b E N.
  apply app_eq_app in E as [l [[-> ->]|[-> ->]]].
  - destruct l as [|c l].
    + apply (Q [] s2); [reflexivity|exact N].
    + apply (C a (c :: l) s2); [reflexivity|discriminate].
  - apply (Q l b); [reflexivity|exact N].
Qed.

Lemma guard_nums_items (nums : list str) :
  forall (i : nat) (d : dict) (l : list item) (R : str),
    re_findall num_pattern R = nums ->
    (i + List.length nums <= 100)%nat ->
    ~ In 95%N R ->
    Forall wf_item l -> calm (flat l) ->
    Permutation (entries l) d -> NoDup (List.map fst d) ->
    incl (List.map fst d) (firstn i key_universe) ->
    exists l' d',
      guard_nums i nums (d, flat l ++ R) = (d', flat l')
      /\ orig l' = orig l ++ R
      /\ Forall wf_item l'
      /\ Permutation (entries l') d'
      /\ NoDup (List.map fst d')
      /\ incl (List.map fst d') (firstn 100 key_universe)
      /\ quiet (flat l').
Proof.
  induction nums as [|n ns IH]; intros i d l R F Hi NR W C P N Inc.
  - exists (l ++ List.map Ch R), d. cbn [guard_nums].
    rewrite flat_app, flat_chars, orig_app, orig_chars, entries_app,
      entries_chars, app_nil_r.
    split; [reflexivity|]. split; [reflexivity|].
    split; [apply Forall_app; split; [exact W|apply wf_chars; exact NR]|].
    split; [exact P|]. split; [exact N|]. split.
    + intros x Hx. apply (@firstn_incl_le _ key_universe i 100); [|auto].
      cbn in Hi. lia.
    + apply quiet_app; [exact C|].
      intros a b E Nb. apply num_pattern_run.
      unfold re_findall in F. apply map_eq_nil in F.
      exact (@spans_nil num_pattern R 0 F a b E Nb).
  - cbn [List.length] in Hi.
    destruct (@findall_first num_pattern num_pattern_sound _ _ _ F)
      as (A & R' & -> & Nn & M & E & F').
    destruct (@num_match n R' M) as [L3 Rn].
    assert (NA : ~ In 95%N A) by (intros I; apply NR, in_or_app; auto).
    assert (Nv : ~ In 95%N n)
      by (intros I; apply NR, in_or_app; right; apply in_or_app; auto).
    assert (NR' : ~ In 95%N R')
      by (intros I; apply NR, in_or_app; right; apply in_or_app; auto).
    assert (CA : calm (flat l ++ A))
      by (apply calm_app; [exact C|exact (@calm_before A n R' M E)]).
    cbn [guard_nums]. unfold str_replace_n.
    rewrite (app_assoc (flat l) A (n ++ R')).
    rewrite replace_go_pass.
    2:{ intros j Hj. apply number_absent; try assumption.
        apply (CA (firstn j (flat l ++ A)) (skipn j (flat l ++ A))).
        - symmetry. apply firstn_skipn.
        - intros Z. apply (f_equal (@List.length _)) in Z.
          rewrite length_skipn in Z. cbn in Z. lia. }
    rewrite replace_first_hit by exact Nn.
    rewrite <- (@universe_num i ltac:(lia)).
    set (l1 := l ++ List.map Ch A ++ [Key (nth i key_universe []) n]).
    assert (E1 : entries l1 = entries l ++ [(nth i key_universe [], n)]).
    { unfold l1. rewrite !entries_app, entries_chars. reflexivity. }
    destruct (@next_key d l l1 i n ltac:(lia) P N Inc (or_introl E1))
      as (_ & Ik & P1 & N1 & Inc1).
    assert (F1 : flat l1 = (flat l ++ A) ++ nth i key_universe []).
    { unfold l1. rewrite !flat_app, flat_chars. cbn [flat flat_map flat_item].
      rewrite app_nil_r, app_assoc. reflexivity. }
    rewrite app_assoc, <- F1.
    destruct (IH (S i) (dict_set d (nth i key_universe []) n) l1 R'
                 F' ltac:(lia) NR')
      as (l' & d' & G1 & O1 & W1 & P' & N' & Inc' & Q'); try assumption.
    + unfold l1. apply Forall_app. split; [exact W|].
      apply Forall_app. split; [apply wf_chars; exact NA|].
      constructor; [|constructor]. split; assumption.
    + rewrite F1. apply calm_app; [exact CA|apply calm_key; exact Ik].
    + exists l', d'. split; [exact G1|].
      split; [|auto].
      rewrite O1. unfold l1. rewrite !orig_app, orig_chars.
      cbn [orig flat_map orig_item]. rewrite app_nil_r, <- !app_assoc.
      reflexivity.
Qed.

End GuardNumbers.

(** *** The loop over the tokens *)

Lemma tokens_checked :
  forallb (fun tok => (6 <=? List.length tok)%nat && forallb token_char tok)
          (sorted_by_len_desc critical_tokens)
  && (List.length (sorted_by_len_desc critical_tokens) =? 10)%nat = true.
Proof. vm_compute. reflexivity. Qed.

(** a stretch of six or more characters without underscore lies between
    the placeholders *)
Lemma split_plain (l : list item) :
  Forall wf_item l ->
  forall A x R,
    flat l = A ++ x ++ R -> ~ In 95%N x -> (6 <= List.length x)%nat ->
    exists l1 l2,
      l = l1 ++ List.map Ch x ++ l2 /\ flat l1 = A /\ flat l2 = R.
Proof.
  induction 1 as [|it l Wi W IH]; intros A x R E Nx L6.
  - destruct A; destruct x; try discriminate E. cbn in L6. lia.
  - destruct A as [|a A].
    + assert (Sx : starts_with (x ++ R) (flat (it :: l)) = true).
      { rewrite E. apply starts_with_iff. exists []. cbn [app].
        rewrite app_nil_r. reflexivity. }
      destruct (@plain_prefix x R (it :: l) (Forall_cons _ Wi W) Nx Sx)
        as (l' & El & _).
      exists [], l'. split; [exact El|]. split; [reflexivity|].
      rewrite El, flat_app, flat_chars in E. cbn [app] in E.
      exact (app_inv_head _ _ _ E).
    + destruct it as [c|k v].
      * cbn [flat flat_map flat_item app] in E. injection E as <- E.
        destruct (IH A x R E Nx L6) as (l1 & l2 & -> & <- & <-).
        exists (Ch c :: l1), l2. auto.
      * apply wf_key_inv in Wi as [Ik _].
        change (flat (Key k v :: l)) with (k ++ flat l) in E.
        apply app_eq_app in E as [m [[Ek Em]|[Ek Em]]].
        -- destruct m as [|c m].
           ++ rewrite app_nil_r in Ek. cbn [app] in Em.
              destruct (IH [] x R (eq_sym Em) Nx L6)
                as (l1 & l2 & -> & F1 & <-).
              exists (Key k v :: l1), l2. split; [reflexivity|].
              split; [|reflexivity].
              change (flat (Key k v :: l1)) with (k ++ flat l1).
              rewrite F1, app_nil_r. exact Ek.
           ++ exfalso.
              assert (Hj : (List.length (a :: A) < List.length k)%nat)
                by (rewrite Ek, length_app; cbn; lia).
              destruct (@key_short_spec k _ Ik Hj) as (X & _ & _).
              rewrite Ek, skipn_app, skipn_all, Nat.sub_diag in X.
              cbn [skipn app] in X.
              apply existsb_exists in X as (u & Iu & Eu).
              apply N.eqb_eq in Eu. subst u.
              assert (I6 : In 95%N (firstn 6 (x ++ R))).
              { rewrite Em, firstn_app. apply in_or_app. left. exact Iu. }
              rewrite firstn_app in I6.
              replace (6 - List.length x)%nat with 0%nat in I6 by lia.
              rewrite firstn_O, app_nil_r in I6.
              apply Nx. rewrite <- (firstn_skipn 6 x).
              apply in_or_app. left. exact I6.
        -- destruct (IH m x R Em Nx L6) as (l1 & l2 & -> & <- & <-).
           exists (Key k v :: l1), l2. split; [reflexivity|].
           split; [|reflexivity]. symmetry. exact Ek.
Qed.

Section GuardTokens.
Context {U : Unicode} {G : GuardLaws U}.

Lemma ci_prefix_length (tok s : str) :
  ci_prefix tok s = true -> (List.length tok <= List.length s)%nat.
Proof.
  revert s. induction tok as [|p tok IH]; intros s H; [cbn; lia|].
  destruct s as [|c s]; [discriminate H|].
  cbn [ci_prefix] in H. apply andb_true_iff in H as [_ H].
  specialize (IH s H). cbn. lia.
Qed.

Lemma literal_sound (tok s : str) (n : nat) :
  literal_ignorecase tok s = Some n -> (n <= List.length s)%nat.
Proof.
  unfold literal_ignorecase. destruct (ci_prefix tok s) eqn:E;
    [|discriminate].
  intros H. injection H as <-. apply ci_prefix_length. exact E.
Qed.

(** what a token matches has no underscore *)
Lemma ci_match_plain (tok : str) :
  forallb token_char tok = true ->
  forall x R,
    ci_prefix tok (x ++ R) = true -> List.length x = List.length tok ->
    ~ In 95%N x.
Proof.
  induction tok as [|p tok IH]; intros T x R H L.
  - destruct x; [exact (fun I => I)|discriminate L].
  - destruct x as [|c x]; [discriminate L|].
    cbn [forallb] in T. apply andb_true_iff in T as [Tp T].
    cbn [app ci_prefix] in H. apply andb_true_iff in H as [Hc H].
    cbn [List.length] in L. injection L as L.
    intros [E|I]; [|exact (IH T x R H L I)].
    subst c. unfold token_char in Tp.
    apply andb_true_iff in Tp as [P128 P95].
    apply N.ltb_lt in P128.
    rewrite (@ignorecase_ascii U G p 95%N P128 ltac:(lia)) in Hc.
    change (ascii_to_lower 95%N) with 95%N in Hc.
    rewrite Hc in P95. discriminate P95.
Qed.

Lemma ci_prefix_nil (tok : str) : tok <> [] -> ci_prefix tok [] = false.
Proof. destruct tok; [contradiction|reflexivity]. Qed.

Lemma literal_none (tok b : str) :
  tok <> [] ->
  match literal_ignorecase tok b with Some (S _) => False | _ => True end ->
  ci_prefix tok b = false.
Proof.
  unfold literal_ignorecase. intros N H.
  destruct (ci_prefix tok b); [|reflexivity].
  destruct tok; [contradiction|]. cbn [List.length] in H. contradiction.
Qed.

Lemma ci_prefix_app_short (tok : str) :
  forall a s s',
    ci_prefix tok (a ++ s) = true ->
    (List.length tok <= List.length a)%nat ->
    ci_prefix tok (a ++ s') = true.
Proof.
  induction tok as [|p tok IH]; intros a s s' H L; [reflexivity|].
  destruct a as [|c a]; [cbn in L; lia|].
  cbn [app ci_prefix] in *. apply andb_true_iff in H as [-> H].
  cbn [List.length] in L. apply (IH a s s' H). lia.
Qed.

Lemma ci_prefix_plain (tok s : str) :
  forallb token_char tok = true -> ci_prefix tok s = true ->
  ~ In 95%N (firstn (List.length tok) s).
Proof.
  intros T H. pose proof (ci_prefix_length _ _ H) as L.
  apply (@ci_match_plain tok T (firstn (List.length tok) s)
                         (skipn (List.length tok) s)).
  - rewrite firstn_skipn. exact H.
  - rewrite length_firstn. lia.
Qed.

Lemma firstn_mono_In (A : Type) (x : A) (l : list A) (i j : nat) :
  (i <= j)%nat -> In x (firstn i l) -> In x (firstn j l).
Proof. intros H. apply firstn_incl_le. exact H. Qed.

(** putting a placeholder in the place of a piece of text starts no run
    of digits *)
Lemma quiet_swap (A x R k : str) :
  In k key_universe -> quiet (A ++ x ++ R) -> quiet (A ++ k ++ R).
Proof.
  intros Ik Q a b E N.
  pose proof (@calm_key U G k Ik) as Ck.
  apply app_eq_app in E as [m [[-> ->]|[-> E]]].
  - destruct m as [|c m].
    + exact (Ck [] k R eq_refl (key_nonempty Ik)).
    + set (m' := c :: m) in *.
      assert (Qm : (run_length is_decimal (m' ++ x ++ R) < 3)%nat).
      { apply (Q a (m' ++ x ++ R)); [|discriminate].
        rewrite <- app_assoc. reflexivity. }
      pose proof (run_length_le is_decimal m') as Lm.
      destruct (Nat.eq_dec (run_length is_decimal m') (List.length m'))
        as [F|F].
      * rewrite (run_full _ _ _ F) in Qm. rewrite (run_full _ _ _ F).
        destruct (@key_shape k Ik) as (c' & r & -> & _).
        cbn [app run_length].
        rewrite (@decimal_ascii U G 95%N ltac:(lia)).
        change (ascii_digit 95%N) with false. cbv iota. lia.
      * rewrite run_stop in Qm by lia. rewrite run_stop by lia. exact Qm.
  - apply app_eq_app in E as [m2 [[-> ->]|[-> ->]]].
    + destruct m2 as [|c m2].
      * apply (Q (A ++ x) R); [apply app_assoc|exact N].
      * apply (Ck m (c :: m2) R); [reflexivity|discriminate].
    + apply (Q (A ++ x ++ m2) b); [|exact N].
      rewrite <- !app_assoc. reflexivity.
Qed.

(** nor a match of a token *)
Lemma hidden_swap (tok A x R k : str) :
  (6 <= List.length tok)%nat -> forallb token_char tok = true ->
  In k key_universe ->
  (forall A1 A2, A = A1 ++ A2 -> A2 <> [] ->
                 ci_prefix tok (A2 ++ x ++ R) = false) ->
  hidden tok R ->
  hidden tok (A ++ k ++ R).
Proof.
  intros L6 T Ik HA HR a b E.
  destruct (ci_prefix tok b) eqn:C; [exfalso|reflexivity].
  pose proof (@ci_prefix_plain tok b T C) as P.
  destruct (@key_shape k Ik) as (c' & r & Ek & _).
  apply app_eq_app in E as [m [[-> ->]|[-> E]]].
  - destruct (Nat.le_gt_cases (List.length tok) (List.length m)) as [Lm|Lm].
    + destruct m as [|c m]; [cbn in Lm; lia|].
      pose proof (ci_prefix_app_short _ _ _ (x ++ R) C Lm) as C'.
      rewrite (HA a (c :: m) eq_refl ltac:(discriminate)) in C'.
      discriminate C'.
    + apply P. rewrite firstn_app. apply in_or_app. right.
      rewrite Ek.
      destruct (List.length tok - List.length m)%nat eqn:D; [lia|].
      left. reflexivity.
  - apply app_eq_app in E as [m2 [[E ->]|[-> ->]]].
    + destruct m2 as [|c m2].
      * cbn [app] in C. rewrite (HR [] R eq_refl) in C. discriminate C.
      * assert (Hj : (List.length m < List.length k)%nat)
          by (rewrite E, length_app; cbn; lia).
        destruct (@key_short_spec k _ Ik Hj) as (X & _ & _).
        rewrite E, skipn_app, skipn_all, Nat.sub_diag in X.
        cbn [skipn app] in X.
        apply existsb_exists in X as (u & Iu & Eu).
        apply N.eqb_eq in Eu. subst u.
        apply P. apply (@firstn_mono_In _ _ _ 6); [exact L6|].
        rewrite firstn_app. apply in_or_app. left. exact Iu.
    + rewrite (HR m2 b eq_refl) in C. discriminate C.
Qed.

Lemma guard_tokens_items (toks : list str) :
  forall (i : nat) (d : dict) (l : list item) (done : list str),
    forallb (fun tok => (6 <=? List.length tok)%nat
                        && forallb token_char tok) toks = true ->
    forallb (fun tok => (6 <=? List.length tok)%nat
                        && forallb token_char tok) done = true ->
    (i + List.length toks <= 10)%nat ->
    single_matches i toks (d, flat l) = true ->
    Forall wf_item l ->
    Permutation (entries l) d -> NoDup (List.map fst d) ->
    incl (List.map fst d) (firstn (100 + i) key_universe) ->
    quiet (flat l) ->
    Forall (fun tok => hidden tok (flat l)) done ->
    exists l' d',
      guard_tokens i toks (d, flat l) = (d', flat l')
      /\ orig l' = orig l
      /\ Forall wf_item l'
      /\ Permutation (entries l') d'
      /\ NoDup (List.map fst d')
      /\ quiet (flat l')
      /\ Forall (fun tok => hidden tok (flat l')) (done ++ toks).
Proof.
  induction toks as [|tok toks IH];
    intros i d l done T Td Hi SM W P N Inc Q Hd.
  - exists l, d. cbn [guard_tokens]. rewrite app_nil_r.
    repeat (split; [auto; fail|]). exact Hd.
  - cbn [forallb] in T. apply andb_true_iff in T as [Tt T].
    pose proof Tt as Tt'.
    apply andb_true_iff in Tt as [T6 Tc]. apply Nat.leb_le in T6.
    assert (Nt : tok <> []) by (destruct tok; [cbn in T6; lia|discriminate]).
    assert (Td' : forallb (fun tok => (6 <=? List.length tok)%nat
                                      && forallb token_char tok)
                          (done ++ [tok]) = true).
    { rewrite forallb_app. apply andb_true_iff. split; [exact Td|].
      cbn [forallb]. rewrite Tt'. reflexivity. }
    cbn [List.length] in Hi.
    cbn [single_matches snd] in SM. apply andb_true_iff in SM as [S1 SM].
    apply Nat.leb_le in S1.
    cbn [guard_tokens snd]. unfold re_finditer in *.
    replace (done ++ tok :: toks) with ((done ++ [tok]) ++ toks)
      by (rewrite <- app_assoc; reflexivity).
    destruct (spans_go (literal_ignorecase tok) 0 0 (flat l))
      as [|[a b] [|ab2 rest]] eqn:E.
    + cbn [guard_matches] in *.
      apply (IH (S i) d l (done ++ [tok]) T Td' ltac:(lia) SM W P N);
        [|exact Q|].
      * intros y Hy. apply Inc in Hy. revert Hy.
        apply firstn_incl_le. lia.
      * apply Forall_app. split; [exact Hd|].
        constructor; [|constructor].
        intros a b Eb. destruct b as [|c b]; [apply ci_prefix_nil, Nt|].
        apply (literal_none _ Nt).
        exact (@spans_nil (literal_ignorecase tok) (flat l) 0 E a (c :: b)
                          Eb ltac:(discriminate)).
    + destruct (@spans_first (literal_ignorecase tok)
                  (@literal_sound tok) _ _ _ _ _ E)
        as (A & x & R & F & -> & -> & Nx & M & Ex & Er).
      cbn [Nat.add] in *.
      unfold literal_ignorecase in M.
      destruct (ci_prefix tok (x ++ R)) eqn:C; [|discriminate M].
      injection M as M.
      assert (Px : ~ In 95%N x)
        by exact (@ci_match_plain tok Tc x R C (eq_sym M)).
      assert (HA : forall A1 A2, A = A1 ++ A2 -> A2 <> [] ->
                                 ci_prefix tok (A2 ++ x ++ R) = false).
      { intros A1 A2 EA N2. apply (literal_none _ Nt).
        exact (Ex A1 A2 EA N2). }
      assert (HR : hidden tok R).
      { intros a b Eb. destruct b as [|c b]; [apply ci_prefix_nil, Nt|].
        apply (literal_none _ Nt).
        exact (@spans_nil (literal_ignorecase tok) R _ (eq_sym Er)
                          a (c :: b) Eb ltac:(discriminate)). }
      clear Ex Er.
      destruct (@split_plain l W A x R F Px ltac:(lia))
        as (la & lb & -> & <- & <-).
      cbn [guard_matches] in *.
      rewrite F in *. rewrite slice_middle in *.
      rewrite firstn_app, firstn_all, Nat.sub_diag in *.
      cbn [firstn] in *. rewrite app_nil_r in *.
      rewrite (app_assoc (flat la) x (flat lb)) in SM.
      rewrite (app_assoc (flat la) x (flat lb)).
      rewrite skipn_app, skipn_all2 in SM by (rewrite length_app; lia).
      rewrite skipn_app, skipn_all2 by (rewrite length_app; lia).
      rewrite length_app, Nat.sub_diag in *. cbn [skipn app] in *.
      rewrite <- (@universe_tok i ltac:(lia)) in *.
      set (k := nth (100 + i) key_universe []) in *.
      set (l1 := la ++ Key k x :: lb).
      assert (E1 : Permutation (entries l1)
                               ((k, x) :: entries (la ++ List.map Ch x ++ lb))).
      { unfold l1. rewrite !entries_app, entries_chars. cbn [app].
        cbn [entries flat_map app]. fold (entries lb).
        apply Permutation_sym, Permutation_middle. }
      destruct (@next_key d _ l1 (100 + i) x ltac:(lia) P N Inc
                          (or_intror E1))
        as (_ & Ik & P1 & N1 & Inc1). fold k in P1, N1, Inc1, Ik.
      assert (F1 : flat la ++ k ++ flat lb = flat l1).
      { unfold l1. rewrite flat_app. reflexivity. }
      rewrite F1 in *.
      destruct (IH (S i) (dict_set d k x) l1 (done ++ [tok]) T Td'
                   ltac:(lia) SM)
        as (l' & d' & G1 & O1 & W1 & P' & N' & Q' & H');
        try assumption.
      * unfold l1. apply Forall_app in W as [Wa W].
        apply Forall_app in W as [_ Wb].
        apply Forall_app. split; [exact Wa|].
        constructor; [split; assumption|exact Wb].
      * rewrite <- F1. apply (@quiet_swap (flat la) x (flat lb) k Ik).
        exact Q.
      * rewrite <- F1. apply Forall_app. split.
        -- rewrite forallb_forall in Td. rewrite Forall_forall in *.
           intros tk Itk. specialize (Td tk Itk). specialize (Hd tk Itk).
           apply andb_true_iff in Td as [D6 Dc]. apply Nat.leb_le in D6.
           apply (@hidden_swap tk (flat la) x (flat lb) k D6 Dc Ik).
           ++ intros A1 A2 EA _. apply (Hd A1). rewrite EA, <- app_assoc.
              reflexivity.
           ++ intros a b Eb. apply (Hd (flat la ++ x ++ a)).
              rewrite Eb, <- !app_assoc. reflexivity.
        -- constructor; [|constructor].
           exact (@hidden_swap tok (flat la) x (flat lb) k T6 Tc Ik HA HR).
      * exists l', d'. split; [exact G1|]. split; [|auto].
        rewrite O1. unfold l1. rewrite !orig_app, orig_chars. reflexivity.
    + cbn [List.length] in S1. lia.
Qed.

End GuardTokens.

(** *** The round trip *)

#[export] Instance ascii_guard_laws : GuardLaws ascii_unicode.
Proof. split; intros; reflexivity. Qed.

Section RoundTrip.
Context {U : Unicode} {G : GuardLaws U}.

(** on a guardable input, the guarded text is a sequence of items that
    stands for the input *)
Lemma guard_items (t : str) :
  guardable t = true ->
  exists l d,
    guard t = (d, flat l)
    /\ orig l = t
    /\ Forall wf_item l
    /\ Permutation (entries l) d
    /\ NoDup (List.map fst d)
    /\ quiet (flat l)
    /\ Forall (fun tok => hidden tok (flat l))
              (sorted_by_len_desc critical_tokens).
Proof.
  unfold guardable. intros H.
  apply andb_true_iff in H as [H H4].
  apply andb_true_iff in H as [H H3]. apply Nat.leb_le in H3.
  apply andb_true_iff in H as [H1 _].
  assert (N95 : ~ In 95%N t).
  { intros I. apply negb_true_iff in H1.
    assert (T : existsb (N.eqb 95) t = true)
      by (apply existsb_exists; exists 95%N; split;
          [exact I|reflexivity]).
    congruence. }
  destruct (@guard_nums_items U G (re_findall num_pattern t) 0 [] [] t
              eq_refl ltac:(cbn [Nat.add]; exact H3) N95
              (Forall_nil _) calm_nil (perm_nil _) (NoDup_nil _)
              ltac:(intros x []))
    as (l1 & d1 & G1 & O1 & W1 & P1 & N1 & I1 & Q1).
  cbn [flat flat_map app] in G1. cbn [orig flat_map app] in O1.
  assert (H4' : single_matches 0 (sorted_by_len_desc critical_tokens)
                               (d1, flat l1) = true)
    by (rewrite <- G1; exact H4).
  pose proof tokens_checked as T. apply andb_true_iff in T as [T TL].
  apply Nat.eqb_eq in TL.
  destruct (@guard_tokens_items U G (sorted_by_len_desc critical_tokens)
              0 d1 l1 [] T eq_refl ltac:(rewrite TL; cbn; lia) H4'
              W1 P1 N1 I1 Q1 (Forall_nil _))
    as (l2 & d2 & G2 & O2 & W2 & P2 & N2 & Q2 & H2).
  exists l2, d2. split; [|split; [congruence|auto 10]].
  unfold guard. cbv zeta. rewrite <- G2, <- G1. reflexivity.
Qed.

Lemma search_none (m : matcher) (s : str) :
  (forall a b, s = a ++ b -> m b = None) -> re_search m s = false.
Proof.
  induction s as [|c s IH]; intros H; cbn [re_search].
  - rewrite (H [] [] eq_refl). reflexivity.
  - rewrite (H [] (c :: s) eq_refl). apply IH.
    intros a b E. apply (H (c :: a) b). rewrite E. reflexivity.
Qed.

Lemma tokens_are_sorted_tokens :
  incl critical_tokens (sorted_by_len_desc critical_tokens).
Proof.
  assert (E : sorted_by_len_desc critical_tokens
              = List.map lit
                  [ "withdraw money"; "indefinitely"; "government";
                    "emergency"; "lockdown"; "withdraw"; "urgently";
                    "schools"; "closed"; "urgent" ]%string)
    by reflexivity.
  rewrite E. unfold critical_tokens. intros x Hx. cbn [List.map In] in *.
  tauto.
Qed.

End RoundTrip.

(** X21.  On a guardable input (no underscore, no substring "NUM", at most
    100 runs of three or more digits, and at most one match of each
    critical token at the time the guard scans for it) the restoration
    undoes the guard: replacing the placeholders in the guarded text gives
    the input back, character for character.  So when the translator is
    absent, the processed text is [clean_text] of the input. *)
Theorem guard_restore_round_trip
        (U : Unicode) (G : GuardLaws U) (t : str) :
  guardable t = true ->
  restore (fst (guard t)) (snd (guard t)) = t
  /\ forall detect : str -> res str,
      fst (preprocessing_and_translation detect None t)
      = clean_text (Some t).
Proof.
  intros H.
  assert (N : contains (lit "NUM") t = false).
  { unfold guardable in H.
    apply andb_true_iff in H as [H _]. apply andb_true_iff in H as [H _].
    apply andb_true_iff in H as [_ H]. apply negb_true_iff in H. exact H. }
  destruct (guard_items t H) as (l & d & E & O & W & P & Nd & _).
  assert (R : restore (fst (guard t)) (snd (guard t)) = t).
  { rewrite E. cbn [fst snd]. rewrite <- O.
    apply restore_items; try assumption. rewrite O. exact N. }
  split; [exact R|]. intros detect.
  unfold preprocessing_and_translation.
  destruct t as [|c r]; [reflexivity|]. cbn [falsy].
  destruct (guard (c :: r)) as [placeholder_map tmp].
  cbn [fst snd] in R.
  destruct (process_language_no_translator U detect tmp) as [lang ->].
  cbn [fst]. rewrite R. reflexivity.
Qed.

Lemma guard_restore_round_trip_witness :
  let t := lit "Schools CLOSED 01012025 urgently, withdraw money 5000!" in
  guardable (U := ascii_unicode) t = true
  /\ snd (guard (U := ascii_unicode) t)
     = lit "__TK7_0__ __TK8_0__ __NUM0__ __TK6_0__, __TK0_0__ __NUM1__!"
  /\ restore (fst (guard (U := ascii_unicode) t))
             (snd (guard (U := ascii_unicode) t)) = t.
Proof.
  cbv zeta. split; [vm_compute; reflexivity|].
  split; [vm_compute; reflexivity|].
  exact (proj1 (@guard_restore_round_trip ascii_unicode ascii_guard_laws
                  (lit "Schools CLOSED 01012025 urgently, withdraw money 5000!")
                  ltac:(vm_compute; reflexivity))).
Defined.

(** X22.  On a guardable input the guarded text, which is what the
    language detector and the translator are given, contains no run of
    three or more decimal digits and no occurrence, in any letter case, of
    a critical token: all of them are behind placeholders. *)
Theorem guard_hides_numbers_and_tokens
        (U : Unicode) (G : GuardLaws U) (t : str) :
  guardable t = true ->
  let tmp := snd (guard t) in
  re_search num_pattern tmp = false
  /\ existsb (fun tok => re_search (literal_ignorecase tok) tmp)
             critical_tokens = false.
Proof.
  intros H. cbv zeta.
  destruct (guard_items t H) as (l & d & E & _ & _ & _ & _ & Q & Hd).
  rewrite E. cbn [snd]. split.
  - apply search_none. intros a b Eb. unfold num_pattern. cbv zeta.
    destruct b as [|c b]; [reflexivity|].
    pose proof (Q a (c :: b) Eb ltac:(discriminate)) as R.
    destruct (Nat.leb_spec 3 (run_length is_decimal (c :: b)));
      [lia|reflexivity].
  - destruct (existsb _ critical_tokens) eqn:X; [exfalso|reflexivity].
    apply existsb_exists in X as (tok & It & Ht).
    apply tokens_are_sorted_tokens in It.
    rewrite Forall_forall in Hd. specialize (Hd tok It).
    rewrite search_none in Ht; [discriminate Ht|].
    intros a b Eb. unfold literal_ignorecase.
    rewrite (Hd a b Eb). reflexivity.
Qed.

Lemma guard_hides_numbers_and_tokens_witness :
  let t := lit "Schools CLOSED 01012025 urgently, withdraw money 5000!" in
  let tmp := snd (guard (U := ascii_unicode) t) in
  re_search num_pattern tmp = false
  /\ existsb (fun tok => re_search (literal_ignorecase tok) tmp)
             critical_tokens = false.
Proof.
  exact (@guard_hides_numbers_and_tokens ascii_unicode ascii_guard_laws
           (lit "Schools CLOSED 01012025 urgently, withdraw money 5000!")
           ltac:(vm_compute; reflexivity)).
Defined.

(** ** The term set of the detector *)

Lemma term_count_sum (lower : str) (terms : list str) (z : Z) :
  fold_left
    (fun count term =>
       if contains term lower then (count + str_count term lower)%Z
       else count)
    terms z
  = (z + list_sum_Z
           (List.map (fun term => if contains term lower
                                  then str_count term lower else 0%Z)
                     terms))%Z.
Proof.
  revert z. induction terms as [|t terms IH]; intros z;
    cbn [fold_left List.map list_sum_Z].
  - lia.
  - rewrite IH. destruct (contains t lower); lia.
Qed.

Lemma list_sum_Z_perm (l l' : list Z) :
  Permutation l l' -> list_sum_Z l = list_sum_Z l'.
Proof.
  induction 1; cbn [list_sum_Z]; lia.
Qed.

(** X23.  The score does not depend on the order in which the term set
    is traversed, nor on repetitions in the list the detector was built
    from: two detectors whose term lists have the same elements give the
    same score on every text. *)
Theorem score_depends_on_term_set
        (U : Unicode) (terms terms' : list str) (text : str) :
  (forall term, In term terms <-> In term terms') ->
  score (MisinformationDetector_init (Some terms)) text
  = score (MisinformationDetector_init (Some terms')) text.
Proof.
  intros H.
  assert (P : Permutation (nodup (list_eq_dec N.eq_dec) terms)
                          (nodup (list_eq_dec N.eq_dec) terms')).
  { apply NoDup_Permutation; try apply NoDup_nodup.
    intros x. rewrite !nodup_In. apply H. }
  unfold score, MisinformationDetector_init. cbn [suspicious_terms].
  destruct (falsy text); [reflexivity|]. cbv zeta.
  rewrite !term_count_sum.
  rewrite (list_sum_Z_perm (Permutation_map _ P)). reflexivity.
Qed.

Lemma score_depends_on_term_set_witness :
  score (U := ascii_unicode)
        (MisinformationDetector_init (Some [lit "hoax"; lit "scam"]))
        (lit "a scam and a hoax")
  = score (U := ascii_unicode)
          (MisinformationDetector_init
             (Some [lit "scam"; lit "hoax"; lit "scam"]))
          (lit "a scam and a hoax").
Proof.
  apply score_depends_on_term_set. intros term. cbn [In]. tauto.
Defined.

(** ** Blank input *)

Lemma drop_while_nil (f : char -> bool) (s : str) :
  drop_while f s = [] <-> Forall (fun c => f c = true) s.
Proof.
  induction s as [|c s IH]; cbn [drop_while].
  - split; [constructor|reflexivity].
  - destruct (f c) eqn:E.
    + rewrite IH. split; [constructor; assumption|].
      intros F. inversion F. assumption.
    + split; [discriminate|]. intros F. inversion F. congruence.
Qed.

Lemma strip_nil (U : Unicode) (s : str) :
  str_strip s = [] <-> Forall (fun c => is_space c = true) s.
Proof.
  unfold str_strip. rewrite <- drop_while_nil. split.
  - intros H. apply (f_equal (@rev _)) in H. rewrite rev_involutive in H.
    cbn [rev] in H. apply drop_while_nil in H.
    destruct (drop_while is_space s) as [|c r] eqn:E; [reflexivity|].
    exfalso. pose proof (drop_while_head _ _ E) as Hc.
    cbn [rev] in H. apply Forall_app in H as [_ H].
    inversion H. congruence.
  - intros ->. reflexivity.
Qed.

(** X24.  When the button is pressed, the page shows the warning exactly
    when every character of the text is whitespace (the empty text
    included); no analysis is run then. *)
Theorem blank_input_gives_warning
        (U : Unicode) (detect : str -> res str)
        (translator : option Translator) (raw_text : str) :
  truthlens_app detect translator raw_text true = Ok NoInput
  <-> Forall (fun c => is_space c = true) raw_text.
Proof.
  rewrite <- strip_nil. unfold truthlens_app.
  destruct (str_strip raw_text) as [|c r] eqn:E.
  - cbn [falsy]. split; reflexivity.
  - cbn [falsy]. split; [|discriminate].
    destruct (preprocessing_and_translation _ _ _) as [p l].
    destruct (analyze_text p) as [[m s] v].
    destruct (calculate_confidence_score _ _) as [[cf fv]|]; discriminate.
Qed.
